(** * CBWebSocketServer: heartbeat manager, broadcast relay, session handler,
      listener start-up and shutdown, embedded from the JavaScript sources.

    Source files, under the names the sources give them:
    - [src/heartbeat.js]  ([createHeartbeatManager])
    - [src/broadcast.js]  ([broadcast])
    - [server.js]         ([getClientIp], [attachHandlers], [bindUpgrade],
                           [startListeners], the WS / WSS start-up blocks,
                           [gracefulShutdown])
    - [src/logger.js]     ([formatTimestamp], [write] of [createLogger])
    - [src/config.js]     ([getRuntimeRoot], [resolveFromRoot],
                           [loadConfig])

    Conventions of the embedding.
    - A JavaScript string is the list of its UTF-16 code units, so that
      [.length] and [.slice] count what the engine counts.
    - A socket is an object identity, modelled by a number; [===] on sockets
      is equality of these numbers.
    - [Date.now()] is an integer number of milliseconds and is an argument of
      every function that reads the clock.
    - Calls into the [ws] library that the sources wrap in [try]/[catch] can
      throw: the transport is a record of oracles saying, for each socket,
      its [readyState] and whether [send], [ping] or [terminate] throws.
    - What a handler does to the outside world is the list of [Effect]s it
      returns, in program order.  Log lines are kept as structured records
      of the values interpolated into the message.
    - A process ends when [process.exit] is called, and also when its
      event loop has nothing left to wait for: listeners whose bind has
      not failed, running timers and connected sockets are counted from
      the events delivered. *)

From Stdlib Require Import List ZArith NArith Lia Bool Ascii String QArith.
From Stdlib Require Import Qabs DecimalString.
Import ListNotations.

Set Implicit Arguments.
Close Scope Q_scope.
Set Warnings "-register-all".

(* ===================================================================== *)
(** ** JavaScript values used by the sources                              *)
(* ===================================================================== *)

Module JS.

(** A string is a sequence of UTF-16 code units. *)
Definition CodeUnit := N.
Definition JSString := list CodeUnit.

Definition str_eqb (a b : JSString) : bool :=
  if list_eq_dec N.eq_dec a b then true else false.

(** An ASCII literal of the sources. *)
Definition js (s : string) : JSString :=
  map N_of_ascii (list_ascii_of_string s).

(** [s.length] *)
Definition length (s : JSString) : nat := List.length s.

(** [s.slice(0, n)] for [0 <= n] *)
Definition slice0 (n : nat) (s : JSString) : JSString := firstn n s.

(** Values that [JSON.parse] can return.  An object keeps its own
    properties in an association list with unique keys. *)
Inductive JSValue : Type :=
| JNull
| JBool (b : bool)
| JNumber (q : Q)
| JString (s : JSString)
| JArray (xs : list JSValue)
| JObject (props : list (JSString * JSValue)).

(** [JNumber q] is the double nearest to the rational [q]; it is [0] or
    [-0] exactly when [q] is at most [2 ^ -1075] in absolute value. *)
Definition rounds_to_zero (q : Q) : bool :=
  Qle_bool (Qabs q) (1 # (2 ^ 1075))%Q.

(** ToBoolean, as used by [parsed && ...]. *)
Definition truthy (v : JSValue) : bool :=
  match v with
  | JNull => false
  | JBool b => b
  | JNumber q => negb (rounds_to_zero q)
  | JString s => match s with [] => false | _ => true end
  | JArray _ => true
  | JObject _ => true
  end.

(** Own-property lookup in an object. *)
Fixpoint own (props : list (JSString * JSValue)) (k : JSString)
  : option JSValue :=
  match props with
  | [] => None
  | (k', v) :: rest => if str_eqb k' k then Some v else own rest k
  end.

(** [v.type] for a truthy [v]; [None] is [undefined].  Numbers, strings,
    booleans and arrays coming out of [JSON.parse] have no property named
    [type], neither own nor inherited; an object has it only as an own
    property. *)
Definition get_type (v : JSValue) : option JSValue :=
  match v with
  | JObject props => own props (js "type")
  | _ => None
  end.

(** [x === 'lit'] where [x] may be [undefined]. *)
Definition strict_eq_str (x : option JSValue) (lit : JSString) : bool :=
  match x with
  | Some (JString s) => str_eqb s lit
  | _ => false
  end.

(** [Math.round(x / 1000)] for an integer [x]: nearest integer, ties
    towards positive infinity. *)
Definition round_div_1000 (x : Z) : Z := ((x + 500) / 1000)%Z.

End JS.
Import JS.

(* ===================================================================== *)
(** ** The transport ([ws] sockets) and the effects of a handler          *)
(* ===================================================================== *)

Definition Socket := nat.

Inductive ReadyState := CONNECTING | OPEN | CLOSING | CLOSED.

Definition is_open (r : ReadyState) : bool :=
  match r with OPEN => true | _ => false end.

(** What the sockets answer during one handler run.  [Some msg] in a
    [_throws] field is the [message] of the [Error] thrown by the call. *)
Record Transport := {
  readyState : Socket -> ReadyState;
  send_throws : Socket -> JSString -> option JSString;
  ping_throws : Socket -> option JSString;
  terminate_throws : Socket -> option JSString
}.

Inductive LogRecord :=
| ZombieCleaned (ip : JSString) (seconds : Z)
| PingFailed (ip : JSString) (err : JSString)
| ForwardFailed (err : JSString)
| BroadcastSummary (senderIp : JSString) (sentCount totalOnline : nat)
                   (preview : JSString)
| PongReplyFailed (ip : JSString) (err : JSString)
| ClientConnected (proto : JSString) (ip : JSString) (online : nat)
| ClientDisconnected (proto : JSString) (ip : JSString) (online : nat)
| ClientError (proto : JSString) (ip : JSString) (err : JSString)
| ServiceStarted (proto : JSString) (host : JSString) (port : Z)
| LoopbackAnnounced (proto : JSString) (port : Z)
| PrimaryListenerFailed (proto : JSString) (host : JSString) (port : Z)
                        (err : JSString)
| LoopbackListenerFailed (proto : JSString) (port : Z) (err : JSString)
| TlsReadFailed (err : JSString)
| SignalReceived (signal : JSString)
| GroupClosed (label : JSString)
| ServerStopped
| ShutdownTimedOut.

Inductive Effect :=
| Send (s : Socket) (data : JSString) (threw : option JSString)
| Ping (s : Socket) (threw : option JSString)
| Terminate (s : Socket) (threw : option JSString)
| LogInfo (r : LogRecord)
| LogWarn (r : LogRecord)
| LogError (r : LogRecord).

(** Observations on a list of effects. *)
Module Trace.

(** The sockets on which [send] was called, in order. *)
Fixpoint recipients (fx : list Effect) : list Socket :=
  match fx with
  | [] => []
  | Send s _ _ :: rest => s :: recipients rest
  | _ :: rest => recipients rest
  end.

(** The [(socket, data)] pairs of the [send] calls, in order. *)
Fixpoint sends (fx : list Effect) : list (Socket * JSString) :=
  match fx with
  | [] => []
  | Send s d _ :: rest => (s, d) :: sends rest
  | _ :: rest => sends rest
  end.

(** The [(socket, data)] pairs of the [send] calls that returned. *)
Fixpoint delivered (fx : list Effect) : list (Socket * JSString) :=
  match fx with
  | [] => []
  | Send s d None :: rest => (s, d) :: delivered rest
  | _ :: rest => delivered rest
  end.

(** The previews of the per-broadcast summary lines. *)
Fixpoint previews (fx : list Effect) : list JSString :=
  match fx with
  | [] => []
  | LogInfo (BroadcastSummary _ _ _ p) :: rest => p :: previews rest
  | _ :: rest => previews rest
  end.

(** The sockets on which [terminate] was called. *)
Fixpoint terminated (fx : list Effect) : list Socket :=
  match fx with
  | [] => []
  | Terminate s _ :: rest => s :: terminated rest
  | _ :: rest => terminated rest
  end.

(** The number of per-broadcast summary lines: one per run of the relay. *)
Definition broadcasts (fx : list Effect) : nat := List.length (previews fx).

End Trace.

(* ===================================================================== *)
(** ** src/heartbeat.js                                                   *)
(* ===================================================================== *)

Module Heartbeat.

(** [{ isAlive, lastPingSentAt, ip }] *)
Record Entry := {
  isAlive : bool;
  lastPingSentAt : Z;
  ip : JSString
}.

(** A JavaScript [Map] keyed by socket identity: unique keys, iterated in
    insertion order. *)
Definition ClientMap := list (Socket * Entry).

Fixpoint Map_get (m : ClientMap) (k : Socket) : option Entry :=
  match m with
  | [] => None
  | (k', e) :: rest => if Nat.eqb k' k then Some e else Map_get rest k
  end.

(** [m.set(k, e)]: an existing key keeps its place. *)
Fixpoint Map_set (m : ClientMap) (k : Socket) (e : Entry) : ClientMap :=
  match m with
  | [] => [(k, e)]
  | (k', e') :: rest =>
      if Nat.eqb k' k then (k, e) :: rest else (k', e') :: Map_set rest k e
  end.

Fixpoint Map_delete (m : ClientMap) (k : Socket) : ClientMap :=
  match m with
  | [] => []
  | (k', e') :: rest =>
      if Nat.eqb k' k then rest else (k', e') :: Map_delete rest k
  end.

Definition Map_has (m : ClientMap) (k : Socket) : bool :=
  match Map_get m k with Some _ => true | None => false end.

Definition keys (m : ClientMap) : list Socket := map fst m.

(** The closure state of [createHeartbeatManager({interval, timeout})]:
    the two options, [clientMap], [timer] (the period of the running
    [setInterval], [None] for [null]) and the sockets on which [register]
    attached a ['pong'] listener closing over this manager (one
    occurrence per listener). *)
Record Manager := {
  interval : Z;
  timeout : Z;
  clientMap : ClientMap;
  timer : option Z;
  pongListeners : list Socket
}.

Definition createHeartbeatManager (interval timeout : Z) : Manager :=
  {| interval := interval; timeout := timeout;
     clientMap := []; timer := None; pongListeners := [] |}.

Definition with_map (h : Manager) (m : ClientMap) : Manager :=
  {| interval := interval h; timeout := timeout h;
     clientMap := m; timer := timer h;
     pongListeners := pongListeners h |}.

(** [entry.isAlive = true] on the entry stored under [socket], when there
    is one: the body shared by the ['pong'] listener and [markAlive]. *)
Fixpoint set_alive (m : ClientMap) (socket : Socket) : ClientMap :=
  match m with
  | [] => []
  | (k, e) :: rest =>
      if Nat.eqb k socket
      then (k, {| isAlive := true;
                  lastPingSentAt := lastPingSentAt e;
                  ip := ip e |}) :: rest
      else (k, e) :: set_alive rest socket
  end.

(** [register(socket, ip)] at clock reading [now]: the entry is set and a
    ['pong'] listener is added to the socket. *)
Definition register (h : Manager) (now : Z) (socket : Socket)
           (ip : JSString) : Manager :=
  {| interval := interval h; timeout := timeout h;
     clientMap := Map_set (clientMap h) socket
                    {| isAlive := true; lastPingSentAt := now; ip := ip |};
     timer := timer h;
     pongListeners := pongListeners h ++ [socket] |}.

(** One run of the listener installed by [socket.on('pong', ...)]. *)
Definition pongListener (h : Manager) (socket : Socket) : Manager :=
  match Map_get (clientMap h) socket with
  | Some _ => with_map h (set_alive (clientMap h) socket)
  | None => h
  end.

(** The socket emits ['pong']: every listener attached to it runs. *)
Definition onPong (h : Manager) (socket : Socket) : Manager :=
  fold_left (fun acc s => if Nat.eqb s socket then pongListener acc socket
                          else acc)
            (pongListeners h) h.

(** [unregister(socket)]: [clientMap.delete(socket)]. *)
Definition unregister (h : Manager) (socket : Socket) : Manager :=
  with_map h (Map_delete (clientMap h) socket).

(** [markAlive(socket)]: [entry.isAlive = true] when there is an entry. *)
Definition markAlive (h : Manager) (socket : Socket) : Manager :=
  match Map_get (clientMap h) socket with
  | Some _ => with_map h (set_alive (clientMap h) socket)
  | None => h
  end.

(** The body of the [forEach] callback of the timer, for one entry:
    [None] when the entry is deleted, the rewritten entry otherwise. *)
Definition sweepEntry (T : Transport) (timeout now : Z)
           (socket : Socket) (entry : Entry)
  : option Entry * list Effect :=
  if negb (isAlive entry) && (now - lastPingSentAt entry >=? timeout)%Z
  then (None,
        [ LogWarn (ZombieCleaned (ip entry)
                     (round_div_1000 (now - lastPingSentAt entry)));
          Terminate socket (terminate_throws T socket) ])
  else (Some {| isAlive := false; lastPingSentAt := now; ip := ip entry |},
        if is_open (readyState T socket)
        then match ping_throws T socket with
             | Some err => [ Ping socket (Some err);
                             LogError (PingFailed (ip entry) err) ]
             | None => [ Ping socket None ]
             end
        else []).

(** [clientMap.forEach(...)] of the timer callback.  The callback deletes
    at most the entry it is visiting and adds none, so every entry present
    at the start is visited once, in insertion order. *)
Fixpoint sweep (T : Transport) (timeout now : Z) (m : ClientMap)
  : ClientMap * list Effect :=
  match m with
  | [] => ([], [])
  | (socket, entry) :: rest =>
      let '(r, fx) := sweepEntry T timeout now socket entry in
      let '(rest', fx') := sweep T timeout now rest in
      (match r with Some e => (socket, e) :: rest' | None => rest' end,
       fx ++ fx')
  end.

(** The [setInterval] callback, run at clock reading [now]. *)
Definition tick (T : Transport) (h : Manager) (now : Z)
  : Manager * list Effect :=
  let '(m, fx) := sweep T (timeout h) now (clientMap h) in
  (with_map h m, fx).

(** The event loop fires the timer: nothing runs when it was cleared. *)
Definition onTimer (T : Transport) (h : Manager) (now : Z)
  : Manager * list Effect :=
  match timer h with
  | Some _ => tick T h now
  | None => (h, [])
  end.

(** [start()]: nothing when a timer is running, [setInterval] otherwise. *)
Definition start (h : Manager) : Manager :=
  match timer h with
  | Some _ => h
  | None => {| interval := interval h; timeout := timeout h;
               clientMap := clientMap h; timer := Some (interval h);
               pongListeners := pongListeners h |}
  end.

(** [stop()]: [clearInterval], [timer = null], [clientMap.clear()]. *)
Definition stop (h : Manager) : Manager :=
  {| interval := interval h; timeout := timeout h;
     clientMap := []; timer := None;
     pongListeners := pongListeners h |}.

(** The timer fires [n] times, at [t0 + interval], [t0 + 2 * interval],
    ..., each callback reading the clock at the time it was due, and
    nothing else happens in between. *)
Fixpoint ticks (T : Transport) (h : Manager) (t0 : Z) (n : nat)
  : Manager * list Effect :=
  match n with
  | O => (h, [])
  | S k =>
      let '(h1, fx1) := onTimer T h (t0 + interval h)%Z in
      let '(h2, fx2) := ticks T h1 (t0 + interval h)%Z k in
      (h2, fx1 ++ fx2)
  end.

(** The timer fires at the clock readings [times], in this order, and
    nothing else happens in between. *)
Fixpoint sweeps (T : Transport) (h : Manager) (times : list Z)
  : Manager * list Effect :=
  match times with
  | [] => (h, [])
  | now :: rest =>
      let '(h1, fx1) := onTimer T h now in
      let '(h2, fx2) := sweeps T h1 rest in
      (h2, fx1 ++ fx2)
  end.

(** [markAlive(socket)] called [n] times in a row. *)
Definition markAlive_times (n : nat) (h : Manager) (socket : Socket)
  : Manager :=
  Nat.iter n (fun x => markAlive x socket) h.

(** The keys of a [Map] are distinct. *)
Definition wf (h : Manager) : Prop := NoDup (keys (clientMap h)).

End Heartbeat.

(* ===================================================================== *)
(** ** Built-ins of the platform                                          *)
(* ===================================================================== *)

(** [Buffer.prototype.toString('utf8')], [JSON.parse] and [JSON.stringify]
    belong to Node.js, not to the sources.  Every definition of the relay and
    of the session handler takes them from a [Platform]; [JSON_parse] answers
    [None] where [JSON.parse] throws.  [JSON.stringify] throws too, on a
    value nested deeper than the stack of the engine allows:
    [JSON_stringify_throws] says for which values, and [JSON_stringify] is
    the string returned for the others. *)
Record Platform := {
  Buffer : Type;
  toString_utf8 : Buffer -> JSString;
  JSON_parse : JSString -> option JSValue;
  JSON_stringify : JSValue -> JSString;
  JSON_stringify_throws : JSValue -> bool
}.

(* ===================================================================== *)
(** ** src/broadcast.js                                                   *)
(* ===================================================================== *)

Module Broadcast.

Section WithPlatform.

Variable P : Platform.

(** The [try { JSON.parse; JSON.stringify } catch { outgoing = rawStr }]
    block: the [catch] runs when either call throws. *)
Definition outgoing_of (rawData : Buffer P) : JSString :=
  let rawStr := toString_utf8 P rawData in
  match JSON_parse P rawStr with
  | Some parsed =>
      if JSON_stringify_throws P parsed then rawStr
      else JSON_stringify P parsed
  | None => rawStr
  end.

(** First [clients.forEach]: the clients whose [readyState] is [OPEN]. *)
Definition totalOnline_of (T : Transport) (clients : list Socket) : nat :=
  List.length (filter (fun client => is_open (readyState T client)) clients).

(** Second [clients.forEach]: the number of sends that returned, and the
    calls made, in iteration order. *)
Fixpoint fanout (T : Transport) (sender : Socket) (outgoing : JSString)
         (clients : list Socket) : nat * list Effect :=
  match clients with
  | [] => (O, [])
  | client :: rest =>
      let '(sentCount, fx) := fanout T sender outgoing rest in
      if Nat.eqb client sender then (sentCount, fx)
      else if negb (is_open (readyState T client)) then (sentCount, fx)
      else match send_throws T client outgoing with
           | None => (S sentCount, Send client outgoing None :: fx)
           | Some err =>
               (sentCount,
                Send client outgoing (Some err)
                  :: LogError (ForwardFailed err) :: fx)
           end
  end.

(** The seven code units of the marker appended to a cut preview. *)
Definition truncation_marker : JSString :=
  [0x2026; 0x2026; 0xFF08; 0x5DF2; 0x622A; 0x65AD; 0xFF09]%N.

(** [outgoing.length > 200 ? outgoing.slice(0, 200) + marker : outgoing] *)
Definition preview_of (outgoing : JSString) : JSString :=
  if Nat.ltb 200 (JS.length outgoing)
  then slice0 200 outgoing ++ truncation_marker
  else outgoing.

(** [broadcast({ sender, senderIp, rawData, clients, logger })] *)
Definition broadcast (T : Transport) (sender : Socket) (senderIp : JSString)
           (rawData : Buffer P) (clients : list Socket) : list Effect :=
  let outgoing := outgoing_of rawData in
  let totalOnline := totalOnline_of T clients in
  let '(sentCount, fx) := fanout T sender outgoing clients in
  fx ++ [LogInfo (BroadcastSummary senderIp sentCount totalOnline
                    (preview_of outgoing))].

End WithPlatform.

End Broadcast.

(* ===================================================================== *)
(** ** server.js                                                          *)
(* ===================================================================== *)

Module Server.

Import Heartbeat.

(** The two [WebSocket.Server] instances of the process, named by the
    protocol label they are created for. *)
Inductive Proto := WS | WSS.

Definition Proto_eqb (a b : Proto) : bool :=
  match a, b with WS, WS | WSS, WSS => true | _, _ => false end.

Definition proto_label (p : Proto) : JSString :=
  match p with WS => js "WS" | WSS => js "WSS" end.

(** The fields of the object returned by [loadConfig] that [server.js]
    reads after the logger is created. *)
Record Config := {
  ws_enabled : bool;
  ws_host : JSString;
  ws_port : Z;
  wss_enabled : bool;
  wss_host : JSString;
  wss_port : Z;
  tls_cert : JSString;
  tls_key : JSString;
  maxPayload : Z;
  heartbeat_interval : Z;
  heartbeat_timeout : Z
}.

Inductive Role := Primary | Loopback.

(** An HTTP(S) server made by [serverFactory()], with the address given to
    its [listen] call and the [WebSocket.Server] that [bindUpgrade] made it
    forward upgrades to. *)
Record Listener := {
  role : Role;
  host : JSString;
  port : Z;
  upgradeTo : Proto
}.

(** An element of [servers]: [{ label, httpServers, wsServer, hbMgr }].
    [clients] is [wsServer.clients], a [Set] kept by the [ws] library. *)
Record Group := {
  label : Proto;
  httpServers : list Listener;
  clients : list Socket;
  hbMgr : Manager
}.

Definition with_hbMgr (g : Group) (h : Manager) : Group :=
  {| label := label g; httpServers := httpServers g;
     clients := clients g; hbMgr := h |}.

(** [Set.prototype.add] and [Set.prototype.delete] on sockets. *)
Definition Set_add (s : list Socket) (x : Socket) : list Socket :=
  if existsb (Nat.eqb x) s then s else s ++ [x].

Definition Set_delete (s : list Socket) (x : Socket) : list Socket :=
  filter (fun y => negb (Nat.eqb y x)) s.

Section WithPlatform.

Variable P : Platform.

(** The reply [JSON.stringify({ type: 'pong' })]: the literal has one
    member, a string, and is serialized without nesting. *)
Definition pong : JSString :=
  JSON_stringify P (JObject [(js "type", JString (js "pong"))]).

(** [parsed && parsed.type === 'ping'], with [parsed] left [null] when
    [JSON.parse] throws. *)
Definition is_ping (parsed : option JSValue) : bool :=
  match parsed with
  | Some v => truthy v && strict_eq_str (get_type v) (js "ping")
  | None => false
  end.

(** The ['message'] listener of a socket accepted with address [ip]. *)
Definition messageHandler (T : Transport) (g : Group) (socket : Socket)
           (ip : JSString) (rawData : Buffer P) : Group * list Effect :=
  let parsed := JSON_parse P (toString_utf8 P rawData) in
  if is_ping parsed
  then (with_hbMgr g (markAlive (hbMgr g) socket),
        match send_throws T socket pong with
        | None => [Send socket pong None]
        | Some err => [Send socket pong (Some err);
                       LogError (PongReplyFailed ip err)]
        end)
  else (g, Broadcast.broadcast P T socket ip rawData (clients g)).

End WithPlatform.

(** The ['connection'] listener installed by [attachHandlers], run at clock
    reading [now] for a socket whose request resolves to address [ip]. *)
Definition connectionHandler (g : Group) (now : Z) (socket : Socket)
           (ip : JSString) : Group * list Effect :=
  (with_hbMgr g (register (hbMgr g) now socket ip),
   [LogInfo (ClientConnected (proto_label (label g)) ip
               (List.length (clients g)))]).

(** The ['close'] listener of a socket; the [ws] library has taken the
    socket out of [wsServer.clients] before it runs. *)
Definition closeHandler (g : Group) (socket : Socket) (ip : JSString)
  : Group * list Effect :=
  let g' := {| label := label g; httpServers := httpServers g;
               clients := Set_delete (clients g) socket;
               hbMgr := unregister (hbMgr g) socket |} in
  (g', [LogInfo (ClientDisconnected (proto_label (label g)) ip
                   (List.length (clients g')))]).

(** The ['error'] listener of a socket. *)
Definition errorHandler (g : Group) (socket : Socket) (ip err : JSString)
  : Group * list Effect :=
  (with_hbMgr g (unregister (hbMgr g) socket),
   [LogError (ClientError (proto_label (label g)) ip err)]).

(** [needLoopback] of [startListeners]. *)
Definition needLoopback (host : JSString) : bool :=
  negb (str_eqb host (js "0.0.0.0"))
  && negb (str_eqb host (js "127.0.0.1"))
  && negb (str_eqb host (js "::1")).

(** [startListeners({ serverFactory, host, port, proto, scheme, wsServer,
    hbMgr })]: the servers it creates, wires with [bindUpgrade] and calls
    [listen] on, as returned in [httpServers]. *)
Definition startListeners (host : JSString) (port : Z) (wsServer : Proto)
  : list Listener :=
  {| role := Primary; host := host; port := port; upgradeTo := wsServer |}
  :: (if needLoopback host
      then [ {| role := Loopback; host := js "127.0.0.1"; port := port;
                upgradeTo := wsServer |} ]
      else []).

(** The callback passed to [primaryServer.listen]. *)
Definition primaryListening (g : Group) (host : JSString) (port : Z)
  : Group * list Effect :=
  (with_hbMgr g (start (hbMgr g)),
   LogInfo (ServiceStarted (proto_label (label g)) host port)
   :: (if needLoopback host
       then [LogInfo (LoopbackAnnounced (proto_label (label g)) port)]
       else [])).

(** The state of the process: the configuration, the module-level
    [servers] array and the status given to [process.exit], if it ran.
    A process also ends when its event loop has nothing left to wait
    for; that is told from the events delivered, by [ended] below. *)
Record Process := {
  config : Config;
  servers : list Group;
  exitCode : option Z
}.

(** The ['error'] listener of a primary server. *)
Definition primaryError (p : Process) (proto : Proto) (host : JSString)
           (port : Z) (err : JSString) : Process * list Effect :=
  (p, [LogError (PrimaryListenerFailed (proto_label proto) host port err)]).

(** The ['error'] listener of a loopback server. *)
Definition loopbackError (p : Process) (proto : Proto) (port : Z)
           (err : JSString) : Process * list Effect :=
  (p, [LogWarn (LoopbackListenerFailed (proto_label proto) port err)]).

(** The ['upgrade'] listener that [bindUpgrade] installs on [l], for a
    request that [handleUpgrade] completes into [socket]: the library adds
    the socket to the [clients] of the server the listener forwards to,
    and the callback emits ['connection'] on that server. *)
Fixpoint upgrade (gs : list Group) (l : Listener) (now : Z)
         (socket : Socket) (ip : JSString) : list Group * list Effect :=
  match gs with
  | [] => ([], [])
  | g :: rest =>
      if Proto_eqb (label g) (upgradeTo l)
      then let g1 := {| label := label g; httpServers := httpServers g;
                        clients := Set_add (clients g) socket;
                        hbMgr := hbMgr g |} in
           let '(g2, fx) := connectionHandler g1 now socket ip in
           (g2 :: rest, fx)
      else let '(rest', fx) := upgrade rest l now socket ip in
           (g :: rest', fx)
  end.

(** The block [if (config.ws.enabled) { ... }]. *)
Definition startWS (c : Config) : list Group :=
  if ws_enabled c
  then [ {| label := WS;
            httpServers := startListeners (ws_host c) (ws_port c) WS;
            clients := [];
            hbMgr := createHeartbeatManager (heartbeat_interval c)
                                            (heartbeat_timeout c) |} ]
  else [].

(** The block [if (config.wss.enabled) { ... }]; [tlsError] is [Some msg]
    when reading the certificate or the key throws.  The result is the
    groups to push, the exit status when [process.exit(1)] runs, and the
    log. *)
Definition startWSS (c : Config) (tlsError : option JSString)
  : list Group * option Z * list Effect :=
  if wss_enabled c
  then match tlsError with
       | Some err =>
           ([], if negb (ws_enabled c) then Some 1%Z else None,
            [LogError (TlsReadFailed err)])
       | None =>
           ([ {| label := WSS;
                 httpServers :=
                   startListeners (wss_host c) (wss_port c) WSS;
                 clients := [];
                 hbMgr := createHeartbeatManager (heartbeat_interval c)
                                                 (heartbeat_timeout c) |} ],
            None, [])
       end
  else ([], None, []).

(** The module body from the WS block to the end of the WSS block. *)
Definition startup (c : Config) (tlsError : option JSString)
  : Process * list Effect :=
  let '(wss, code, fx) := startWSS c tlsError in
  ({| config := c; servers := startWS c ++ wss; exitCode := code |}, fx).

(** The variables captured by the callbacks of one run of
    [gracefulShutdown]: [pendingCount]; for every element of [servers], in
    order, its [httpPending] once the callback of [wsServer.close] has
    declared it ([None] before); and the delay of the [setTimeout] that
    forces the exit ([None] when the run ended before reaching it). *)
Record Shutdown := {
  pendingCount : Z;
  httpPending : list (option Z);
  deadline : option Z
}.

(** The body of [servers.forEach] in [gracefulShutdown], for one group:
    [hbMgr.stop()], then [terminate] on every client, errors swallowed. *)
Definition shutdownGroup (T : Transport) (g : Group)
  : Group * list Effect :=
  (with_hbMgr g (stop (hbMgr g)),
   map (fun client => Terminate client (terminate_throws T client))
       (clients g)).

Fixpoint shutdownGroups (T : Transport) (gs : list Group)
  : list Group * list Effect :=
  match gs with
  | [] => ([], [])
  | g :: rest =>
      let '(g', fx) := shutdownGroup T g in
      let '(rest', fx') := shutdownGroups T rest in
      (g' :: rest', fx ++ fx')
  end.

(** [gracefulShutdown(signal)] up to its return: the callbacks it hands to
    [wsServer.close] and to [setTimeout] run later, as [wsClosed],
    [httpClosed] and [deadlineFired]. *)
Definition gracefulShutdown (T : Transport) (p : Process)
           (signal : JSString) : Process * Shutdown * list Effect :=
  match servers p with
  | [] =>
      ({| config := config p; servers := []; exitCode := Some 0%Z |},
       {| pendingCount := 0; httpPending := []; deadline := None |},
       [LogInfo (SignalReceived signal); LogInfo ServerStopped])
  | _ :: _ =>
      let '(gs, fx) := shutdownGroups T (servers p) in
      ({| config := config p; servers := gs; exitCode := exitCode p |},
       {| pendingCount := Z.of_nat (List.length (servers p));
          httpPending := map (fun _ => None) (servers p);
          deadline := Some 5000%Z |},
       LogInfo (SignalReceived signal) :: fx)
  end.

Fixpoint set_nth {A} (l : list A) (i : nat) (x : A) : list A :=
  match l, i with
  | [], _ => []
  | _ :: rest, O => x :: rest
  | y :: rest, S k => y :: set_nth rest k x
  end.

(** The callback of [wsServer.close] for the [i]-th group: it declares
    [httpPending] and calls [close] on every HTTP server of the group. *)
Definition wsClosed (p : Process) (sd : Shutdown) (i : nat)
  : Process * Shutdown * list Effect :=
  match exitCode p, nth_error (servers p) i with
  | None, Some g =>
      (p,
       {| pendingCount := pendingCount sd;
          httpPending :=
            set_nth (httpPending sd) i
                    (Some (Z.of_nat (List.length (httpServers g))));
          deadline := deadline sd |},
       [])
  | _, _ => (p, sd, [])
  end.

(** The callback of [srv.close] for one HTTP server of the [i]-th group. *)
Definition httpClosed (p : Process) (sd : Shutdown) (i : nat)
  : Process * Shutdown * list Effect :=
  match exitCode p, nth_error (servers p) i, nth_error (httpPending sd) i with
  | None, Some g, Some (Some k) =>
      let k' := (k - 1)%Z in
      let pending := set_nth (httpPending sd) i (Some k') in
      if (k' =? 0)%Z
      then
        let n' := (pendingCount sd - 1)%Z in
        let sd' := {| pendingCount := n'; httpPending := pending;
                      deadline := deadline sd |} in
        if (n' =? 0)%Z
        then ({| config := config p; servers := servers p;
                 exitCode := Some 0%Z |},
              sd',
              [LogInfo (GroupClosed (proto_label (label g)));
               LogInfo ServerStopped])
        else (p, sd', [LogInfo (GroupClosed (proto_label (label g)))])
      else (p,
            {| pendingCount := pendingCount sd; httpPending := pending;
               deadline := deadline sd |},
            [])
  | _, _, _ => (p, sd, [])
  end.

(** The callback of the [setTimeout] of [gracefulShutdown]. *)
Definition deadlineFired (p : Process) (sd : Shutdown)
  : Process * list Effect :=
  match exitCode p, deadline sd with
  | None, Some _ =>
      ({| config := config p; servers := servers p;
          exitCode := Some 1%Z |},
       [LogWarn ShutdownTimedOut])
  | _, _ => (p, [])
  end.

(** The callbacks of one shutdown run that the event loop may deliver. *)
Inductive CloseEvent :=
| WsClosed (i : nat)
| HttpClosed (i : nat).

Definition deliver (st : Process * Shutdown) (e : CloseEvent)
  : Process * Shutdown :=
  match e with
  | WsClosed i => fst (wsClosed (fst st) (snd st) i)
  | HttpClosed i => fst (httpClosed (fst st) (snd st) i)
  end.

Definition deliverAll (st : Process * Shutdown) (es : list CloseEvent)
  : Process * Shutdown :=
  fold_left deliver es st.

End Server.

(* ===================================================================== *)
(** ** A reference platform                                               *)
(* ===================================================================== *)

(** Executable versions of the three built-ins, used to run the handlers on
    concrete payloads.  The decoder follows the WHATWG UTF-8 algorithm, the
    parser the JSON grammar of ECMA-404; a number is kept as the rational
    its literal denotes.  The printer writes integers and terminating
    decimals in positional notation, which is what the engine prints for
    literals of at most fifteen significant digits and magnitude between
    1e-6 and 1e21. *)
Module Reference.

Local Open Scope N_scope.

Record Utf8State := {
  codePoint : N;
  bytesNeeded : nat;
  lowerBoundary : N;
  upperBoundary : N
}.

Definition utf8_init : Utf8State :=
  {| codePoint := 0; bytesNeeded := 0;
     lowerBoundary := 0x80; upperBoundary := 0xBF |}.

Definition replacement : N := 0xFFFD.

(** A byte read when no sequence is open. *)
Definition utf8_lead (b : N) : list N * Utf8State :=
  if b <=? 0x7F then ([b], utf8_init)
  else if (0xC2 <=? b) && (b <=? 0xDF)
  then ([], {| codePoint := N.land b 0x1F; bytesNeeded := 1;
               lowerBoundary := 0x80; upperBoundary := 0xBF |})
  else if (0xE0 <=? b) && (b <=? 0xEF)
  then ([], {| codePoint := N.land b 0xF; bytesNeeded := 2;
               lowerBoundary := if b =? 0xE0 then 0xA0 else 0x80;
               upperBoundary := if b =? 0xED then 0x9F else 0xBF |})
  else if (0xF0 <=? b) && (b <=? 0xF4)
  then ([], {| codePoint := N.land b 0x7; bytesNeeded := 3;
               lowerBoundary := if b =? 0xF0 then 0x90 else 0x80;
               upperBoundary := if b =? 0xF4 then 0x8F else 0xBF |})
  else ([replacement], utf8_init).

Fixpoint utf8_points (st : Utf8State) (bs : list N) : list N :=
  match bs with
  | [] => match bytesNeeded st with O => [] | S _ => [replacement] end
  | b :: rest =>
      match bytesNeeded st with
      | O => let '(out, st') := utf8_lead b in out ++ utf8_points st' rest
      | S k =>
          if (lowerBoundary st <=? b) && (b <=? upperBoundary st)
          then
            let cp := N.lor (N.shiftl (codePoint st) 6) (N.land b 0x3F) in
            match k with
            | O => cp :: utf8_points utf8_init rest
            | S _ => utf8_points {| codePoint := cp; bytesNeeded := k;
                                    lowerBoundary := 0x80;
                                    upperBoundary := 0xBF |} rest
            end
          else
            let '(out, st') := utf8_lead b in
            replacement :: out ++ utf8_points st' rest
      end
  end.

Definition utf16_units (cp : N) : list CodeUnit :=
  if cp <? 0x10000 then [cp]
  else let c := cp - 0x10000 in
       [0xD800 + N.shiftr c 10; 0xDC00 + N.land c 0x3FF].

(** [buf.toString('utf8')] for a buffer given as its list of bytes. *)
Definition toString_utf8 (buf : list N) : JSString :=
  flat_map utf16_units (utf8_points utf8_init buf).

(** *** The bytes of a text frame

    [socket.send(text)] puts the UTF-8 encoding of the string in the
    frame: a surrogate pair is one code point, a surrogate that stands
    alone is replaced by U+FFFD. *)
Definition utf8_bytes (cp : N) : list N :=
  if cp <? 0x80 then [cp]
  else if cp <? 0x800
  then [0xC0 + N.shiftr cp 6; 0x80 + N.land cp 0x3F]
  else if cp <? 0x10000
  then [0xE0 + N.shiftr cp 12; 0x80 + N.land (N.shiftr cp 6) 0x3F;
        0x80 + N.land cp 0x3F]
  else [0xF0 + N.shiftr cp 18; 0x80 + N.land (N.shiftr cp 12) 0x3F;
        0x80 + N.land (N.shiftr cp 6) 0x3F; 0x80 + N.land cp 0x3F].

Definition is_high (u : CodeUnit) : bool := (0xD800 <=? u) && (u <=? 0xDBFF).

Definition is_low (u : CodeUnit) : bool := (0xDC00 <=? u) && (u <=? 0xDFFF).

Fixpoint utf8_encode (s : JSString) : list N :=
  match s with
  | [] => []
  | u :: rest =>
      if is_high u then
        match rest with
        | v :: rest' =>
            if is_low v
            then utf8_bytes (0x10000 + (u - 0xD800) * 0x400 + (v - 0xDC00))
                 ++ utf8_encode rest'
            else utf8_bytes replacement ++ utf8_encode rest
        | [] => utf8_bytes replacement
        end
      else if is_low u then utf8_bytes replacement ++ utf8_encode rest
      else utf8_bytes u ++ utf8_encode rest
  end.

(** Well-formed UTF-8, by the table of byte sequences of the Unicode
    standard (Table 3-7): what a text frame holds, the library checking it
    on receipt; a binary frame can hold any bytes. *)
Definition between (lo hi b : N) : bool := (lo <=? b) && (b <=? hi).

Fixpoint well_formed (bs : list N) : bool :=
  match bs with
  | [] => true
  | b0 :: r0 =>
      if b0 <=? 0x7F then well_formed r0
      else if between 0xC2 0xDF b0 then
        match r0 with
        | b1 :: r1 => between 0x80 0xBF b1 && well_formed r1
        | _ => false
        end
      else if between 0xE0 0xEF b0 then
        match r0 with
        | b1 :: b2 :: r2 =>
            between (if b0 =? 0xE0 then 0xA0 else 0x80)
                    (if b0 =? 0xED then 0x9F else 0xBF) b1
            && between 0x80 0xBF b2 && well_formed r2
        | _ => false
        end
      else if between 0xF0 0xF4 b0 then
        match r0 with
        | b1 :: b2 :: b3 :: r3 =>
            between (if b0 =? 0xF0 then 0x90 else 0x80)
                    (if b0 =? 0xF4 then 0x8F else 0xBF) b1
            && between 0x80 0xBF b2 && between 0x80 0xBF b3
            && well_formed r3
        | _ => false
        end
      else false
  end.

(** The code point read from a sequence of two, three and four bytes. *)
Definition cp2 (b0 b1 : N) : N :=
  N.lor (N.shiftl (N.land b0 0x1F) 6) (N.land b1 0x3F).

Definition cp3 (b0 b1 b2 : N) : N :=
  N.lor (N.shiftl (N.lor (N.shiftl (N.land b0 0xF) 6) (N.land b1 0x3F)) 6)
        (N.land b2 0x3F).

Definition cp4 (b0 b1 b2 b3 : N) : N :=
  N.lor (N.shiftl
           (N.lor (N.shiftl
                     (N.lor (N.shiftl (N.land b0 0x7) 6) (N.land b1 0x3F)) 6)
                  (N.land b2 0x3F)) 6)
        (N.land b3 0x3F).

(** A code point of the Basic Multilingual Plane that is no surrogate is
    one code unit, which encodes to the bytes [bs]. *)
Definition plain (cp : N) (bs : list N) : bool :=
  (cp <? 0x10000) && negb (is_high cp) && negb (is_low cp)
  && str_eqb (utf8_bytes cp) bs.

(** A code point beyond it is a surrogate pair, which encodes to [bs]. *)
Definition paired (cp : N) (bs : list N) : bool :=
  match utf16_units cp with
  | [hi; lo] =>
      negb (cp <? 0x10000) && is_high hi && is_low lo
      && str_eqb (utf8_bytes (0x10000 + (hi - 0xD800) * 0x400 + (lo - 0xDC00)))
                 bs
  | _ => false
  end.

(** The [len] byte values from [lo] on. *)
Definition byte_range (lo len : nat) : list N := map N.of_nat (seq lo len).

(** *** JSON.parse *)

Definition is_ws (c : CodeUnit) : bool :=
  (c =? 32) || (c =? 9) || (c =? 10) || (c =? 13).

Fixpoint skip_ws (s : JSString) : JSString :=
  match s with
  | c :: rest => if is_ws c then skip_ws rest else s
  | [] => []
  end.

Definition is_digit (c : CodeUnit) : bool := (48 <=? c) && (c <=? 57).

Definition hex_value (c : CodeUnit) : option N :=
  if is_digit c then Some (c - 48)
  else if (97 <=? c) && (c <=? 102) then Some (c - 87)
  else if (65 <=? c) && (c <=? 70) then Some (c - 55)
  else None.

Definition hex4 (a b c d : CodeUnit) : option CodeUnit :=
  match hex_value a, hex_value b, hex_value c, hex_value d with
  | Some x, Some y, Some z, Some w => Some (((x * 16 + y) * 16 + z) * 16 + w)
  | _, _, _, _ => None
  end.

Definition escape_value (c : CodeUnit) : option CodeUnit :=
  if c =? 34 then Some 34        (* quote *)
  else if c =? 92 then Some 92   (* backslash *)
  else if c =? 47 then Some 47   (* slash *)
  else if c =? 98 then Some 8    (* b *)
  else if c =? 102 then Some 12  (* f *)
  else if c =? 110 then Some 10  (* n *)
  else if c =? 114 then Some 13  (* r *)
  else if c =? 116 then Some 9   (* t *)
  else None.

(** The characters of a string literal after its opening quote, up to and
    including the closing quote. *)
Fixpoint parse_chars (s : JSString) (acc : JSString)
  : option (JSString * JSString) :=
  match s with
  | [] => None
  | c :: rest =>
      if c =? 34 then Some (rev acc, rest)
      else if c =? 92 then
        match rest with
        | e :: rest1 =>
            if e =? 117 then
              match rest1 with
              | h1 :: h2 :: h3 :: h4 :: rest2 =>
                  match hex4 h1 h2 h3 h4 with
                  | Some u => parse_chars rest2 (u :: acc)
                  | None => None
                  end
              | _ => None
              end
            else match escape_value e with
                 | Some x => parse_chars rest1 (x :: acc)
                 | None => None
                 end
        | [] => None
        end
      else if c <? 32 then None
      else parse_chars rest (c :: acc)
  end.

(** A maximal run of digits: its value, its length and what follows. *)
Fixpoint parse_digits (s : JSString) (acc : N) (len : nat)
  : N * nat * JSString :=
  match s with
  | c :: rest =>
      if is_digit c then parse_digits rest (acc * 10 + (c - 48)) (S len)
      else (acc, len, s)
  | [] => (acc, len, [])
  end.

Definition pow10 (e : Z) : Q :=
  match e with
  | Z0 => 1%Q
  | Zpos p => inject_Z (10 ^ Zpos p)
  | Zneg p => (1 # (10 ^ p))%Q
  end.

(** The fraction and exponent parts after the integer part [int]. *)
Definition parse_frac_exp (neg : bool) (int : N) (s : JSString)
  : option (Q * JSString) :=
  let frac :=
    match s with
    | c :: rest =>
        if c =? 46 then
          match parse_digits rest int O with
          | (_, O, _) => None
          | (m, len, rest1) => Some (m, len, rest1)
          end
        else Some (int, O, s)
    | [] => Some (int, O, [])
    end in
  match frac with
  | None => None
  | Some (m, flen, s1) =>
      let exp :=
        match s1 with
        | c :: rest =>
            if (c =? 101) || (c =? 69) then
              let '(eneg, rest1) :=
                match rest with
                | sg :: rest' =>
                    if sg =? 45 then (true, rest')
                    else if sg =? 43 then (false, rest')
                    else (false, rest)
                | [] => (false, [])
                end in
              match parse_digits rest1 0 O with
              | (_, O, _) => None
              | (e, _, rest2) =>
                  Some (if eneg then (- Z.of_N e)%Z else Z.of_N e, rest2)
              end
            else Some (0%Z, s1)
        | [] => Some (0%Z, [])
        end in
      match exp with
      | None => None
      | Some (e, s2) =>
          let mant := inject_Z (if neg then (- Z.of_N m)%Z else Z.of_N m) in
          Some ((mant * pow10 (e - Z.of_nat flen))%Q, s2)
      end
  end.

(** A number literal whose optional minus sign has been read. *)
Definition parse_number (neg : bool) (s : JSString)
  : option (Q * JSString) :=
  match s with
  | c :: rest =>
      if c =? 48 then parse_frac_exp neg 0 rest
      else if is_digit c then
        let '(int, _, rest1) := parse_digits s 0 O in
        parse_frac_exp neg int rest1
      else None
  | [] => None
  end.

Fixpoint starts_with (lit s : JSString) : option JSString :=
  match lit, s with
  | [], _ => Some s
  | a :: lit', b :: s' => if a =? b then starts_with lit' s' else None
  | _ :: _, [] => None
  end.

(** [CreateDataProperty]: a repeated key keeps its place and takes the
    later value. *)
Fixpoint obj_set (props : list (JSString * JSValue)) (k : JSString)
         (v : JSValue) : list (JSString * JSValue) :=
  match props with
  | [] => [(k, v)]
  | (k', v') :: rest =>
      if str_eqb k' k then (k', v) :: rest else (k', v') :: obj_set rest k v
  end.

Fixpoint parse_value (fuel : nat) (s : JSString)
  : option (JSValue * JSString) :=
  match fuel with
  | O => None
  | S f =>
      match skip_ws s with
      | [] => None
      | c :: rest =>
          if c =? 123 then                       (* { *)
            match skip_ws rest with
            | d :: rest1 =>
                if d =? 125 then Some (JObject [], rest1)
                else parse_members f (d :: rest1) []
            | [] => None
            end
          else if c =? 91 then                   (* [ *)
            match skip_ws rest with
            | d :: rest1 =>
                if d =? 93 then Some (JArray [], rest1)
                else parse_elements f (d :: rest1) []
            | [] => None
            end
          else if c =? 34 then
            match parse_chars rest [] with
            | Some (str, rest1) => Some (JString str, rest1)
            | None => None
            end
          else if c =? 45 then
            match parse_number true rest with
            | Some (q, rest1) => Some (JNumber q, rest1)
            | None => None
            end
          else if is_digit c then
            match parse_number false (c :: rest) with
            | Some (q, rest1) => Some (JNumber q, rest1)
            | None => None
            end
          else
            match starts_with (js "true") (c :: rest) with
            | Some rest1 => Some (JBool true, rest1)
            | None =>
                match starts_with (js "false") (c :: rest) with
                | Some rest1 => Some (JBool false, rest1)
                | None =>
                    match starts_with (js "null") (c :: rest) with
                    | Some rest1 => Some (JNull, rest1)
                    | None => None
                    end
                end
            end
      end
  end
with parse_elements (fuel : nat) (s : JSString) (acc : list JSValue)
  : option (JSValue * JSString) :=
  match fuel with
  | O => None
  | S f =>
      match parse_value f s with
      | Some (v, rest) =>
          match skip_ws rest with
          | c :: rest1 =>
              if c =? 44 then parse_elements f rest1 (v :: acc)
              else if c =? 93 then Some (JArray (rev (v :: acc)), rest1)
              else None
          | [] => None
          end
      | None => None
      end
  end
with parse_members (fuel : nat) (s : JSString)
                   (acc : list (JSString * JSValue))
  : option (JSValue * JSString) :=
  match fuel with
  | O => None
  | S f =>
      match skip_ws s with
      | q :: rest =>
          if q =? 34 then
            match parse_chars rest [] with
            | Some (k, rest1) =>
                match skip_ws rest1 with
                | c :: rest2 =>
                    if c =? 58 then
                      match parse_value f rest2 with
                      | Some (v, rest3) =>
                          match skip_ws rest3 with
                          | d :: rest4 =>
                              if d =? 44
                              then parse_members f rest4 (obj_set acc k v)
                              else if d =? 125
                              then Some (JObject (obj_set acc k v), rest4)
                              else None
                          | [] => None
                          end
                      | None => None
                      end
                    else None
                | [] => None
                end
            | None => None
            end
          else None
      | [] => None
      end
  end.

(** [JSON.parse(text)]; [None] stands for the [SyntaxError].  Every
    recursive call consumes a character, so the length of the text bounds
    the depth of the recursion. *)
Definition JSON_parse (text : JSString) : option JSValue :=
  match parse_value (S (List.length text)) text with
  | Some (v, rest) =>
      match skip_ws rest with
      | [] => Some v
      | _ :: _ => None
      end
  | None => None
  end.

(** *** JSON.stringify *)

Definition hex_digit (n : N) : CodeUnit :=
  if n <? 10 then 48 + n else 87 + n.

Definition u_escape (c : CodeUnit) : JSString :=
  [92; 117; hex_digit (c / 4096); hex_digit ((c / 256) mod 16);
   hex_digit ((c / 16) mod 16); hex_digit (c mod 16)].

Definition is_high_surrogate (c : CodeUnit) : bool :=
  (0xD800 <=? c) && (c <=? 0xDBFF).

Definition is_low_surrogate (c : CodeUnit) : bool :=
  (0xDC00 <=? c) && (c <=? 0xDFFF).

(** [QuoteJSONString] without the surrounding quotes. *)
Fixpoint quote_chars (s : JSString) : JSString :=
  match s with
  | [] => []
  | c :: rest =>
      if c =? 8 then 92 :: 98 :: quote_chars rest
      else if c =? 9 then 92 :: 116 :: quote_chars rest
      else if c =? 10 then 92 :: 110 :: quote_chars rest
      else if c =? 12 then 92 :: 102 :: quote_chars rest
      else if c =? 13 then 92 :: 114 :: quote_chars rest
      else if c =? 34 then 92 :: 34 :: quote_chars rest
      else if c =? 92 then 92 :: 92 :: quote_chars rest
      else if c <? 32 then u_escape c ++ quote_chars rest
      else if is_high_surrogate c then
        match rest with
        | d :: rest1 =>
            if is_low_surrogate d then c :: d :: quote_chars rest1
            else u_escape c ++ quote_chars rest
        | [] => u_escape c
        end
      else if is_low_surrogate c then u_escape c ++ quote_chars rest
      else c :: quote_chars rest
  end.

Definition quote (s : JSString) : JSString := 34 :: quote_chars s ++ [34].

Definition print_Z (z : Z) : JSString :=
  js (DecimalString.NilZero.string_of_int (Z.to_int z)).

(** The least [k], from [k] on, such that [d] divides [10 ^ k]. *)
Fixpoint find_scale (fuel : nat) (k : nat) (d : positive) : option nat :=
  if (Z.pow 10 (Z.of_nat k) mod Zpos d =? 0)%Z then Some k
  else match fuel with
       | O => None
       | S f => find_scale f (S k) d
       end.

(** A number in positional notation.  A rational without a terminating
    expansion does not come from a literal and is printed as [null]. *)
Definition print_number (q : Q) : JSString :=
  let r := Qred q in
  let n := Qnum r in
  let d := Qden r in
  match d with
  | xH => print_Z n
  | _ =>
      match find_scale (Pos.size_nat d) O d with
      | None => js "null"
      | Some k =>
          let scale := Z.pow 10 (Z.of_nat k) in
          let m := (Z.abs n * (scale / Zpos d))%Z in
          let frac := print_Z (m mod scale) in
          (if (n <? 0)%Z then js "-" else [])
            ++ print_Z (m / scale) ++ js "."
            ++ repeat 48 (k - List.length frac) ++ frac
      end
  end.

(** The value of a key that is an array index (a canonical numeric string
    below [2 ^ 32 - 1]). *)
Definition array_index (k : JSString) : option N :=
  match k with
  | [] => None
  | c :: rest =>
      if forallb is_digit k && ((negb (c =? 48)) || match rest with
                                                   | [] => true
                                                   | _ :: _ => false
                                                   end)
      then let '(v, _, _) := parse_digits k 0 O in
           if v <? 4294967295 then Some v else None
      else None
  end.

Fixpoint insert_index {A} (i : N) (x : A) (l : list (N * A))
  : list (N * A) :=
  match l with
  | [] => [(i, x)]
  | (j, y) :: rest =>
      if i <? j then (i, x) :: l else (j, y) :: insert_index i x rest
  end.

(** [OrdinaryOwnPropertyKeys]: array indices in ascending order, then the
    other keys in creation order. *)
Definition enumerate_text (props : list (JSString * JSString))
  : list (JSString * JSString) :=
  let indexed :=
    fold_left (fun acc kv =>
                 match array_index (fst kv) with
                 | Some i => insert_index i kv acc
                 | None => acc
                 end) props [] in
  map snd indexed
  ++ filter (fun kv => match array_index (fst kv) with
                       | Some _ => false
                       | None => true
                       end) props.

Fixpoint join (sep : JSString) (parts : list JSString) : JSString :=
  match parts with
  | [] => []
  | [x] => x
  | x :: rest => x ++ sep ++ join sep rest
  end.

(** [JSON.stringify(value)] for a value returned by [JSON.parse]. *)
Fixpoint JSON_stringify (v : JSValue) : JSString :=
  match v with
  | JNull => js "null"
  | JBool true => js "true"
  | JBool false => js "false"
  | JNumber q => print_number q
  | JString s => quote s
  | JArray xs => js "[" ++ join (js ",") (map JSON_stringify xs) ++ js "]"
  | JObject props =>
      js "{"
      ++ join (js ",")
              (map (fun kv => quote (fst kv) ++ js ":" ++ snd kv)
                   (enumerate_text
                      (map (fun kv => (fst kv, JSON_stringify (snd kv)))
                           props)))
      ++ js "}"
  end.

(** The serializer recurses on the nesting of the value, and the engine
    throws a [RangeError] when its stack gives out.  The reference engine
    has room for [stack_depth] nested arrays and objects. *)
Fixpoint depth (v : JSValue) : nat :=
  match v with
  | JArray xs => S (list_max (map depth xs))
  | JObject props => S (list_max (map (fun kv => depth (snd kv)) props))
  | _ => O
  end.

Definition stack_depth : nat := 4000.

Definition JSON_stringify_throws (v : JSValue) : bool :=
  Nat.ltb stack_depth (depth v).

Definition platform : Platform :=
  @Build_Platform (list N) toString_utf8 JSON_parse JSON_stringify
                  JSON_stringify_throws.

(** An ASCII text.  An apostrophe in the literal stands for a double quote
    of the text. *)
Definition text (s : string) : JSString :=
  map (fun c => if c =? 39 then 34 else c) (js s).

(** The buffer holding the bytes of an ASCII text. *)
Definition payload (s : string) : list N := text s.

End Reference.

(* ===================================================================== *)
(** ** Notions and concrete states used in the statements                 *)
(* ===================================================================== *)

Import Heartbeat.

(** An entry after an acknowledgment, and after a probe sent at [now]. *)
Definition revived (e : Entry) : Entry :=
  {| isAlive := true; lastPingSentAt := lastPingSentAt e; ip := ip e |}.

Definition probed (now : Z) (e : Entry) : Entry :=
  {| isAlive := false; lastPingSentAt := now; ip := ip e |}.

(** Clock readings that follow [prev] and each other by less than
    [timeout]. *)
Fixpoint spaced (timeout prev : Z) (times : list Z) : Prop :=
  match times with
  | [] => True
  | now :: rest => (now - prev < timeout)%Z /\ spaced timeout now rest
  end.

Module Scenario.

(** Every socket is open and no call into the library throws. *)
Definition calm : Transport :=
  {| readyState := fun _ => OPEN;
     send_throws := fun _ _ => None;
     ping_throws := fun _ => None;
     terminate_throws := fun _ => None |}.

(** The heartbeat settings printed in README.md: probes every 5 s, a
    15 s timeout.  One client is registered at time 0, when the timer is
    started, and never answers. *)
Definition silent : Socket := 1%nat.

Definition readme_manager : Manager :=
  start (register (createHeartbeatManager 5000 15000) 0 silent
                  (js "192.168.1.5")).

(** [interval = timeout = 10 s]; the client registered at time 0 answers a
    last time just before the first sweep and then stays silent. *)
Definition eager_manager : Manager :=
  onPong (start (register (createHeartbeatManager 10000 10000) 0 silent
                          (js "192.168.1.5")))
         silent.

(** Two registered clients, timer running. *)
Definition two_clients : Manager :=
  start (register (register (createHeartbeatManager 5000 15000) 0 1%nat
                            (js "10.0.0.1"))
                  40 2%nat (js "10.0.0.2")).

(** A configuration with the plain service only, on a LAN address. *)
Definition ws_only : Server.Config :=
  {| Server.ws_enabled := true;
     Server.ws_host := js "192.168.1.10";
     Server.ws_port := 8070;
     Server.wss_enabled := false;
     Server.wss_host := js "0.0.0.0";
     Server.wss_port := 8071;
     Server.tls_cert := js "cacerts/cacert.pem";
     Server.tls_key := js "cacerts/privkey.pem";
     Server.maxPayload := 10485760;
     Server.heartbeat_interval := 5000;
     Server.heartbeat_timeout := 15000 |}.

(** Both services enabled, on the wildcard address. *)
Definition both : Server.Config :=
  {| Server.ws_enabled := true;
     Server.ws_host := js "0.0.0.0";
     Server.ws_port := 8070;
     Server.wss_enabled := true;
     Server.wss_host := js "0.0.0.0";
     Server.wss_port := 8071;
     Server.tls_cert := js "cacerts/cacert.pem";
     Server.tls_key := js "cacerts/privkey.pem";
     Server.maxPayload := 10485760;
     Server.heartbeat_interval := 5000;
     Server.heartbeat_timeout := 15000 |}.

(** The secure service only. *)
Definition wss_only : Server.Config :=
  {| Server.ws_enabled := false;
     Server.ws_host := js "0.0.0.0";
     Server.ws_port := 8070;
     Server.wss_enabled := true;
     Server.wss_host := js "0.0.0.0";
     Server.wss_port := 8071;
     Server.tls_cert := js "cacerts/cacert.pem";
     Server.tls_key := js "cacerts/privkey.pem";
     Server.maxPayload := 10485760;
     Server.heartbeat_interval := 5000;
     Server.heartbeat_timeout := 15000 |}.

Definition via_primary (c : Server.Config) : Server.Listener :=
  {| Server.role := Server.Primary; Server.host := Server.ws_host c;
     Server.port := Server.ws_port c; Server.upgradeTo := Server.WS |}.

(** The process started from [c] with readable TLS files, after three
    clients connected to the plain service through its primary listener. *)
Definition busy (c : Server.Config) : Server.Process :=
  let p := fst (Server.startup c None) in
  let gs1 := fst (Server.upgrade (Server.servers p) (via_primary c) 10 1%nat
                                 (js "10.0.0.1")) in
  let gs2 := fst (Server.upgrade gs1 (via_primary c) 20 2%nat
                                 (js "10.0.0.2")) in
  let gs3 := fst (Server.upgrade gs2 (via_primary c) 30 3%nat
                                 (js "10.0.0.3")) in
  {| Server.config := c; Server.servers := gs3;
     Server.exitCode := Server.exitCode p |}.

(** The plain group of [busy ws_only]: clients 1, 2 and 3. *)
Definition room : Server.Group :=
  hd {| Server.label := Server.WS; Server.httpServers := [];
        Server.clients := []; Server.hbMgr := createHeartbeatManager 0 0 |}
     (Server.servers (busy ws_only)).

End Scenario.

(** The reserved liveness probe, as a decoded value. *)
Definition probe : JSValue := JObject [(js "type", JString (js "ping"))].

(** The clients the relay sends to: not the sender, and open. *)
Definition eligible (T : Transport) (sender : Socket)
           (clients : list Socket) : list Socket :=
  filter (fun client => negb (Nat.eqb client sender)
                        && is_open (readyState T client)) clients.

(** The payloads of the text frames that reached the sockets: the UTF-8
    encoding of the strings delivered. *)
Definition frames (fx : list Effect) : list (Socket * list N) :=
  map (fun d => (fst d, Reference.utf8_encode (snd d))) (Trace.delivered fx).

(** The claim on payloads that are not JSON, in the words of the
    specification: every recipient whose [send] returns gets the bytes
    received. *)
Definition forwards_the_original_bytes : Prop :=
  forall (T : Transport) (sender : Socket) (senderIp : JSString)
         (rawData : list N) (clients : list Socket),
    JSON_parse Reference.platform (Reference.toString_utf8 rawData) = None ->
    frames (Broadcast.broadcast Reference.platform T sender senderIp
                                rawData clients)
    = map (fun c => (c, rawData))
          (filter (fun c =>
                     match send_throws T c (Reference.toString_utf8 rawData)
                     with None => true | Some _ => false end)
                  (eligible T sender clients)).

(** The classes of addresses named by the specification of the listeners,
    as the Internet standards define them.  A dotted quad is four decimal
    numbers of one to three digits, each at most 255. *)
Fixpoint split_dots (s cur : JSString) : list JSString :=
  match s with
  | [] => [rev cur]
  | c :: rest =>
      if N.eqb c 46 then rev cur :: split_dots rest []
      else split_dots rest (c :: cur)
  end.

Definition octet (s : JSString) : option N :=
  match s with
  | [] => None
  | _ =>
      if Nat.leb (List.length s) 3
         && forallb (fun c => N.leb 48 c && N.leb c 57) s
      then let n := fold_left (fun acc c => (acc * 10 + (c - 48))%N) s 0%N in
           if N.leb n 255 then Some n else None
      else None
  end.

Definition dotted_quad (host : JSString) : option (N * N * N * N) :=
  match map octet (split_dots host []) with
  | [Some a; Some b; Some c; Some d] => Some (a, b, c, d)
  | _ => None
  end.

(** The wildcard addresses: the unspecified address of IPv4, [0.0.0.0],
    and that of IPv6, [::], also spelled in full. *)
Definition wildcard_address (host : JSString) : bool :=
  match dotted_quad host with
  | Some (a, b, c, d) => N.eqb a 0 && N.eqb b 0 && N.eqb c 0 && N.eqb d 0
  | None => str_eqb host (js "::") || str_eqb host (js "0:0:0:0:0:0:0:0")
  end.

(** The loopback addresses: the block [127.0.0.0/8] of IPv4, the address
    [::1] of IPv6, also spelled in full, and the name [localhost]. *)
Definition loopback_address (host : JSString) : bool :=
  match dotted_quad host with
  | Some (a, _, _, _) => N.eqb a 127
  | None => str_eqb host (js "::1") || str_eqb host (js "0:0:0:0:0:0:0:1")
            || str_eqb host (js "localhost")
  end.

(** The three strings [startListeners] compares the host with. *)
Definition literal_local (host : JSString) : Prop :=
  host = js "0.0.0.0" \/ host = js "127.0.0.1" \/ host = js "::1".

(** The claim on the second listener, in the words of the specification:
    it is bound exactly when the configured address is neither a wildcard
    nor a loopback address. *)
Definition second_listener_by_address_class : Prop :=
  forall (host : JSString) (port : Z) (wsServer : Server.Proto),
    (exists l, In l (Server.startListeners host port wsServer)
               /\ Server.role l = Server.Loopback)
    <-> wildcard_address host = false /\ loopback_address host = false.

(** The [(host, port)] pairs given to [listen]. *)
Definition bound (ls : list Server.Listener) : list (JSString * Z) :=
  map (fun l => (Server.host l, Server.port l)) ls.

(** Every registered socket is a client of the group's server. *)
Definition tracked (g : Server.Group) : Prop :=
  forall s, Map_has (clientMap (Server.hbMgr g)) s = true ->
            In s (Server.clients g).

(** A close callback can be delivered when it has been registered and has
    not run yet: the one of [wsServer.close] once, those of the HTTP
    servers after it, one per server. *)
Definition enabled (st : Server.Process * Server.Shutdown)
           (e : Server.CloseEvent) : bool :=
  match e with
  | Server.WsClosed i =>
      match nth_error (Server.httpPending (snd st)) i with
      | Some None => true
      | _ => false
      end
  | Server.HttpClosed i =>
      match nth_error (Server.httpPending (snd st)) i with
      | Some (Some k) => (0 <? k)%Z
      | _ => false
      end
  end.

Fixpoint deliverable (st : Server.Process * Server.Shutdown)
         (es : list Server.CloseEvent) : bool :=
  match es with
  | [] => true
  | e :: rest => enabled st e && deliverable (Server.deliver st e) rest
  end.

(** Every close callback of the run has been delivered. *)
Definition all_closed (sd : Server.Shutdown) : bool :=
  forallb (fun x => match x with
                    | Some k => (k =? 0)%Z
                    | None => false
                    end) (Server.httpPending sd).

(** A group whose close callbacks have not all run, and their number. *)
Definition open_entry (x : option Z) : bool :=
  match x with
  | Some k => negb (k =? 0)%Z
  | None => true
  end.

Definition count_open (l : list (option Z)) : nat :=
  List.length (filter open_entry l).

(** The state of a shutdown run agrees with the groups [gs] being closed:
    [pendingCount] counts the groups still open and the process has exited,
    with status 0, exactly when none is. *)
Definition consistent (gs : list Server.Group) (d : option Z)
           (st : Server.Process * Server.Shutdown) : Prop :=
  Server.servers (fst st) = gs
  /\ List.length (Server.httpPending (snd st)) = List.length gs
  /\ Server.pendingCount (snd st)
     = Z.of_nat (count_open (Server.httpPending (snd st)))
  /\ Server.exitCode (fst st)
     = (if all_closed (snd st) then Some 0%Z else None)
  /\ Server.deadline (snd st) = d.

(** A group as the handlers keep it: distinct keys in the registry, all of
    them clients of the server. *)
Definition sound (g : Server.Group) : Prop :=
  wf (Server.hbMgr g) /\ tracked g.

(** A sound group that has its listeners. *)
Definition healthy (g : Server.Group) : Prop :=
  sound g /\ Server.httpServers g <> [].

(** An effect that is neither a probe nor a forced close. *)
Definition quiet (x : Effect) : Prop :=
  match x with
  | Ping _ _ | Terminate _ _ => False
  | _ => True
  end.

(** A group whose heartbeat timer is not running. *)
Definition idle (g : Server.Group) : Prop :=
  timer (Server.hbMgr g) = None.

(** What one close callback leaves to wait for in a group: the value of
    [httpPending], between nothing and all the HTTP servers. *)
Definition counted (g : Server.Group) (x : option Z) : Prop :=
  match x with
  | None => True
  | Some k => (0 <= k <= Z.of_nat (List.length (Server.httpServers g)))%Z
  end.

(** The callbacks one group still waits for. *)
Definition contribution (g : Server.Group) (x : option Z) : Z :=
  match x with
  | None => 1 + Z.of_nat (List.length (Server.httpServers g))
  | Some k => k
  end.

(** What "a configurable grace period" asks of the code: the delay of the
    forced exit is read from the configuration, and some configuration
    changes it. *)
Definition grace_period_is_configurable : Prop :=
  exists grace : Server.Config -> Z,
    (exists c1 c2, grace c1 <> grace c2)
    /\ forall T p signal,
         Server.servers p <> [] ->
         Server.deadline (snd (fst (Server.gracefulShutdown T p signal)))
         = Some (grace (Server.config p)).


(* ===================================================================== *)
(** ** Further observations and runs of events                            *)
(* ===================================================================== *)

(** More observations on a list of effects. *)
Module Observe.

(** The sockets on which [ping] was called, in order. *)
Fixpoint pinged (fx : list Effect) : list Socket :=
  match fx with
  | [] => []
  | Ping s _ :: rest => s :: pinged rest
  | _ :: rest => pinged rest
  end.

(** The records logged with [logger.warn]. *)
Fixpoint warnings (fx : list Effect) : list LogRecord :=
  match fx with
  | [] => []
  | LogWarn r :: rest => r :: warnings rest
  | _ :: rest => warnings rest
  end.

(** The records logged with [logger.error]. *)
Fixpoint errors (fx : list Effect) : list LogRecord :=
  match fx with
  | [] => []
  | LogError r :: rest => r :: errors rest
  | _ :: rest => errors rest
  end.

(** The [(sentCount, totalOnline)] pairs of the broadcast summaries. *)
Fixpoint counts (fx : list Effect) : list (nat * nat) :=
  match fx with
  | [] => []
  | LogInfo (BroadcastSummary _ sent total _) :: rest =>
      (sent, total) :: counts rest
  | _ :: rest => counts rest
  end.

End Observe.

(** The entries a sweep at [now] deletes: not alive, and probed at least
    [timeout] ago. *)
Definition zombie (timeout now : Z) (e : Entry) : bool :=
  negb (isAlive e) && (now - lastPingSentAt e >=? timeout)%Z.

(** Every registered socket carries a ['pong'] listener of the manager. *)
Definition listened (h : Manager) : Prop :=
  forall s, In s (keys (clientMap h)) -> In s (pongListeners h).

(** What can happen to a heartbeat manager between its creation and the
    end of the process. *)
Inductive HbEvent :=
| Registered (now : Z) (s : Socket) (ip : JSString)
| Unregistered (s : Socket)
| MarkedAlive (s : Socket)
| Ponged (s : Socket)
| Fired (now : Z)
| Started
| Stopped.

Definition hb_step (T : Transport) (h : Manager) (e : HbEvent)
  : Manager * list Effect :=
  match e with
  | Registered now s ip => (register h now s ip, [])
  | Unregistered s => (unregister h s, [])
  | MarkedAlive s => (markAlive h s, [])
  | Ponged s => (onPong h s, [])
  | Fired now => onTimer T h now
  | Started => (start h, [])
  | Stopped => (stop h, [])
  end.

Fixpoint hb_run (T : Transport) (h : Manager) (es : list HbEvent)
  : Manager * list Effect :=
  match es with
  | [] => (h, [])
  | e :: rest =>
      let '(h1, fx1) := hb_step T h e in
      let '(h2, fx2) := hb_run T h1 rest in
      (h2, fx1 ++ fx2)
  end.

(** The socket [s] is acknowledged (or registered anew) between any two
    firings of the timer, is never unregistered and the manager is not
    stopped; [fresh] says whether it is acknowledged already. *)
Fixpoint responsive (s : Socket) (fresh : bool) (es : list HbEvent)
  : Prop :=
  match es with
  | [] => True
  | Fired _ :: rest => fresh = true /\ responsive s false rest
  | Registered _ k _ :: rest => responsive s (fresh || Nat.eqb k s) rest
  | MarkedAlive k :: rest => responsive s (fresh || Nat.eqb k s) rest
  | Ponged k :: rest => responsive s (fresh || Nat.eqb k s) rest
  | Unregistered k :: rest => k <> s /\ responsive s fresh rest
  | Started :: rest => responsive s fresh rest
  | Stopped :: rest => False
  end.

(** What the event loop can deliver to the process once it has started. *)
Section ServerEvents.

Variable P : Platform.

Inductive ServerEvent :=
| Upgraded (l : Server.Listener) (now : Z) (s : Socket) (ip : JSString)
| Message (proto : Server.Proto) (s : Socket) (ip : JSString)
          (rawData : Buffer P)
| Closed (proto : Server.Proto) (s : Socket) (ip : JSString)
| Errored (proto : Server.Proto) (s : Socket) (ip err : JSString)
| TimerFired (proto : Server.Proto) (now : Z)
| Listening (proto : Server.Proto) (host : JSString) (port : Z)
| PrimaryFailed (proto : Server.Proto) (host : JSString) (port : Z)
                (err : JSString)
| LoopbackFailed (proto : Server.Proto) (port : Z) (err : JSString).

(** A handler closed over the group labelled [proto] runs on it. *)
Fixpoint on_group (gs : list Server.Group) (proto : Server.Proto)
         (f : Server.Group -> Server.Group * list Effect)
  : list Server.Group * list Effect :=
  match gs with
  | [] => ([], [])
  | g :: rest =>
      if Server.Proto_eqb (Server.label g) proto
      then let '(g', fx) := f g in (g' :: rest, fx)
      else let '(rest', fx) := on_group rest proto f in (g :: rest', fx)
  end.

Definition with_servers (p : Server.Process) (gs : list Server.Group)
  : Server.Process :=
  {| Server.config := Server.config p; Server.servers := gs;
     Server.exitCode := Server.exitCode p |}.

Definition server_step (T : Transport) (p : Server.Process)
           (e : ServerEvent) : Server.Process * list Effect :=
  match e with
  | Upgraded l now s ip =>
      let '(gs, fx) := Server.upgrade (Server.servers p) l now s ip in
      (with_servers p gs, fx)
  | Message proto s ip rawData =>
      let '(gs, fx) :=
        on_group (Server.servers p) proto
                 (fun g => Server.messageHandler P T g s ip rawData) in
      (with_servers p gs, fx)
  | Closed proto s ip =>
      let '(gs, fx) :=
        on_group (Server.servers p) proto
                 (fun g => Server.closeHandler g s ip) in
      (with_servers p gs, fx)
  | Errored proto s ip err =>
      let '(gs, fx) :=
        on_group (Server.servers p) proto
                 (fun g => Server.errorHandler g s ip err) in
      (with_servers p gs, fx)
  | TimerFired proto now =>
      let '(gs, fx) :=
        on_group (Server.servers p) proto
                 (fun g =>
                    (Server.with_hbMgr g
                       (fst (onTimer T (Server.hbMgr g) now)),
                     snd (onTimer T (Server.hbMgr g) now))) in
      (with_servers p gs, fx)
  | Listening proto host port =>
      let '(gs, fx) :=
        on_group (Server.servers p) proto
                 (fun g => Server.primaryListening g host port) in
      (with_servers p gs, fx)
  | PrimaryFailed proto host port err =>
      Server.primaryError p proto host port err
  | LoopbackFailed proto port err =>
      Server.loopbackError p proto port err
  end.

Fixpoint server_run (T : Transport) (p : Server.Process)
         (es : list ServerEvent) : Server.Process * list Effect :=
  match es with
  | [] => (p, [])
  | e :: rest =>
      let '(p1, fx1) := server_step T p e in
      let '(p2, fx2) := server_run T p1 rest in
      (p2, fx1 ++ fx2)
  end.

End ServerEvents.

(** *** What keeps the process running

    Node.js ends a process when [process.exit] is called, and also when
    its event loop has nothing left to wait for; the status is then 0.
    Once the module body has run, what the loop of this program waits for
    is: every HTTP server on which [listen] was called, until its bind
    fails (the handle is closed before ['error'] is emitted); every
    running interval timer; every connected socket.  The listeners for
    signals hold nothing, and the logger writes synchronously. *)

(** The primary listener of the group [proto] has reported that it
    listens. *)
Definition reported (P : Platform) (es : list (ServerEvent P))
           (proto : Server.Proto) : bool :=
  existsb (fun e => match e with
                    | Listening _ p _ _ => Server.Proto_eqb p proto
                    | _ => false
                    end) es.

(** The bind of the listener of the group [proto] in the role [r] has
    failed. *)
Definition bind_failed (P : Platform) (es : list (ServerEvent P))
           (proto : Server.Proto) (r : Server.Role) : bool :=
  existsb (fun e => match e, r with
                    | PrimaryFailed _ p _ _ _, Server.Primary =>
                        Server.Proto_eqb p proto
                    | LoopbackFailed _ p _ _, Server.Loopback =>
                        Server.Proto_eqb p proto
                    | _, _ => false
                    end) es.

(** The group of [servers] that carries a label. *)
Definition group_of (gs : list Server.Group) (proto : Server.Proto)
  : option Server.Group :=
  find (fun g => Server.Proto_eqb (Server.label g) proto) gs.

(** The handles of a group, after the events [es]. *)
Definition handles_of (P : Platform) (es : list (ServerEvent P))
           (g : Server.Group) : nat :=
  List.length (filter (fun l => negb (bind_failed es (Server.label g)
                                                  (Server.role l)))
                      (Server.httpServers g))
  + (match timer (Server.hbMgr g) with Some _ => 1 | None => 0 end)
  + List.length (Server.clients g).

Definition handles (P : Platform) (es : list (ServerEvent P))
           (p : Server.Process) : nat :=
  list_sum (map (handles_of es) (Server.servers p)).

(** The status the process has ended with, if it has ended, when the
    events [es] have brought it to the state [p]. *)
Definition ended (P : Platform) (es : list (ServerEvent P))
           (p : Server.Process) : option Z :=
  match Server.exitCode p with
  | Some code => Some code
  | None => if Nat.eqb (handles es p) 0 then Some 0%Z else None
  end.

(** The claim on a primary listener that fails to bind, in the words of
    the specification, for a process with one protocol: the failure ends
    the process. *)
Definition bind_failure_is_fatal_when_alone (P : Platform) : Prop :=
  forall (T : Transport) (c : Server.Config) (host : JSString) (port : Z)
         (err : JSString),
    Server.ws_enabled c = true -> Server.wss_enabled c = false ->
    ended [PrimaryFailed P Server.WS host port err]
          (fst (server_run T (fst (Server.startup c None))
                           [PrimaryFailed P Server.WS host port err]))
    <> None.

(** The close callbacks of a shutdown run that have not been delivered:
    for a group whose [wsServer.close] callback is still due, that one and
    one per HTTP server; afterwards the value of [httpPending]. *)
Fixpoint remaining (gs : list Server.Group) (pending : list (option Z))
  : Z :=
  match gs, pending with
  | g :: gs', x :: pending' =>
      (match x with
       | None => 1 + Z.of_nat (List.length (Server.httpServers g))
       | Some k => k
       end + remaining gs' pending')%Z
  | _, _ => 0%Z
  end.

(** All the close callbacks a shutdown of [gs] waits for. *)
Definition callbacks (gs : list Server.Group) : Z :=
  remaining gs (map (fun _ => None) gs).

(* ===================================================================== *)
(** ** server.js: [getClientIp]                                           *)
(* ===================================================================== *)

Module ClientIp.

Local Open Scope N_scope.

(** The code units that [String.prototype.trim] strips: WhiteSpace and
    LineTerminator of ECMA-262. *)
Definition is_blank (c : CodeUnit) : bool :=
  (c =? 0x9) || (c =? 0xA) || (c =? 0xB) || (c =? 0xC) || (c =? 0xD)
  || (c =? 0x20) || (c =? 0xA0) || (c =? 0x1680)
  || ((0x2000 <=? c) && (c <=? 0x200A))
  || (c =? 0x2028) || (c =? 0x2029) || (c =? 0x202F) || (c =? 0x205F)
  || (c =? 0x3000) || (c =? 0xFEFF).

Fixpoint trimStart (s : JSString) : JSString :=
  match s with
  | c :: rest => if is_blank c then trimStart rest else s
  | [] => []
  end.

Definition trimEnd (s : JSString) : JSString := rev (trimStart (rev s)).

(** [s.trim()] *)
Definition trim (s : JSString) : JSString := trimEnd (trimStart s).

(** [s.split(',')[0]]: what precedes the first comma. *)
Fixpoint first_item (s : JSString) : JSString :=
  match s with
  | [] => []
  | c :: rest => if c =? 44 then [] else c :: first_item rest
  end.

(** What [getClientIp] reads of the request: the [x-forwarded-for] header
    ([None] when absent) and [req.socket], [None] when it is missing,
    with its [remoteAddress], [None] when undefined. *)
Record Request := {
  x_forwarded_for : option JSString;
  socket : option (option JSString)
}.

(** The two code units of the fallback label. *)
Definition unknown : JSString := [0x672A; 0x77E5].

(** [getClientIp(req)] *)
Definition getClientIp (req : Request) : JSString :=
  match x_forwarded_for req with
  | Some (c :: f) => trim (first_item (c :: f))
  | _ =>
      match socket req with
      | Some (Some (c :: a)) => c :: a
      | _ => unknown
      end
  end.

(** The ['upgrade'] listener of [bindUpgrade] with the request it passes
    on: the ['connection'] listener resolves the address with
    [getClientIp]. *)
Definition connection (gs : list Server.Group) (l : Server.Listener)
           (now : Z) (s : Socket) (req : Request)
  : list Server.Group * list Effect :=
  Server.upgrade gs l now s (getClientIp req).

End ClientIp.

(* ===================================================================== *)
(** ** src/logger.js                                                      *)
(* ===================================================================== *)

Module Logger.

Local Open Scope N_scope.

(** What [formatTimestamp] reads of a [Date]: the results of
    [getFullYear], [getMonth], [getDate], [getHours], [getMinutes] and
    [getSeconds]. *)
Record Date := {
  fullYear : Z;
  month : N;
  date : N;
  hours : N;
  minutes : N;
  seconds : N
}.

(** [String(n)] for an integer. *)
Definition String_Z (z : Z) : JSString := Reference.print_Z z.

(** [s.padStart(2, '0')] *)
Definition padStart2 (s : JSString) : JSString :=
  repeat 48 (2 - List.length s) ++ s.

(** [pad] of [formatTimestamp] *)
Definition pad (n : N) : JSString := padStart2 (String_Z (Z.of_N n)).

(** [formatTimestamp(date)] *)
Definition formatTimestamp (d : Date) : JSString :=
  String_Z (fullYear d) ++ [45] ++ pad (month d + 1) ++ [45] ++ pad (date d)
  ++ [95] ++ pad (hours d) ++ [45] ++ pad (minutes d) ++ [45]
  ++ pad (seconds d).

(** [s.replace(pat, rep)] for a one-character string pattern: the first
    occurrence is replaced. *)
Fixpoint replace_first (pat rep : CodeUnit) (s : JSString) : JSString :=
  match s with
  | [] => []
  | c :: rest =>
      if c =? pat then rep :: rest else c :: replace_first pat rep rest
  end.

(** [s.replace(/c/g, rep)] for a one-character pattern. *)
Definition replace_all (pat : CodeUnit) (rep : JSString) (s : JSString)
  : JSString :=
  flat_map (fun c => if c =? pat then rep else [c]) s.

(** The name of the log file, [`${formatTimestamp(startTime)}.log`]. *)
Definition fileName (startTime : Date) : JSString :=
  formatTimestamp startTime ++ js ".log".

Inductive Output :=
| Stdout (line : JSString)
| Append (file line : JSString) (threw : option JSString)
| Stderr (line : JSString).

(** [formatTimestamp(now).replace('_', ' ').replace(/-/g, '-')] *)
Definition timeStr (now : Date) : JSString :=
  replace_all 45 [45] (replace_first 95 32 (formatTimestamp now)).

(** The line built by [write]. *)
Definition line (now : Date) (level message : JSString) : JSString :=
  [91] ++ timeStr now ++ [93; 32] ++ level ++ [32] ++ message ++ [10].

Definition write_failed : JSString :=
  [0x5B; 0x65E5; 0x5FD7; 0x5199; 0x5165; 0x5931; 0x8D25; 0x5D; 0x20].

(** [write(level, message)] of the logger writing to [filePath], at clock
    reading [now]; [appendThrows] is the message of the error thrown by
    [fs.appendFileSync], if it throws. *)
Definition write (filePath : JSString) (appendThrows : option JSString)
           (now : Date) (level message : JSString) : list Output :=
  Stdout (line now level message)
  :: Append filePath (line now level message) appendThrows
  :: match appendThrows with
     | Some err => [Stderr (write_failed ++ err ++ [10])]
     | None => []
     end.

Definition level_info : JSString := [0x3010; 0x4FE1; 0x606F; 0x3011].
Definition level_warn : JSString := [0x3010; 0x8B66; 0x544A; 0x3011].
Definition level_error : JSString := [0x3010; 0x9519; 0x8BEF; 0x3011].

Definition info filePath appendThrows now message :=
  write filePath appendThrows now level_info message.
Definition warn filePath appendThrows now message :=
  write filePath appendThrows now level_warn message.
Definition error filePath appendThrows now message :=
  write filePath appendThrows now level_error message.

(** A date as the getters of a valid [Date] return it, with a year of four
    digits. *)
Definition in_range (d : Date) : Prop :=
  (1000 <= fullYear d <= 9999)%Z /\ month d <= 11 /\ 1 <= date d <= 31
  /\ hours d <= 23 /\ minutes d <= 59 /\ seconds d <= 59.

(** The number written by two or four decimal digits. *)
Definition digit (c : CodeUnit) : N := c - 48.

Definition number2 (a b : CodeUnit) : N := digit a * 10 + digit b.

(** Reading a timestamp back. *)
Definition parseTimestamp (s : JSString) : option Date :=
  match s with
  | [y1; y2; y3; y4; _; m1; m2; _; d1; d2; _; h1; h2; _; i1; i2; _; s1; s2]
    => Some {| fullYear := Z.of_N (number2 y1 y2 * 100 + number2 y3 y4);
               month := number2 m1 m2 - 1;
               date := number2 d1 d2;
               hours := number2 h1 h2;
               minutes := number2 i1 i2;
               seconds := number2 s1 s2 |}
  | _ => None
  end.

(** Dates in the order of time, and strings in the order of their code
    units ([<] of JavaScript, as file listings sort). *)
Definition stamp (d : Date) : Z :=
  (((((fullYear d * 12 + Z.of_N (month d)) * 32 + Z.of_N (date d)) * 24
     + Z.of_N (hours d)) * 60 + Z.of_N (minutes d)) * 60
   + Z.of_N (seconds d))%Z.

Fixpoint str_ltb (a b : JSString) : bool :=
  match a, b with
  | _, [] => false
  | [], _ :: _ => true
  | x :: a', y :: b' => (x <? y) || ((x =? y) && str_ltb a' b')
  end.

End Logger.

(* ===================================================================== *)
(** ** src/config.js                                                      *)
(* ===================================================================== *)

Module Loader.

(** A number as [Number(...)] returns it: [NaN], or the double nearest to
    a rational, as for [JNumber] (a rational beyond the range of the
    doubles stands for an infinity). *)
Inductive Num := NaN | Finite (q : Q).

(** ToBoolean of a number: [NaN], [0] and [-0] are falsy. *)
Definition num_truthy (n : Num) : bool :=
  match n with
  | NaN => false
  | Finite q => negb (rounds_to_zero q)
  end.

(** [n <= 0] *)
Definition le_zero (n : Num) : bool :=
  match n with
  | NaN => false
  | Finite q => Qle_bool q 0%Q || rounds_to_zero q
  end.

(** What [loadConfig] reads of the process, of [path] and [fs], and the
    conversions of the engine that are not written out here.  [inl] holds
    the [message] of the error thrown.  The file system is the same at
    every call of one run. *)
Record Env := {
  pkg : bool;
  execDir : JSString;
  projectRoot : JSString;
  isAbsolute : JSString -> bool;
  join : JSString -> JSString -> JSString;
  existsSync : JSString -> bool;
  readFileSync : JSString -> JSString + JSString;
  parse_error : JSString -> JSString;
  StringToNumber : JSString -> Num;
  ObjectToNumber : JSValue -> JSString + Num
}.

(** The errors [loadConfig] throws: its own six, and the [TypeError]s of
    [raw.ws] for a [null] file content, of [Number] on an object that has
    no primitive value, and of [path.isAbsolute] on a value that is not a
    string. *)
Inductive Failure :=
| NotFound (configPath : JSString)
| ParseFailed (message : JSString)
| NoProtocol
| BadMaxPayload
| CertMissing (path : JSString)
| KeyMissing (path : JSString)
| NullConfig
| NotConvertible (message : JSString)
| PathNotString (v : JSValue).

Definition Result (A : Type) : Type := (Failure + A)%type.

Definition bind (A B : Type) (m : Result A) (f : A -> Result B)
  : Result B :=
  match m with
  | inl e => inl e
  | inr a => f a
  end.

Notation "x <- m ;; f" := (bind m (fun x => f))
  (at level 61, m at next level, right associativity).

Record Endpoint := {
  enabled : bool;
  host : JSValue;
  port : Num
}.

Record Loaded := {
  ws : Endpoint;
  wss : Endpoint;
  tls_cert : JSString;
  tls_key : JSString;
  maxPayload : Num;
  heartbeat_interval : Num;
  heartbeat_timeout : Num;
  log_dir : JSString
}.

(** [getRuntimeRoot()] *)
Definition getRuntimeRoot (E : Env) : JSString :=
  if pkg E then execDir E else projectRoot E.

(** [resolveFromRoot(relativePath)]; [path.isAbsolute] throws on a value
    that is not a string. *)
Definition resolveFromRoot (E : Env) (relativePath : JSValue)
  : Result JSString :=
  let root := getRuntimeRoot E in
  match relativePath with
  | JString s => inr (if isAbsolute E s then s else join E root s)
  | v => inl (PathNotString v)
  end.

(** [raw.k]; [None] is [undefined].  The values of [JSON.parse] other than
    objects have no property of the names read here, and [null] has no
    property at all. *)
Definition get (v : JSValue) (k : JSString) : option JSValue :=
  match v with
  | JObject props => own props k
  | _ => None
  end.

Definition member (raw : JSValue) (k : JSString)
  : Result (option JSValue) :=
  match raw with
  | JNull => inl NullConfig
  | _ => inr (get raw k)
  end.

Definition opt_truthy (x : option JSValue) : bool :=
  match x with
  | Some v => truthy v
  | None => false
  end.

(** [Number(x)] *)
Definition Number (E : Env) (x : option JSValue) : Result Num :=
  match x with
  | None => inr NaN
  | Some JNull => inr (Finite 0%Q)
  | Some (JBool b) => inr (Finite (if b then 1%Q else 0%Q))
  | Some (JNumber q) => inr (Finite q)
  | Some (JString s) => inr (StringToNumber E s)
  | Some v =>
      match ObjectToNumber E v with
      | inl message => inl (NotConvertible message)
      | inr n => inr n
      end
  end.

(** [sec && sec.enabled !== undefined ? Boolean(sec.enabled) : true] *)
Definition enabled_of (sec : option JSValue) : bool :=
  match sec with
  | Some o =>
      if truthy o then
        match get o (js "enabled") with
        | Some e => truthy e
        | None => true
        end
      else true
  | None => true
  end.

(** [(sec && sec.k) || dflt] *)
Definition or_default (sec : option JSValue) (k : JSString)
           (dflt : JSValue) : JSValue :=
  match sec with
  | Some o =>
      if truthy o then
        match get o k with
        | Some v => if truthy v then v else dflt
        | None => dflt
        end
      else dflt
  | None => dflt
  end.

(** [(sec && Number(sec.k)) || dflt] *)
Definition number_or (E : Env) (sec : option JSValue) (k : JSString)
           (dflt : Q) : Result Num :=
  match sec with
  | Some o =>
      if truthy o then
        n <- Number E (get o k) ;;
        inr (if num_truthy n then n else Finite dflt)
      else inr (Finite dflt)
  | None => inr (Finite dflt)
  end.

(** The object literal built for [ws] and for [wss]. *)
Definition endpoint (E : Env) (sec : option JSValue) (dflt_port : Q)
  : Result Endpoint :=
  let enabled := enabled_of sec in
  let host := or_default sec (js "host") (JString (js "0.0.0.0")) in
  port <- number_or E sec (js "port") dflt_port ;;
  inr {| enabled := enabled; host := host; port := port |}.

(** [loadConfig()] *)
Definition loadConfig (P : Platform) (E : Env) : Result Loaded :=
  configPath <- resolveFromRoot E (JString (js "config.json")) ;;
  if negb (existsSync E configPath) then inl (NotFound configPath) else
  raw <- match readFileSync E configPath with
         | inl message => inl (ParseFailed message)
         | inr text =>
             match JSON_parse P text with
             | None => inl (ParseFailed (parse_error E text))
             | Some v => inr v
             end
         end ;;
  raw_ws <- member raw (js "ws") ;;
  ws <- endpoint E raw_ws (8070 # 1)%Q ;;
  raw_wss <- member raw (js "wss") ;;
  wss <- endpoint E raw_wss (8071 # 1)%Q ;;
  if negb (enabled ws) && negb (enabled wss) then inl NoProtocol else
  raw_tls <- member raw (js "tls") ;;
  cert <- resolveFromRoot E
            (or_default raw_tls (js "cert")
                        (JString (js "cacerts/cacert.pem"))) ;;
  key <- resolveFromRoot E
           (or_default raw_tls (js "key")
                       (JString (js "cacerts/privkey.pem"))) ;;
  raw_maxPayload <- member raw (js "maxPayload") ;;
  maxPayload <- match raw_maxPayload with
                | Some _ => Number E raw_maxPayload
                | None => inr (Finite ((10 * 1024 * 1024) # 1)%Q)
                end ;;
  if le_zero maxPayload then inl BadMaxPayload else
  raw_heartbeat <- member raw (js "heartbeat") ;;
  interval <- number_or E raw_heartbeat (js "interval") (15000 # 1)%Q ;;
  timeout <- number_or E raw_heartbeat (js "timeout") (30000 # 1)%Q ;;
  raw_log <- member raw (js "log") ;;
  dir <- resolveFromRoot E (or_default raw_log (js "dir")
                                       (JString (js "logs"))) ;;
  let config := {| ws := ws; wss := wss; tls_cert := cert; tls_key := key;
                   maxPayload := maxPayload; heartbeat_interval := interval;
                   heartbeat_timeout := timeout; log_dir := dir |} in
  if enabled wss then
    if negb (existsSync E cert) then inl (CertMissing cert)
    else if negb (existsSync E key) then inl (KeyMissing key)
    else inr config
  else inr config.

End Loader.

(** A machine for the examples: the program is run by node from
    [/srv/app], [config.json] holds [content] and the files of [present]
    exist.  The examples apply [Number] to no string and to no object;
    the two conversions are left at [NaN]. *)
Definition posix (content : JSString) (present : list JSString)
  : Loader.Env :=
  {| Loader.pkg := false;
     Loader.execDir := js "/usr/local/bin";
     Loader.projectRoot := js "/srv/app";
     Loader.isAbsolute := fun s => match s with
                                   | c :: _ => N.eqb c 47
                                   | [] => false
                                   end;
     Loader.join := fun a b => a ++ 47%N :: b;
     Loader.existsSync := fun p => existsb (str_eqb p) present;
     Loader.readFileSync := fun _ => inr content;
     Loader.parse_error := fun _ => js "Unexpected token";
     Loader.StringToNumber := fun _ => Loader.NaN;
     Loader.ObjectToNumber := fun _ => inr Loader.NaN |}.

(** The configuration made of the defaults of [loadConfig], with the three
    paths resolved. *)
Definition defaults (cert key dir : JSString) : Loader.Loaded :=
  {| Loader.ws := {| Loader.enabled := true;
                     Loader.host := JString (js "0.0.0.0");
                     Loader.port := Loader.Finite (8070 # 1)%Q |};
     Loader.wss := {| Loader.enabled := true;
                      Loader.host := JString (js "0.0.0.0");
                      Loader.port := Loader.Finite (8071 # 1)%Q |};
     Loader.tls_cert := cert;
     Loader.tls_key := key;
     Loader.maxPayload := Loader.Finite (10485760 # 1)%Q;
     Loader.heartbeat_interval := Loader.Finite (15000 # 1)%Q;
     Loader.heartbeat_timeout := Loader.Finite (30000 # 1)%Q;
     Loader.log_dir := dir |}.

(** A section of the file that says [enabled] with a falsy value. *)
Definition switched_off (sec : option JSValue) : Prop :=
  exists o e, sec = Some o /\ truthy o = true
              /\ Loader.get o (js "enabled") = Some e /\ truthy e = false.

(* ===================================================================== *)
(** ** Facts about the heartbeat manager                                  *)
(* ===================================================================== *)

Section MapFacts.

Implicit Types (m : ClientMap) (s k : Socket) (e : Entry).

Lemma Map_get_set_alive_same m s e :
  Map_get m s = Some e -> Map_get (set_alive m s) s = Some (revived e).
Proof.
  induction m as [|[k e'] m IH]; simpl; [discriminate|].
  destruct (Nat.eqb k s) eqn:E; simpl; rewrite E; auto.
  intros H; inversion H; reflexivity.
Qed.

Lemma Map_get_set_alive_other m s k :
  k <> s -> Map_get (set_alive m s) k = Map_get m k.
Proof.
  intros Hk. induction m as [|[k' e'] m IH]; simpl; [reflexivity|].
  destruct (Nat.eqb k' s) eqn:E; simpl.
  - apply Nat.eqb_eq in E; subst k'.
    destruct (Nat.eqb s k) eqn:E'; [|reflexivity].
    apply Nat.eqb_eq in E'; congruence.
  - rewrite IH; reflexivity.
Qed.

Lemma keys_set_alive m s : keys (set_alive m s) = keys m.
Proof.
  unfold keys. induction m as [|[k e] m IH]; simpl; [reflexivity|].
  destruct (Nat.eqb k s); simpl; [reflexivity|].
  rewrite IH; reflexivity.
Qed.

Lemma set_alive_idem m s : set_alive (set_alive m s) s = set_alive m s.
Proof.
  induction m as [|[k e] m IH]; simpl; [reflexivity|].
  destruct (Nat.eqb k s) eqn:E; simpl; rewrite E; [reflexivity|].
  rewrite IH; reflexivity.
Qed.

Lemma Map_get_In m s e : Map_get m s = Some e -> In (s, e) m.
Proof.
  induction m as [|[k e'] m IH]; simpl; [discriminate|].
  destruct (Nat.eqb k s) eqn:E.
  - apply Nat.eqb_eq in E; subst k. intros H; inversion H; auto.
  - auto.
Qed.

Lemma In_Map_get m s e :
  NoDup (keys m) -> In (s, e) m -> Map_get m s = Some e.
Proof.
  induction m as [|[k e'] m IH]; simpl; [tauto|].
  intros Hnd [H|H].
  - inversion H; subst. rewrite Nat.eqb_refl; reflexivity.
  - inversion Hnd as [|? ? Hk Hnd']; subst.
    destruct (Nat.eqb k s) eqn:E.
    + apply Nat.eqb_eq in E; subst k. exfalso; apply Hk.
      change s with (fst (s, e)). apply in_map; exact H.
    + auto.
Qed.

Lemma Map_get_None_keys m s : Map_get m s = None <-> ~ In s (keys m).
Proof.
  induction m as [|[k e] m IH]; simpl; [tauto|].
  destruct (Nat.eqb k s) eqn:E.
  - apply Nat.eqb_eq in E. split; [discriminate|tauto].
  - apply Nat.eqb_neq in E. tauto.
Qed.

Lemma Map_get_delete_same m s :
  NoDup (keys m) -> Map_get (Map_delete m s) s = None.
Proof.
  induction m as [|[k e] m IH]; simpl; [reflexivity|].
  intros Hnd; inversion Hnd as [|? ? Hk Hnd']; subst.
  destruct (Nat.eqb k s) eqn:E; simpl.
  - apply Nat.eqb_eq in E; subst k. apply Map_get_None_keys; exact Hk.
  - rewrite E; auto.
Qed.

End MapFacts.

Section SweepFacts.

Variables (T : Transport) (timeout now : Z).

Lemma sweep_cons socket entry rest :
  sweep T timeout now ((socket, entry) :: rest) =
  (match fst (sweepEntry T timeout now socket entry) with
   | Some e => (socket, e) :: fst (sweep T timeout now rest)
   | None => fst (sweep T timeout now rest)
   end,
   snd (sweepEntry T timeout now socket entry)
     ++ snd (sweep T timeout now rest)).
Proof.
  simpl. destruct (sweepEntry T timeout now socket entry) as [r fx].
  destruct (sweep T timeout now rest) as [rest' fx']. reflexivity.
Qed.

Lemma sweepEntry_alive socket e :
  isAlive e = true ->
  fst (sweepEntry T timeout now socket e) = Some (probed now e)
  /\ Trace.terminated (snd (sweepEntry T timeout now socket e)) = [].
Proof.
  intros Ha. unfold sweepEntry. rewrite Ha. simpl. split; [reflexivity|].
  destruct (is_open (readyState T socket)); [|reflexivity].
  destruct (ping_throws T socket); reflexivity.
Qed.

Lemma sweepEntry_recent socket e :
  (now - lastPingSentAt e < timeout)%Z ->
  fst (sweepEntry T timeout now socket e) = Some (probed now e)
  /\ Trace.terminated (snd (sweepEntry T timeout now socket e)) = [].
Proof.
  intros Hlt. unfold sweepEntry.
  replace (now - lastPingSentAt e >=? timeout)%Z with false
    by (symmetry; rewrite Z.geb_leb; apply Z.leb_gt; lia).
  rewrite andb_false_r. simpl. split; [reflexivity|].
  destruct (is_open (readyState T socket)); [|reflexivity].
  destruct (ping_throws T socket); reflexivity.
Qed.

Lemma sweepEntry_terminated socket e s :
  In s (Trace.terminated (snd (sweepEntry T timeout now socket e))) ->
  s = socket /\ isAlive e = false
  /\ (timeout <= now - lastPingSentAt e)%Z.
Proof.
  unfold sweepEntry.
  destruct (isAlive e); simpl.
  - destruct (is_open (readyState T socket)); [|simpl; tauto].
    destruct (ping_throws T socket); simpl; tauto.
  - destruct (now - lastPingSentAt e >=? timeout)%Z eqn:E; simpl.
    + intros [H|[]]. apply Z.geb_le in E. auto.
    + destruct (is_open (readyState T socket)); [|simpl; tauto].
      destruct (ping_throws T socket); simpl; tauto.
Qed.

Lemma terminated_app fx fx' :
  Trace.terminated (fx ++ fx') =
  Trace.terminated fx ++ Trace.terminated fx'.
Proof.
  induction fx as [|x fx IH]; simpl; [reflexivity|].
  destruct x; simpl; rewrite ?IH; reflexivity.
Qed.

(** The sweep rewrites an entry that is alive and keeps it. *)
Lemma Map_get_sweep_alive m s e :
  Map_get m s = Some e -> isAlive e = true ->
  Map_get (fst (sweep T timeout now m)) s = Some (probed now e).
Proof.
  induction m as [|[k e'] m IH]; [discriminate|].
  intros Hget Ha. rewrite sweep_cons. cbn [fst]. simpl in Hget.
  destruct (Nat.eqb k s) eqn:E.
  - inversion Hget; subst e'.
    destruct (sweepEntry_alive k e Ha) as [-> _].
    simpl. rewrite E. reflexivity.
  - destruct (fst (sweepEntry T timeout now k e')); simpl; rewrite ?E; auto.
Qed.

(** A socket is terminated by the sweep only for an entry of its own that
    is not alive and whose last probe is at least [timeout] old. *)
Lemma sweep_terminated m s :
  In s (Trace.terminated (snd (sweep T timeout now m))) ->
  exists e, In (s, e) m /\ isAlive e = false
            /\ (timeout <= now - lastPingSentAt e)%Z.
Proof.
  induction m as [|[k e'] m IH]; [simpl; tauto|].
  rewrite sweep_cons. cbn [snd]. rewrite terminated_app, in_app_iff.
  intros [H|H].
  - apply sweepEntry_terminated in H. destruct H as (-> & Ha & Hle).
    exists e'. simpl; auto.
  - destruct (IH H) as (e & Hin & Ha & Hle). exists e. simpl; auto.
Qed.

(** When every entry is alive or was probed less than [timeout] ago, the
    sweep deletes nothing and terminates nobody. *)
Lemma sweep_keeps_all m :
  (forall s e, In (s, e) m ->
     isAlive e = true \/ (now - lastPingSentAt e < timeout)%Z) ->
  fst (sweep T timeout now m) = map (fun se => (fst se, probed now (snd se))) m
  /\ Trace.terminated (snd (sweep T timeout now m)) = [].
Proof.
  induction m as [|[k e] m IH]; intros Hall; [simpl; auto|].
  rewrite sweep_cons. cbn [fst snd]. rewrite terminated_app.
  destruct IH as [IH1 IH2]; [intros; apply (Hall s e0); simpl; auto|].
  assert (fst (sweepEntry T timeout now k e) = Some (probed now e)
          /\ Trace.terminated (snd (sweepEntry T timeout now k e)) = [])
    as [H1 H2].
  { destruct (Hall k e) as [H|H]; [simpl; auto| |].
    - apply sweepEntry_alive; exact H.
    - apply sweepEntry_recent; exact H. }
  rewrite H1, H2, IH1, IH2. simpl. auto.
Qed.

End SweepFacts.

Section ManagerFacts.

Implicit Types (h : Manager) (s : Socket).

Lemma markAlive_absent h s :
  Map_get (clientMap h) s = None -> markAlive h s = h.
Proof. unfold markAlive. intros ->. reflexivity. Qed.

Lemma pongListener_markAlive h s : pongListener h s = markAlive h s.
Proof. reflexivity. Qed.

Lemma onPong_absent h s :
  Map_get (clientMap h) s = None -> onPong h s = h.
Proof.
  intros Hnone. unfold onPong.
  generalize (pongListeners h) as ls.
  induction ls as [|x ls IH]; simpl; [reflexivity|].
  destruct (Nat.eqb x s); [|exact IH].
  rewrite pongListener_markAlive, markAlive_absent by exact Hnone.
  exact IH.
Qed.

Lemma markAlive_idem h s : markAlive (markAlive h s) s = markAlive h s.
Proof.
  unfold markAlive at 2 3.
  destruct (Map_get (clientMap h) s) as [e|] eqn:E.
  - unfold markAlive, with_map; simpl.
    rewrite (Map_get_set_alive_same _ _ E), set_alive_idem. reflexivity.
  - unfold markAlive. rewrite E. reflexivity.
Qed.

Lemma markAlive_times_once h s n :
  (1 <= n)%nat -> markAlive_times n h s = markAlive h s.
Proof.
  unfold markAlive_times. induction n as [|n IH]; [lia|].
  intros _. destruct n as [|n]; [reflexivity|].
  change (markAlive (Nat.iter (S n) (fun x => markAlive x s) h) s
          = markAlive h s).
  rewrite IH by lia. apply markAlive_idem.
Qed.

Lemma ticks_stopped T h t0 n :
  timer h = None -> ticks T h t0 n = (h, []).
Proof.
  intros Ht. revert t0. induction n as [|n IH]; intros t0; [reflexivity|].
  simpl. unfold onTimer. rewrite Ht, IH. reflexivity.
Qed.

Lemma keys_probed now (m : ClientMap) :
  keys (map (fun se => (fst se, probed now (snd se))) m) = keys m.
Proof.
  unfold keys. rewrite map_map. apply map_ext. intros [k e]; reflexivity.
Qed.

(** With [interval < timeout] a running timer never deletes an entry: after
    the first sweep every probe time is one [interval] old at the next. *)
Lemma ticks_keep_all T h t0 n :
  (interval h < timeout h)%Z ->
  (forall s e, In (s, e) (clientMap h) ->
     isAlive e = true
     \/ (t0 + interval h - lastPingSentAt e < timeout h)%Z) ->
  keys (clientMap (fst (ticks T h t0 n))) = keys (clientMap h)
  /\ Trace.terminated (snd (ticks T h t0 n)) = [].
Proof.
  destruct (timer h) as [p|] eqn:Ht;
    [|intros; rewrite ticks_stopped by exact Ht; simpl; auto].
  revert h t0 Ht. induction n as [|n IH]; intros h t0 Ht Hlt Hall;
    [simpl; auto|].
  simpl. unfold onTimer, tick. rewrite Ht.
  destruct (@sweep_keeps_all T _ _ _ Hall) as [Hm Hfx].
  destruct (sweep T (timeout h) (t0 + interval h)%Z (clientMap h))
    as [m fx] eqn:Es.
  simpl in Hm, Hfx. subst m.
  set (h1 := with_map h _).
  specialize (IH h1 (t0 + interval h)%Z Ht Hlt).
  destruct (ticks T h1 (t0 + interval h)%Z n) as [h2 fx2] eqn:Et.
  simpl in IH |- *. destruct IH as [IHk IHt].
  - intros s e Hin. right. apply in_map_iff in Hin.
    destruct Hin as ([k e0] & Heq & _). inversion Heq; subst. simpl. lia.
  - rewrite IHk, keys_probed, terminated_app, Hfx, IHt. auto.
Qed.

Lemma sweeps_stopped T h times :
  timer h = None -> sweeps T h times = (h, []).
Proof.
  intros Ht. induction times as [|now rest IH]; [reflexivity|].
  simpl. unfold onTimer. rewrite Ht, IH. reflexivity.
Qed.

(** The same for any schedule of the timer, late or early: as long as two
    successive sweeps are less than [timeout] apart, no entry is deleted,
    answered or not. *)
Lemma sweeps_keep_all T h prev times :
  spaced (timeout h) prev times ->
  (forall s e, In (s, e) (clientMap h) ->
     isAlive e = true \/ (prev <= lastPingSentAt e)%Z) ->
  keys (clientMap (fst (sweeps T h times))) = keys (clientMap h)
  /\ Trace.terminated (snd (sweeps T h times)) = [].
Proof.
  destruct (timer h) as [p|] eqn:Ht;
    [|intros; rewrite sweeps_stopped by exact Ht; simpl; auto].
  revert h prev Ht. induction times as [|now rest IH];
    intros h prev Ht Hsp Hall; [simpl; auto|].
  destruct Hsp as [Hgap Hsp].
  simpl. unfold onTimer, tick. rewrite Ht.
  assert (forall s e, In (s, e) (clientMap h) ->
            isAlive e = true \/ (now - lastPingSentAt e < timeout h)%Z)
    as Hall'.
  { intros s e Hin. destruct (Hall s e Hin); [auto|right; lia]. }
  destruct (@sweep_keeps_all T _ _ _ Hall') as [Hm Hfx].
  destruct (sweep T (timeout h) now (clientMap h)) as [m fx] eqn:Es.
  simpl in Hm, Hfx. subst m.
  set (h1 := with_map h _).
  specialize (IH h1 now Ht Hsp).
  destruct (sweeps T h1 rest) as [h2 fx2] eqn:Et.
  simpl in IH |- *. destruct IH as [IHk IHt].
  - intros s e Hin. right. apply in_map_iff in Hin.
    destruct Hin as ([k e0] & Heq & _). inversion Heq; subst. simpl. lia.
  - rewrite IHk, keys_probed, terminated_app, Hfx, IHt. auto.
Qed.

End ManagerFacts.

Section EvictionFacts.

Variables (T : Transport) (timeout now : Z).

Lemma keys_sweep_subset (m : ClientMap) (k : Socket) :
  In k (keys (fst (sweep T timeout now m))) -> In k (keys m).
Proof.
  induction m as [|[k' e] m IH]; [simpl; tauto|].
  rewrite sweep_cons. cbn [fst].
  destruct (fst (sweepEntry T timeout now k' e)); simpl; tauto.
Qed.

Lemma sweep_wf (m : ClientMap) :
  NoDup (keys m) -> NoDup (keys (fst (sweep T timeout now m))).
Proof.
  induction m as [|[k e] m IH]; [simpl; auto|].
  intros Hnd. inversion Hnd as [|? ? Hk Hnd']; subst.
  rewrite sweep_cons. cbn [fst].
  destruct (fst (sweepEntry T timeout now k e)); simpl; auto.
  constructor; auto. intros Hin; apply Hk, keys_sweep_subset; exact Hin.
Qed.

Lemma sweepEntry_terminated_deleted socket e s :
  In s (Trace.terminated (snd (sweepEntry T timeout now socket e))) ->
  fst (sweepEntry T timeout now socket e) = None.
Proof.
  unfold sweepEntry.
  destruct (negb (isAlive e) && (now - lastPingSentAt e >=? timeout)%Z);
    simpl; [reflexivity|].
  destruct (is_open (readyState T socket)); [|simpl; tauto].
  destruct (ping_throws T socket); simpl; tauto.
Qed.

(** A socket terminated by the sweep has no entry afterwards. *)
Lemma sweep_terminated_absent (m : ClientMap) (s : Socket) :
  NoDup (keys m) ->
  In s (Trace.terminated (snd (sweep T timeout now m))) ->
  Map_get (fst (sweep T timeout now m)) s = None.
Proof.
  induction m as [|[k e] m IH]; [simpl; tauto|].
  intros Hnd. inversion Hnd as [|? ? Hk Hnd']; subst.
  rewrite sweep_cons. cbn [fst snd]. rewrite terminated_app, in_app_iff.
  intros [H|H].
  - rewrite (sweepEntry_terminated_deleted _ _ _ H).
    apply sweepEntry_terminated in H. destruct H as [-> _].
    apply Map_get_None_keys. intros Hin; apply Hk, keys_sweep_subset.
    exact Hin.
  - assert (k <> s) as Hne.
    { intros ->. apply Hk. destruct (sweep_terminated _ _ _ _ _ H)
        as (e' & Hin & _). change s with (fst (s, e')).
      apply in_map; exact Hin. }
    apply Nat.eqb_neq in Hne.
    destruct (fst (sweepEntry T timeout now k e)); simpl; rewrite ?Hne; auto.
Qed.

End EvictionFacts.

(* ===================================================================== *)
(** ** Heartbeat manager: the claims                                      *)
(* ===================================================================== *)

(** C1 (the code departs from the claim).  With the README settings,
    [interval = 5000] and [timeout = 15000], a client registered when the
    timer starts and silent ever after is still in the registry, and has
    not been terminated, after any number [n] of timer ticks, that is at
    any time [5000 * n]: in particular after 25 s, which is
    [interval + timeout + one tick].  Each sweep overwrites
    [lastPingSentAt], so the age it compares with [timeout] is always one
    [interval]. *)
Theorem silent_client_is_never_evicted :
  forall (T : Transport) (n : nat),
    Map_has (clientMap (fst (ticks T Scenario.readme_manager 0 n)))
            Scenario.silent = true
    /\ Trace.terminated (snd (ticks T Scenario.readme_manager 0 n)) = [].
Proof.
  intros T n.
  destruct (@ticks_keep_all T Scenario.readme_manager 0%Z n) as [Hk Ht].
  - simpl. lia.
  - simpl. intros s e [H|[]]. inversion H; subst. left; reflexivity.
  - split; [|exact Ht].
    unfold Map_has.
    destruct (Map_get (clientMap (fst (ticks T Scenario.readme_manager 0 n)))
                      Scenario.silent) eqn:E; [reflexivity|].
    apply Map_get_None_keys in E. exfalso; apply E. rewrite Hk.
    simpl. auto.
Qed.

(** With [interval = timeout] the opposite happens: a client that answered
    just before the sweep at 10 s is terminated by the sweep at 20 s, less
    than [interval + timeout] after its answer. *)
Lemma eager_manager_evicts_at_second_sweep :
  forall T : Transport,
    Trace.terminated (snd (ticks T Scenario.eager_manager 0 1)) = []
    /\ Trace.terminated (snd (ticks T Scenario.eager_manager 0 2))
       = [Scenario.silent]
    /\ clientMap (fst (ticks T Scenario.eager_manager 0 2)) = [].
Proof.
  intros T. unfold ticks, onTimer, tick. simpl.
  destruct (is_open (readyState T Scenario.silent));
    [destruct (ping_throws T Scenario.silent)|]; simpl; auto.
Qed.

(** C9.  For a registered socket, [markAlive] called [n >= 1] times is
    [markAlive] called once: the entry is alive, its other fields and all
    other entries, the order of the registry and the rest of the manager
    are unchanged; and the next sweep, whatever the clock reads, keeps
    the entry (it becomes "probed at [now]") and does not terminate the
    socket. *)
Theorem markAlive_repeated_is_markAlive_once :
  forall (T : Transport) (h : Manager) (s : Socket) (e : Entry)
         (n : nat) (now : Z),
    wf h ->
    Map_get (clientMap h) s = Some e ->
    (1 <= n)%nat ->
    markAlive_times n h s = markAlive h s
    /\ Map_get (clientMap (markAlive_times n h s)) s = Some (revived e)
    /\ (forall k, k <> s ->
          Map_get (clientMap (markAlive_times n h s)) k
          = Map_get (clientMap h) k)
    /\ keys (clientMap (markAlive_times n h s)) = keys (clientMap h)
    /\ (interval (markAlive_times n h s), timeout (markAlive_times n h s),
        timer (markAlive_times n h s), pongListeners (markAlive_times n h s))
       = (interval h, timeout h, timer h, pongListeners h)
    /\ Map_get (clientMap (fst (tick T (markAlive_times n h s) now))) s
       = Some (probed now e)
    /\ ~ In s (Trace.terminated (snd (tick T (markAlive_times n h s) now))).
Proof.
  intros T h s e n now Hwf Hget Hn.
  rewrite (markAlive_times_once h s Hn).
  unfold markAlive. rewrite Hget. unfold with_map; simpl.
  pose proof (Map_get_set_alive_same _ _ Hget) as Hrev.
  repeat split.
  - exact Hrev.
  - intros k Hk. apply Map_get_set_alive_other; exact Hk.
  - apply keys_set_alive.
  - unfold tick; simpl.
    destruct (sweep T (timeout h) now (set_alive (clientMap h) s))
      as [m fx] eqn:Es. simpl.
    change m with (fst (m, fx)). rewrite <- Es.
    apply (Map_get_sweep_alive T (timeout h) now _ _ Hrev). reflexivity.
  - unfold tick; simpl.
    destruct (sweep T (timeout h) now (set_alive (clientMap h) s))
      as [m fx] eqn:Es. simpl.
    change fx with (snd (m, fx)). rewrite <- Es. intros Hin.
    apply sweep_terminated in Hin. destruct Hin as (e' & Hin & Ha & _).
    apply In_Map_get in Hin;
      [|rewrite keys_set_alive; exact Hwf].
    rewrite Hrev in Hin. inversion Hin; subst e'. discriminate.
Qed.

Lemma markAlive_repeated_is_markAlive_once_witness :
  markAlive_times 3 Scenario.two_clients 2 = markAlive Scenario.two_clients 2
  /\ Map_has (clientMap (fst (tick Scenario.calm
                (markAlive_times 3 Scenario.two_clients 2) 99999))) 2 = true.
Proof.
  assert (wf Scenario.two_clients) as Hwf.
  { unfold wf; simpl. repeat constructor; simpl; intuition discriminate. }
  destruct (@markAlive_repeated_is_markAlive_once Scenario.calm
              Scenario.two_clients 2%nat
              {| isAlive := true; lastPingSentAt := 40; ip := js "10.0.0.2" |}
              3%nat 99999%Z Hwf eq_refl) as (H1 & _ & _ & _ & _ & H6 & _).
  - lia.
  - split; [exact H1|]. unfold Map_has. rewrite H6. reflexivity.
Defined.

(** C10.  An acknowledgment for a socket that has no entry ([markAlive], or
    a ['pong'] event reaching the listeners left on the socket) returns
    the manager as it was: no entry is created.  A socket has no entry in
    a fresh manager, after [unregister], and after the sweep terminated
    it, so a removed connection is not put back by a late
    acknowledgment. *)
Theorem acknowledgment_of_absent_socket_changes_nothing :
  forall (T : Transport) (h : Manager) (s : Socket) (now : Z),
    wf h ->
    (Map_get (clientMap h) s = None ->
       markAlive h s = h /\ onPong h s = h)
    /\ (markAlive (unregister h s) s = unregister h s
        /\ onPong (unregister h s) s = unregister h s)
    /\ (In s (Trace.terminated (snd (tick T h now))) ->
        Map_has (clientMap (fst (tick T h now))) s = false
        /\ markAlive (fst (tick T h now)) s = fst (tick T h now)
        /\ onPong (fst (tick T h now)) s = fst (tick T h now))
    /\ (forall i t, markAlive (createHeartbeatManager i t) s
                    = createHeartbeatManager i t
                    /\ onPong (createHeartbeatManager i t) s
                       = createHeartbeatManager i t).
Proof.
  intros T h s now Hwf.
  assert (forall h', Map_get (clientMap h') s = None ->
                     markAlive h' s = h' /\ onPong h' s = h') as Habs.
  { intros h' Hn. split; [apply markAlive_absent|apply onPong_absent];
      exact Hn. }
  split; [apply Habs|]. split; [|split].
  - apply Habs. unfold unregister, with_map; simpl.
    apply Map_get_delete_same; exact Hwf.
  - unfold tick.
    destruct (sweep T (timeout h) now (clientMap h)) as [m fx] eqn:Es.
    simpl. intros Hin.
    assert (Map_get m s = None) as Hn.
    { change m with (fst (m, fx)). rewrite <- Es.
      apply sweep_terminated_absent; [exact Hwf|].
      rewrite Es; exact Hin. }
    split; [unfold Map_has; rewrite Hn; reflexivity|].
    apply Habs; exact Hn.
  - intros i t. apply Habs. reflexivity.
Qed.

Lemma acknowledgment_of_absent_socket_changes_nothing_witness :
  markAlive Scenario.two_clients 7 = Scenario.two_clients
  /\ onPong Scenario.two_clients 7 = Scenario.two_clients
  /\ onPong (unregister Scenario.two_clients 2) 2
     = unregister Scenario.two_clients 2.
Proof.
  assert (wf Scenario.two_clients) as Hwf.
  { unfold wf; simpl. repeat constructor; simpl; intuition discriminate. }
  destruct (@acknowledgment_of_absent_socket_changes_nothing Scenario.calm
              Scenario.two_clients 7%nat 0%Z Hwf) as (H1 & _).
  destruct (@acknowledgment_of_absent_socket_changes_nothing Scenario.calm
              Scenario.two_clients 2%nat 0%Z Hwf) as (_ & H2 & _).
  destruct (H1 eq_refl) as [Ha Hb]. destruct H2 as [_ Hc]. auto.
Defined.

(* ===================================================================== *)
(** ** Facts about the broadcast relay                                    *)
(* ===================================================================== *)

Section TraceFacts.

Lemma sends_app fx fx' :
  Trace.sends (fx ++ fx') = Trace.sends fx ++ Trace.sends fx'.
Proof.
  induction fx as [|x fx IH]; simpl; [reflexivity|].
  destruct x; simpl; rewrite ?IH; reflexivity.
Qed.

Lemma delivered_app fx fx' :
  Trace.delivered (fx ++ fx')
  = Trace.delivered fx ++ Trace.delivered fx'.
Proof.
  induction fx as [|x fx IH]; simpl; [reflexivity|].
  destruct x as [s d [err|]| | | | |]; simpl; rewrite ?IH; reflexivity.
Qed.

Lemma previews_app fx fx' :
  Trace.previews (fx ++ fx') = Trace.previews fx ++ Trace.previews fx'.
Proof.
  induction fx as [|x fx IH]; simpl; [reflexivity|].
  destruct x as [| | |r| |]; simpl; rewrite ?IH; try reflexivity.
  destruct r; simpl; rewrite ?IH; reflexivity.
Qed.

Lemma recipients_sends fx : Trace.recipients fx = map fst (Trace.sends fx).
Proof.
  induction fx as [|x fx IH]; simpl; [reflexivity|].
  destruct x; simpl; rewrite ?IH; reflexivity.
Qed.

End TraceFacts.

Section RelayFacts.

Variables (P : Platform) (T : Transport).

Lemma fanout_cons sender outgoing client rest :
  Broadcast.fanout T sender outgoing (client :: rest) =
  if Nat.eqb client sender then Broadcast.fanout T sender outgoing rest
  else if negb (is_open (readyState T client))
  then Broadcast.fanout T sender outgoing rest
  else match send_throws T client outgoing with
       | None =>
           (S (fst (Broadcast.fanout T sender outgoing rest)),
            Send client outgoing None
              :: snd (Broadcast.fanout T sender outgoing rest))
       | Some err =>
           (fst (Broadcast.fanout T sender outgoing rest),
            Send client outgoing (Some err)
              :: LogError (ForwardFailed err)
              :: snd (Broadcast.fanout T sender outgoing rest))
       end.
Proof.
  simpl. destruct (Broadcast.fanout T sender outgoing rest) as [n fx].
  destruct (Nat.eqb client sender); [reflexivity|].
  destruct (negb (is_open (readyState T client))); [reflexivity|].
  destruct (send_throws T client outgoing); reflexivity.
Qed.

(** The send calls of the second loop: one per eligible client, each with
    the same outgoing string, in the order of the set. *)
Lemma fanout_sends sender outgoing clients :
  Trace.sends (snd (Broadcast.fanout T sender outgoing clients))
  = map (fun c => (c, outgoing)) (eligible T sender clients).
Proof.
  induction clients as [|c rest IH]; [reflexivity|].
  rewrite fanout_cons. unfold eligible in *. simpl filter.
  destruct (Nat.eqb c sender); simpl; [exact IH|].
  destruct (is_open (readyState T c)); simpl; [|exact IH].
  destruct (send_throws T c outgoing); simpl; rewrite IH; reflexivity.
Qed.

Lemma fanout_delivered sender outgoing clients :
  Trace.delivered (snd (Broadcast.fanout T sender outgoing clients))
  = map (fun c => (c, outgoing))
        (filter (fun c => match send_throws T c outgoing with
                          | None => true
                          | Some _ => false
                          end)
                (eligible T sender clients)).
Proof.
  induction clients as [|c rest IH]; [reflexivity|].
  rewrite fanout_cons. unfold eligible in *. simpl filter.
  destruct (Nat.eqb c sender); simpl; [exact IH|].
  destruct (is_open (readyState T c)); simpl; [|exact IH].
  destruct (send_throws T c outgoing); simpl; rewrite IH; reflexivity.
Qed.

Lemma fanout_count sender outgoing clients :
  fst (Broadcast.fanout T sender outgoing clients)
  = List.length
      (Trace.delivered (snd (Broadcast.fanout T sender outgoing clients))).
Proof.
  induction clients as [|c rest IH]; [reflexivity|].
  rewrite fanout_cons.
  destruct (Nat.eqb c sender); [exact IH|].
  destruct (negb (is_open (readyState T c))); [exact IH|].
  destruct (send_throws T c outgoing); simpl; rewrite IH; reflexivity.
Qed.

Lemma fanout_previews sender outgoing clients :
  Trace.previews (snd (Broadcast.fanout T sender outgoing clients)) = [].
Proof.
  induction clients as [|c rest IH]; [reflexivity|].
  rewrite fanout_cons.
  destruct (Nat.eqb c sender); [exact IH|].
  destruct (negb (is_open (readyState T c))); [exact IH|].
  destruct (send_throws T c outgoing); simpl; exact IH.
Qed.

Lemma broadcast_unfold sender senderIp (rawData : Buffer P) clients :
  Broadcast.broadcast P T sender senderIp rawData clients
  = snd (Broadcast.fanout T sender (Broadcast.outgoing_of P rawData) clients)
    ++ [LogInfo
          (BroadcastSummary senderIp
             (fst (Broadcast.fanout T sender
                     (Broadcast.outgoing_of P rawData) clients))
             (Broadcast.totalOnline_of T clients)
             (Broadcast.preview_of (Broadcast.outgoing_of P rawData)))].
Proof.
  unfold Broadcast.broadcast.
  destruct (Broadcast.fanout T sender (Broadcast.outgoing_of P rawData)
                             clients); reflexivity.
Qed.

Lemma broadcast_sends sender senderIp (rawData : Buffer P) clients :
  Trace.sends (Broadcast.broadcast P T sender senderIp rawData clients)
  = map (fun c => (c, Broadcast.outgoing_of P rawData))
        (eligible T sender clients).
Proof.
  rewrite broadcast_unfold, sends_app, fanout_sends. simpl.
  apply app_nil_r.
Qed.

Lemma broadcast_delivered sender senderIp (rawData : Buffer P) clients :
  Trace.delivered (Broadcast.broadcast P T sender senderIp rawData clients)
  = map (fun c => (c, Broadcast.outgoing_of P rawData))
        (filter (fun c =>
                   match send_throws T c (Broadcast.outgoing_of P rawData)
                   with None => true | Some _ => false end)
                (eligible T sender clients)).
Proof.
  rewrite broadcast_unfold, delivered_app, fanout_delivered. simpl.
  apply app_nil_r.
Qed.

Lemma broadcast_previews sender senderIp (rawData : Buffer P) clients :
  Trace.previews (Broadcast.broadcast P T sender senderIp rawData clients)
  = [Broadcast.preview_of (Broadcast.outgoing_of P rawData)].
Proof.
  rewrite broadcast_unfold, previews_app, fanout_previews. reflexivity.
Qed.


Lemma eligible_spec sender clients c :
  In c (eligible T sender clients)
  <-> In c clients /\ c <> sender /\ readyState T c = OPEN.
Proof.
  unfold eligible. rewrite filter_In, andb_true_iff, negb_true_iff,
    Nat.eqb_neq.
  destruct (readyState T c); simpl; intuition congruence.
Qed.

End RelayFacts.

(** On the reference platform a payload of ASCII bytes decodes to the
    string of the same code units: what the relay sends for such a payload
    that is not JSON has, unit for unit, the bytes received. *)
Lemma ascii_payload_decodes_to_itself (bs : list N) :
  Forall (fun b => (b <= 127)%N) bs -> Reference.toString_utf8 bs = bs.
Proof.
  unfold Reference.toString_utf8.
  induction bs as [|b bs IH]; intros Hall; [reflexivity|].
  inversion Hall as [|? ? Hb Hbs]; subst.
  cbn [Reference.utf8_points Reference.utf8_init Reference.bytesNeeded].
  unfold Reference.utf8_lead.
  replace (b <=? 127)%N with true by (symmetry; apply N.leb_le; exact Hb).
  cbn [app flat_map]. unfold Reference.utf16_units at 1.
  replace (b <? 65536)%N with true by (symmetry; apply N.ltb_lt; lia).
  simpl app. f_equal. apply IH; exact Hbs.
Qed.

Lemma str_eqb_eq (a b : JSString) : str_eqb a b = true <-> a = b.
Proof.
  unfold str_eqb. destruct (list_eq_dec N.eq_dec a b); split;
    intros; congruence.
Qed.

Lemma str_eqb_neq (a b : JSString) : str_eqb a b = false <-> a <> b.
Proof.
  unfold str_eqb. destruct (list_eq_dec N.eq_dec a b); split;
    intros; congruence.
Qed.

(* ===================================================================== *)
(** ** The reference decoder and encoder of UTF-8                         *)
(* ===================================================================== *)

Section Utf8Facts.

Import Reference.
Local Open Scope N_scope.

Lemma in_byte_range (lo len : nat) (b : N) :
  N.of_nat lo <= b < N.of_nat (lo + len) -> In b (byte_range lo len).
Proof.
  intros Hb. apply in_map_iff. exists (N.to_nat b).
  split; [apply N2Nat.id|]. apply in_seq. lia.
Qed.

Lemma between_spec (lo hi b : N) :
  between lo hi b = true <-> lo <= b <= hi.
Proof.
  unfold between. rewrite andb_true_iff, !N.leb_le. tauto.
Qed.

(** The sequences of two and of three bytes, checked one by one. *)
Lemma two_byte_sequences :
  forallb (fun b0 =>
    forallb (fun b1 => plain (cp2 b0 b1) [b0; b1]) (byte_range 0x80 64))
    (byte_range 0xC2 30) = true.
Proof. vm_compute. reflexivity. Qed.

Lemma three_byte_sequences :
  forallb (fun b0 =>
    forallb (fun b1 =>
      forallb (fun b2 =>
        implb (between (if b0 =? 0xE0 then 0xA0 else 0x80)
                       (if b0 =? 0xED then 0x9F else 0xBF) b1)
              (plain (cp3 b0 b1 b2) [b0; b1; b2]))
        (byte_range 0x80 64)) (byte_range 0x80 64)) (byte_range 0xE0 16)
  = true.
Proof. vm_compute. reflexivity. Qed.

Lemma plain_two (b0 b1 : N) :
  between 0xC2 0xDF b0 = true -> between 0x80 0xBF b1 = true ->
  plain (cp2 b0 b1) [b0; b1] = true.
Proof.
  intros H0 H1. apply between_spec in H0. apply between_spec in H1.
  pose proof two_byte_sequences as H. rewrite forallb_forall in H.
  specialize (H b0 (@in_byte_range 0xC2 30 b0 ltac:(simpl; lia))).
  rewrite forallb_forall in H.
  exact (H b1 (@in_byte_range 0x80 64 b1 ltac:(simpl; lia))).
Qed.

Lemma plain_three (b0 b1 b2 : N) :
  between 0xE0 0xEF b0 = true ->
  between (if b0 =? 0xE0 then 0xA0 else 0x80)
          (if b0 =? 0xED then 0x9F else 0xBF) b1 = true ->
  between 0x80 0xBF b2 = true ->
  plain (cp3 b0 b1 b2) [b0; b1; b2] = true.
Proof.
  intros H0 H1 H2. apply between_spec in H0. apply between_spec in H2.
  assert (0x80 <= b1 <= 0xBF) as H1'.
  { apply between_spec in H1.
    destruct (b0 =? 0xE0), (b0 =? 0xED); lia. }
  pose proof three_byte_sequences as H. rewrite forallb_forall in H.
  specialize (H b0 (@in_byte_range 0xE0 16 b0 ltac:(simpl; lia))).
  rewrite forallb_forall in H.
  specialize (H b1 (@in_byte_range 0x80 64 b1 ltac:(simpl; lia))).
  rewrite forallb_forall in H.
  specialize (H b2 (@in_byte_range 0x80 64 b2 ltac:(simpl; lia))).
  rewrite H1 in H. exact H.
Qed.

(** Six more bits at the end of a number. *)
Lemma concat_bits (a r n : N) :
  r < 2 ^ n -> N.lor (N.shiftl a n) r = a * 2 ^ n + r.
Proof.
  intros Hr. rewrite N.shiftl_mul_pow2.
  assert (N.land (a * 2 ^ n) r = 0) as Hl.
  { apply N.bits_inj_0. intros m. rewrite N.land_spec.
    destruct (N.lt_ge_cases m n) as [Hm|Hm].
    - rewrite N.mul_pow2_bits_low by exact Hm. reflexivity.
    - replace (N.testbit r m) with false; [apply andb_false_r|].
      symmetry. destruct (N.eq_dec r 0) as [->|Hr0]; [apply N.bits_0|].
      apply N.bits_above_log2. apply N.log2_lt_pow2 in Hr; lia. }
  rewrite <- N.lxor_lor by exact Hl. symmetry.
  apply N.add_nocarry_lxor. exact Hl.
Qed.

(** The four-byte sequences, by arithmetic: the code point is the number
    written by the three low bits of the first byte and the six low bits
    of each of the others. *)
Lemma cp4_value (b0 b1 b2 b3 : N) :
  cp4 b0 b1 b2 b3
  = ((b0 mod 8 * 64 + b1 mod 64) * 64 + b2 mod 64) * 64 + b3 mod 64.
Proof.
  unfold cp4.
  change 0x7 with (N.ones 3). change 0x3F with (N.ones 6).
  rewrite !N.land_ones.
  rewrite !concat_bits by (apply N.mod_lt; discriminate).
  reflexivity.
Qed.

Lemma four_byte_arithmetic (b0 b1 b2 b3 : N) :
  0xF0 <= b0 <= 0xF4 -> 0x80 <= b1 <= 0xBF ->
  0x80 <= b2 <= 0xBF -> 0x80 <= b3 <= 0xBF ->
  (b0 = 0xF0 -> 0x90 <= b1) -> (b0 = 0xF4 -> b1 <= 0x8F) ->
  0x10000 <= cp4 b0 b1 b2 b3 <= 0x10FFFF
  /\ 0xF0 + cp4 b0 b1 b2 b3 / 262144 = b0
  /\ 0x80 + (cp4 b0 b1 b2 b3 / 4096) mod 64 = b1
  /\ 0x80 + (cp4 b0 b1 b2 b3 / 64) mod 64 = b2
  /\ 0x80 + cp4 b0 b1 b2 b3 mod 64 = b3
  /\ (cp4 b0 b1 b2 b3 - 0x10000) / 1024 <= 0x3FF
  /\ 0x10000 + (cp4 b0 b1 b2 b3 - 0x10000) / 1024 * 0x400
     + (cp4 b0 b1 b2 b3 - 0x10000) mod 1024 = cp4 b0 b1 b2 b3.
Proof.
  intros H0 H1 H2 H3 Hlo Hhi. rewrite cp4_value.
  repeat split; zify; Z.to_euclidean_division_equations; lia.
Qed.

Lemma paired_four (b0 b1 b2 b3 : N) :
  between 0xF0 0xF4 b0 = true ->
  between (if b0 =? 0xF0 then 0x90 else 0x80)
          (if b0 =? 0xF4 then 0x8F else 0xBF) b1 = true ->
  between 0x80 0xBF b2 = true -> between 0x80 0xBF b3 = true ->
  paired (cp4 b0 b1 b2 b3) [b0; b1; b2; b3] = true.
Proof.
  intros H0 H1 H2 H3. apply between_spec in H0. apply between_spec in H2.
  apply between_spec in H3. apply between_spec in H1.
  assert (0x80 <= b1 <= 0xBF) as H1'
    by (destruct (b0 =? 0xF0), (b0 =? 0xF4); lia).
  assert (b0 = 0xF0 -> 0x90 <= b1) as Hlo
    by (intros ->; cbn in H1; lia).
  assert (b0 = 0xF4 -> b1 <= 0x8F) as Hhi
    by (intros ->; cbn in H1; lia).
  destruct (@four_byte_arithmetic b0 b1 b2 b3 H0 H1' H2 H3 Hlo Hhi)
    as (Hr & E0 & E1 & E2 & E3 & Hq & Ecp).
  revert Hr E0 E1 E2 E3 Hq Ecp. generalize (cp4 b0 b1 b2 b3). intros cp.
  intros Hr E0 E1 E2 E3 Hq Ecp.
  unfold paired, utf16_units.
  replace (cp <? 0x10000) with false by (symmetry; apply N.ltb_ge; lia).
  rewrite N.shiftr_div_pow2. change 0x3FF with (N.ones 10).
  rewrite N.land_ones. change (2 ^ 10) with 1024.
  assert ((cp - 0x10000) mod 1024 < 1024) as Hm
    by (apply N.mod_lt; discriminate).
  assert (is_high (0xD800 + (cp - 0x10000) / 1024) = true) as Hh.
  { unfold is_high. apply andb_true_iff. rewrite !N.leb_le.
    revert Hq. generalize ((cp - 0x10000) / 1024). intros q Hq. lia. }
  assert (is_low (0xDC00 + (cp - 0x10000) mod 1024) = true) as Hl.
  { unfold is_low. apply andb_true_iff. rewrite !N.leb_le.
    revert Hm. generalize ((cp - 0x10000) mod 1024). intros m Hm. lia. }
  rewrite Hh, Hl. cbn [negb andb].
  replace (0x10000 + (0xD800 + (cp - 0x10000) / 1024 - 0xD800) * 0x400
           + (0xDC00 + (cp - 0x10000) mod 1024 - 0xDC00)) with cp
    by (rewrite <- Ecp at 1;
        rewrite !(N.add_comm 0xD800), !(N.add_comm 0xDC00), !N.add_sub;
        reflexivity).
  apply str_eqb_eq. unfold utf8_bytes.
  replace (cp <? 0x80) with false by (symmetry; apply N.ltb_ge; lia).
  replace (cp <? 0x800) with false by (symmetry; apply N.ltb_ge; lia).
  replace (cp <? 0x10000) with false by (symmetry; apply N.ltb_ge; lia).
  rewrite !N.shiftr_div_pow2. change 0x3F with (N.ones 6).
  rewrite !N.land_ones.
  change (2 ^ 18) with 262144. change (2 ^ 12) with 4096.
  change (2 ^ 6) with 64.
  rewrite E0, E1, E2, E3. reflexivity.
Qed.

(** The encoder on a string that starts with a plain code unit, and with
    a surrogate pair. *)
Lemma utf8_encode_plain (cp : N) (bs : list N) (rest : JSString) :
  plain cp bs = true ->
  utf8_encode (utf16_units cp ++ rest) = bs ++ utf8_encode rest.
Proof.
  unfold plain. rewrite !andb_true_iff, !negb_true_iff.
  intros (((Hlt & Hh) & Hl) & Hb). apply str_eqb_eq in Hb.
  unfold utf16_units. rewrite Hlt. cbn [app utf8_encode].
  rewrite Hh, Hl, Hb. reflexivity.
Qed.

Lemma utf8_encode_paired (cp : N) (bs : list N) (rest : JSString) :
  paired cp bs = true ->
  utf8_encode (utf16_units cp ++ rest) = bs ++ utf8_encode rest.
Proof.
  unfold paired. destruct (utf16_units cp) as [|hi [|lo [|? ?]]];
    try discriminate.
  rewrite !andb_true_iff. intros (((_ & Hh) & Hl) & Hb).
  apply str_eqb_eq in Hb. cbn [app utf8_encode].
  rewrite Hh, Hl, Hb. reflexivity.
Qed.

(** The decoder on a well-formed sequence followed by anything. *)
Lemma utf8_lead_two (b0 : N) :
  between 0xC2 0xDF b0 = true ->
  utf8_lead b0
  = ([], {| codePoint := N.land b0 0x1F; bytesNeeded := 1;
            lowerBoundary := 0x80; upperBoundary := 0xBF |}).
Proof.
  intros H. unfold utf8_lead.
  pose proof (proj1 (@between_spec _ _ _) H) as Hr.
  replace (b0 <=? 0x7F) with false by (symmetry; apply N.leb_gt; lia).
  change ((0xC2 <=? b0) && (b0 <=? 0xDF)) with (between 0xC2 0xDF b0).
  rewrite H. reflexivity.
Qed.

Lemma utf8_lead_three (b0 : N) :
  between 0xE0 0xEF b0 = true ->
  utf8_lead b0
  = ([], {| codePoint := N.land b0 0xF; bytesNeeded := 2;
            lowerBoundary := if b0 =? 0xE0 then 0xA0 else 0x80;
            upperBoundary := if b0 =? 0xED then 0x9F else 0xBF |}).
Proof.
  intros H. unfold utf8_lead.
  pose proof (proj1 (@between_spec _ _ _) H) as Hr.
  replace (b0 <=? 0x7F) with false by (symmetry; apply N.leb_gt; lia).
  replace ((0xC2 <=? b0) && (b0 <=? 0xDF)) with false
    by (symmetry; apply andb_false_iff; right; apply N.leb_gt; lia).
  change ((0xE0 <=? b0) && (b0 <=? 0xEF)) with (between 0xE0 0xEF b0).
  rewrite H. reflexivity.
Qed.

Lemma utf8_lead_four (b0 : N) :
  between 0xF0 0xF4 b0 = true ->
  utf8_lead b0
  = ([], {| codePoint := N.land b0 0x7; bytesNeeded := 3;
            lowerBoundary := if b0 =? 0xF0 then 0x90 else 0x80;
            upperBoundary := if b0 =? 0xF4 then 0x8F else 0xBF |}).
Proof.
  intros H. unfold utf8_lead.
  pose proof (proj1 (@between_spec _ _ _) H) as Hr.
  replace (b0 <=? 0x7F) with false by (symmetry; apply N.leb_gt; lia).
  replace ((0xC2 <=? b0) && (b0 <=? 0xDF)) with false
    by (symmetry; apply andb_false_iff; right; apply N.leb_gt; lia).
  replace ((0xE0 <=? b0) && (b0 <=? 0xEF)) with false
    by (symmetry; apply andb_false_iff; right; apply N.leb_gt; lia).
  change ((0xF0 <=? b0) && (b0 <=? 0xF4)) with (between 0xF0 0xF4 b0).
  rewrite H. reflexivity.
Qed.

Lemma utf8_points_one (b0 : N) (rest : list N) :
  (b0 <=? 0x7F) = true ->
  utf8_points utf8_init (b0 :: rest) = b0 :: utf8_points utf8_init rest.
Proof.
  intros H. cbn [utf8_points utf8_init bytesNeeded]. unfold utf8_lead.
  rewrite H. reflexivity.
Qed.

Lemma utf8_points_two (b0 b1 : N) (rest : list N) :
  between 0xC2 0xDF b0 = true -> between 0x80 0xBF b1 = true ->
  utf8_points utf8_init (b0 :: b1 :: rest)
  = cp2 b0 b1 :: utf8_points utf8_init rest.
Proof.
  intros H0 H1. cbn [utf8_points utf8_init bytesNeeded].
  rewrite (@utf8_lead_two b0 H0).
  cbn [app utf8_points bytesNeeded lowerBoundary upperBoundary codePoint].
  change ((0x80 <=? b1) && (b1 <=? 0xBF)) with (between 0x80 0xBF b1).
  rewrite H1. reflexivity.
Qed.

Lemma utf8_points_three (b0 b1 b2 : N) (rest : list N) :
  between 0xE0 0xEF b0 = true ->
  between (if b0 =? 0xE0 then 0xA0 else 0x80)
          (if b0 =? 0xED then 0x9F else 0xBF) b1 = true ->
  between 0x80 0xBF b2 = true ->
  utf8_points utf8_init (b0 :: b1 :: b2 :: rest)
  = cp3 b0 b1 b2 :: utf8_points utf8_init rest.
Proof.
  intros H0 H1 H2. cbn [utf8_points utf8_init bytesNeeded].
  rewrite (@utf8_lead_three b0 H0).
  cbn [app utf8_points bytesNeeded lowerBoundary upperBoundary codePoint].
  unfold between in H1. rewrite H1.
  change ((0x80 <=? b2) && (b2 <=? 0xBF)) with (between 0x80 0xBF b2).
  rewrite H2. reflexivity.
Qed.

Lemma utf8_points_four (b0 b1 b2 b3 : N) (rest : list N) :
  between 0xF0 0xF4 b0 = true ->
  between (if b0 =? 0xF0 then 0x90 else 0x80)
          (if b0 =? 0xF4 then 0x8F else 0xBF) b1 = true ->
  between 0x80 0xBF b2 = true -> between 0x80 0xBF b3 = true ->
  utf8_points utf8_init (b0 :: b1 :: b2 :: b3 :: rest)
  = cp4 b0 b1 b2 b3 :: utf8_points utf8_init rest.
Proof.
  intros H0 H1 H2 H3. cbn [utf8_points utf8_init bytesNeeded].
  rewrite (@utf8_lead_four b0 H0).
  cbn [app utf8_points bytesNeeded lowerBoundary upperBoundary codePoint].
  unfold between in H1. rewrite H1.
  change ((0x80 <=? b2) && (b2 <=? 0xBF)) with (between 0x80 0xBF b2).
  rewrite H2.
  change ((0x80 <=? b3) && (b3 <=? 0xBF)) with (between 0x80 0xBF b3).
  rewrite H3. reflexivity.
Qed.

(** Decoding well-formed UTF-8 and encoding the string again gives the
    bytes back. *)
Lemma well_formed_round_trip (bs : list N) :
  well_formed bs = true -> utf8_encode (toString_utf8 bs) = bs.
Proof.
  remember (List.length bs) as n eqn:Hn.
  revert bs Hn. induction n as [n IH] using lt_wf_ind. intros bs Hn Hwf.
  destruct bs as [|b0 r0]; [reflexivity|].
  cbn [well_formed] in Hwf. unfold toString_utf8.
  destruct (b0 <=? 0x7F) eqn:E1.
  { rewrite (@utf8_points_one b0 r0 E1). cbn [flat_map].
    rewrite (@utf8_encode_plain b0 [b0] _).
    - cbn [app]. f_equal.
      apply (IH (List.length r0)); [subst n; simpl; lia|reflexivity|exact Hwf].
    - apply N.leb_le in E1. unfold plain, is_high, is_low, utf8_bytes.
      replace (b0 <? 0x10000) with true by (symmetry; apply N.ltb_lt; lia).
      replace (0xD800 <=? b0) with false by (symmetry; apply N.leb_gt; lia).
      replace (0xDC00 <=? b0) with false by (symmetry; apply N.leb_gt; lia).
      replace (b0 <? 0x80) with true by (symmetry; apply N.ltb_lt; lia).
      cbn [andb negb]. apply str_eqb_eq. reflexivity. }
  destruct (between 0xC2 0xDF b0) eqn:E2.
  { destruct r0 as [|b1 r1]; [discriminate Hwf|].
    apply andb_true_iff in Hwf. destruct Hwf as (H1 & Hwf).
    rewrite (@utf8_points_two b0 b1 r1 E2 H1). cbn [flat_map].
    rewrite (@utf8_encode_plain _ [b0; b1] _ (@plain_two b0 b1 E2 H1)).
    cbn [app]. do 2 f_equal.
    apply (IH (List.length r1)); [subst n; simpl; lia|reflexivity|exact Hwf]. }
  destruct (between 0xE0 0xEF b0) eqn:E3.
  { destruct r0 as [|b1 [|b2 r2]]; try discriminate Hwf.
    apply andb_true_iff in Hwf. destruct Hwf as (H12 & Hwf).
    apply andb_true_iff in H12. destruct H12 as (H1 & H2).
    rewrite (@utf8_points_three b0 b1 b2 r2 E3 H1 H2). cbn [flat_map].
    rewrite (@utf8_encode_plain _ [b0; b1; b2] _
               (@plain_three b0 b1 b2 E3 H1 H2)).
    cbn [app]. do 3 f_equal.
    apply (IH (List.length r2)); [subst n; simpl; lia|reflexivity|exact Hwf]. }
  destruct (between 0xF0 0xF4 b0) eqn:E4; [|discriminate Hwf].
  destruct r0 as [|b1 [|b2 [|b3 r3]]]; try discriminate Hwf.
  apply andb_true_iff in Hwf. destruct Hwf as (H123 & Hwf).
  apply andb_true_iff in H123. destruct H123 as (H12 & H3).
  apply andb_true_iff in H12. destruct H12 as (H1 & H2).
  rewrite (@utf8_points_four b0 b1 b2 b3 r3 E4 H1 H2 H3). cbn [flat_map].
  rewrite (@utf8_encode_paired _ [b0; b1; b2; b3] _
             (@paired_four b0 b1 b2 b3 E4 H1 H2 H3)).
  cbn [app]. do 4 f_equal.
  apply (IH (List.length r3)); [subst n; simpl; lia|reflexivity|exact Hwf].
Qed.

End Utf8Facts.

(* ===================================================================== *)
(** ** Broadcast relay: the claims                                        *)
(* ===================================================================== *)

(** C6.  Whatever the sender, the payload, the set of clients and the state
    of the transport, the relay never calls [send] on the sender: the
    sockets it sends to are exactly the open clients other than the
    sender. *)
Theorem sender_is_never_a_recipient :
  forall (P : Platform) (T : Transport) (sender : Socket)
         (senderIp : JSString) (rawData : Buffer P) (clients : list Socket),
    ~ In sender
         (Trace.recipients
            (Broadcast.broadcast P T sender senderIp rawData clients))
    /\ Trace.recipients
         (Broadcast.broadcast P T sender senderIp rawData clients)
       = eligible T sender clients.
Proof.
  intros P T sender senderIp rawData clients.
  assert (Trace.recipients
            (Broadcast.broadcast P T sender senderIp rawData clients)
          = eligible T sender clients) as Heq.
  { rewrite recipients_sends, broadcast_sends, map_map. simpl.
    apply map_id. }
  split; [|exact Heq].
  rewrite Heq, eligible_spec. intros (_ & Hne & _). apply Hne; reflexivity.
Qed.

Lemma sender_is_never_a_recipient_witness :
  Trace.recipients
    (Broadcast.broadcast Reference.platform Scenario.calm 2 (js "10.0.0.2")
       (Reference.payload "{'type':'chat'}") [1; 2; 3]%nat)
  = [1; 3]%nat.
Proof.
  destruct (@sender_is_never_a_recipient Reference.platform Scenario.calm
              2%nat (js "10.0.0.2") (Reference.payload "{'type':'chat'}")
              [1; 2; 3]%nat) as [_ H].
  rewrite H. reflexivity.
Defined.

(** C8, as stated, fails for a payload that is not well-formed UTF-8, as a
    binary frame can hold: the byte [FF] is no JSON, is decoded to U+FFFD
    and reaches client 2 as the three bytes [EF BF BD]. *)
Lemma ill_formed_bytes_are_not_forwarded_verbatim :
  JSON_parse Reference.platform (Reference.toString_utf8 [0xFF%N]) = None
  /\ Trace.sends
       (Broadcast.broadcast Reference.platform Scenario.calm 1
                            (js "10.0.0.1") [0xFF%N] [1; 2]%nat)
     = [(2%nat, [0xFFFD%N])]
  /\ frames (Broadcast.broadcast Reference.platform Scenario.calm 1
                                 (js "10.0.0.1") [0xFF%N] [1; 2]%nat)
     = [(2%nat, [0xEF; 0xBF; 0xBD]%N)]
  /\ ~ forwards_the_original_bytes.
Proof.
  split; [reflexivity|]. split; [reflexivity|]. split; [reflexivity|].
  intros H.
  specialize (H Scenario.calm 1%nat (js "10.0.0.1") [0xFF%N] [1; 2]%nat
                eq_refl).
  vm_compute in H. discriminate H.
Qed.

(** C8, amended.  When the payload does not decode (and also when it
    decodes to a value that [JSON.stringify] throws on), the string sent
    is the text [rawData.toString('utf8')] of the payload, unchanged:
    [send] is called with it, once, on every open client other than the
    sender, and it is delivered wherever the call does not throw.  When
    the payload is well-formed UTF-8, as every text frame is, the bytes
    that reach the recipients are the bytes received; ill-formed bytes
    are replaced by U+FFFD in the decoding.  For every payload there is
    one summary line; its preview is the outgoing string when that has at
    most 200 code units, and its first 200 code units followed by the
    seven-unit marker when it is longer. *)
Theorem undecodable_payload_is_forwarded_verbatim :
  forall (P : Platform) (T : Transport) (sender : Socket)
         (senderIp : JSString) (rawData : Buffer P) (clients : list Socket),
    (forall bs : list N,
       JSON_parse Reference.platform (Reference.toString_utf8 bs) = None ->
       Reference.well_formed bs = true ->
       Reference.utf8_encode (Reference.toString_utf8 bs) = bs
       /\ frames (Broadcast.broadcast Reference.platform T sender senderIp
                                      bs clients)
          = map (fun c => (c, bs))
                (filter (fun c =>
                           match send_throws T c (Reference.toString_utf8 bs)
                           with None => true | Some _ => false end)
                        (eligible T sender clients)))
    /\ (forall v, JSON_parse P (toString_utf8 P rawData) = Some v ->
                  JSON_stringify_throws P v = true ->
         Trace.sends (Broadcast.broadcast P T sender senderIp rawData clients)
         = map (fun c => (c, toString_utf8 P rawData))
               (eligible T sender clients))
    /\ (JSON_parse P (toString_utf8 P rawData) = None ->
       Trace.sends (Broadcast.broadcast P T sender senderIp rawData clients)
       = map (fun c => (c, toString_utf8 P rawData))
             (eligible T sender clients)
       /\ Trace.delivered
            (Broadcast.broadcast P T sender senderIp rawData clients)
          = map (fun c => (c, toString_utf8 P rawData))
                (filter (fun c =>
                           match send_throws T c (toString_utf8 P rawData)
                           with None => true | Some _ => false end)
                        (eligible T sender clients)))
    /\ ((JS.length (Broadcast.outgoing_of P rawData) <= 200)%nat ->
        Trace.previews
          (Broadcast.broadcast P T sender senderIp rawData clients)
        = [Broadcast.outgoing_of P rawData])
    /\ ((200 < JS.length (Broadcast.outgoing_of P rawData))%nat ->
        Trace.previews
          (Broadcast.broadcast P T sender senderIp rawData clients)
        = [firstn 200 (Broadcast.outgoing_of P rawData)
           ++ Broadcast.truncation_marker]
        /\ Forall (fun p => JS.length p = 207%nat)
             (Trace.previews
                (Broadcast.broadcast P T sender senderIp rawData clients))).
Proof.
  intros P T sender senderIp rawData clients.
  split; [|split; [|split; [|split]]].
  - intros bs Hnone Hwf.
    pose proof (@well_formed_round_trip bs Hwf) as Hrt.
    split; [exact Hrt|].
    unfold frames. rewrite broadcast_delivered, map_map.
    assert (Broadcast.outgoing_of Reference.platform bs
            = Reference.toString_utf8 bs) as Ho.
    { unfold Broadcast.outgoing_of.
      change (toString_utf8 Reference.platform bs)
        with (Reference.toString_utf8 bs).
      rewrite Hnone. reflexivity. }
    rewrite Ho. cbn [fst snd]. rewrite Hrt. reflexivity.
  - intros v Hv Hthrows. rewrite broadcast_sends.
    unfold Broadcast.outgoing_of. rewrite Hv, Hthrows. reflexivity.
  - intros Hnone.
    rewrite broadcast_sends, broadcast_delivered.
    unfold Broadcast.outgoing_of. rewrite Hnone. auto.
  - intros Hle. rewrite broadcast_previews. unfold Broadcast.preview_of.
    destruct (Nat.ltb_spec 200 (JS.length (Broadcast.outgoing_of P rawData)));
      [lia|reflexivity].
  - intros Hlt. rewrite broadcast_previews. unfold Broadcast.preview_of.
    destruct (Nat.ltb_spec 200 (JS.length (Broadcast.outgoing_of P rawData)));
      [|lia].
    split; [reflexivity|]. constructor; [|constructor].
    unfold JS.length, slice0 in *. rewrite length_app, firstn_length_le by lia.
    reflexivity.
Qed.

Lemma undecodable_payload_is_forwarded_verbatim_witness :
  Trace.delivered
    (Broadcast.broadcast Reference.platform Scenario.calm 1 (js "10.0.0.1")
       (Reference.payload "hello, world") [1; 2; 3]%nat)
  = [(2%nat, js "hello, world"); (3%nat, js "hello, world")]
  /\ frames
       (Broadcast.broadcast Reference.platform Scenario.calm 1
          (js "10.0.0.1")
          [0xC3; 0xA9; 0xE2; 0x82; 0xAC; 0xF0; 0x9F; 0x98; 0x80]%N
          [1; 2; 3]%nat)
     = [(2%nat, [0xC3; 0xA9; 0xE2; 0x82; 0xAC; 0xF0; 0x9F; 0x98; 0x80]%N);
        (3%nat, [0xC3; 0xA9; 0xE2; 0x82; 0xAC; 0xF0; 0x9F; 0x98; 0x80]%N)]
  /\ Trace.previews
       (Broadcast.broadcast Reference.platform Scenario.calm 1
          (js "10.0.0.1") (Reference.payload "{'a': 1}") [1; 2; 3]%nat)
     = [Reference.text "{'a':1}"]
  /\ Trace.previews
       (Broadcast.broadcast Reference.platform Scenario.calm 1
          (js "10.0.0.1") (repeat 120%N 300) [1; 2; 3]%nat)
     = [repeat 120%N 200 ++ Broadcast.truncation_marker].
Proof.
  destruct (@undecodable_payload_is_forwarded_verbatim Reference.platform
              Scenario.calm 1%nat (js "10.0.0.1")
              (Reference.payload "hello, world") [1; 2; 3]%nat)
    as (H0 & _ & H1 & _ & _).
  destruct (@undecodable_payload_is_forwarded_verbatim Reference.platform
              Scenario.calm 1%nat (js "10.0.0.1")
              (Reference.payload "{'a': 1}") [1; 2; 3]%nat)
    as (_ & _ & _ & H2 & _).
  destruct (@undecodable_payload_is_forwarded_verbatim Reference.platform
              Scenario.calm 1%nat (js "10.0.0.1")
              (repeat 120%N 300) [1; 2; 3]%nat)
    as (_ & _ & _ & _ & H3).
  split; [|split; [|split]].
  - destruct (H1 eq_refl) as [_ Hd]. rewrite Hd. reflexivity.
  - destruct (H0 [0xC3; 0xA9; 0xE2; 0x82; 0xAC; 0xF0; 0x9F; 0x98; 0x80]%N
                 eq_refl eq_refl) as [_ Hf].
    rewrite Hf. reflexivity.
  - rewrite H2; [reflexivity|]. vm_compute. lia.
  - destruct H3 as [Hp _]; [vm_compute; lia|]. rewrite Hp. reflexivity.
Defined.

(* ===================================================================== *)
(** ** Facts about the session handler                                    *)
(* ===================================================================== *)

Section SessionFacts.

Variables (P : Platform) (T : Transport).


(** The branch taken for a probe. *)
Lemma messageHandler_ping g s ip (rawData : Buffer P) :
  Server.is_ping (JSON_parse P (toString_utf8 P rawData)) = true ->
  Server.messageHandler P T g s ip rawData
  = (Server.with_hbMgr g (markAlive (Server.hbMgr g) s),
     match send_throws T s (Server.pong P) with
     | None => [Send s (Server.pong P) None]
     | Some err => [Send s (Server.pong P) (Some err);
                    LogError (PongReplyFailed ip err)]
     end).
Proof. intros H. unfold Server.messageHandler. rewrite H. reflexivity. Qed.


Lemma markAlive_entry h s :
  Map_get (clientMap (markAlive h s)) s
  = option_map revived (Map_get (clientMap h) s).
Proof.
  unfold markAlive. destruct (Map_get (clientMap h) s) as [e|] eqn:E.
  - simpl. apply Map_get_set_alive_same; exact E.
  - rewrite E. reflexivity.
Qed.

(** What the probe branch does, read off its effects. *)
Lemma intercepted g s ip (rawData : Buffer P) :
  Server.is_ping (JSON_parse P (toString_utf8 P rawData)) = true ->
  fst (Server.messageHandler P T g s ip rawData)
  = Server.with_hbMgr g (markAlive (Server.hbMgr g) s)
  /\ Trace.sends (snd (Server.messageHandler P T g s ip rawData))
     = [(s, Server.pong P)]
  /\ (send_throws T s (Server.pong P) = None ->
      Trace.delivered (snd (Server.messageHandler P T g s ip rawData))
      = [(s, Server.pong P)])
  /\ Trace.broadcasts (snd (Server.messageHandler P T g s ip rawData))
     = 0%nat.
Proof.
  intros H. rewrite (messageHandler_ping g s ip rawData H). simpl.
  destruct (send_throws T s (Server.pong P)); simpl; repeat split;
    try reflexivity; discriminate.
Qed.

End SessionFacts.

(* ===================================================================== *)
(** ** Session handler: the claims                                        *)
(* ===================================================================== *)

(** C5.  When the payload decodes to exactly the object [{"type":"ping"}],
    the handler calls [markAlive] for the socket (a registered entry
    becomes alive, nothing else in the group changes), calls [send] once,
    on the sender, with [JSON.stringify({type:'pong'})], which is delivered
    when the call does not throw, and does not run the relay. *)
Theorem probe_is_answered_and_not_broadcast :
  forall (P : Platform) (T : Transport) (g : Server.Group) (s : Socket)
         (ip : JSString) (rawData : Buffer P),
    JSON_parse P (toString_utf8 P rawData) = Some probe ->
    fst (Server.messageHandler P T g s ip rawData)
    = Server.with_hbMgr g (markAlive (Server.hbMgr g) s)
    /\ Map_get (clientMap
                  (Server.hbMgr
                     (fst (Server.messageHandler P T g s ip rawData)))) s
       = option_map revived (Map_get (clientMap (Server.hbMgr g)) s)
    /\ Trace.sends (snd (Server.messageHandler P T g s ip rawData))
       = [(s, Server.pong P)]
    /\ (send_throws T s (Server.pong P) = None ->
        Trace.delivered (snd (Server.messageHandler P T g s ip rawData))
        = [(s, Server.pong P)])
    /\ Trace.broadcasts (snd (Server.messageHandler P T g s ip rawData))
       = 0%nat.
Proof.
  intros P T g s ip rawData Hparse.
  assert (Server.is_ping (JSON_parse P (toString_utf8 P rawData)) = true)
    as Hping by (rewrite Hparse; reflexivity).
  destruct (@intercepted P T g s ip rawData Hping) as (H1 & H2 & H3 & H4).
  repeat split; auto.
  rewrite H1. simpl. apply markAlive_entry.
Qed.

Lemma probe_is_answered_and_not_broadcast_witness :
  Trace.delivered
    (snd (Server.messageHandler Reference.platform Scenario.calm
            Scenario.room 2 (js "10.0.0.2")
            (Reference.payload " { 'type' : 'ping' } ")))
  = [(2%nat, Reference.text "{'type':'pong'}")]
  /\ Trace.broadcasts
       (snd (Server.messageHandler Reference.platform Scenario.calm
               Scenario.room 2 (js "10.0.0.2")
               (Reference.payload " { 'type' : 'ping' } "))) = 0%nat.
Proof.
  destruct (@probe_is_answered_and_not_broadcast Reference.platform
              Scenario.calm Scenario.room 2%nat (js "10.0.0.2")
              (Reference.payload " { 'type' : 'ping' } ") eq_refl)
    as (_ & _ & _ & H4 & H5).
  split; [|exact H5]. rewrite (H4 eq_refl). reflexivity.
Defined.




(** The [catch] of the relay at work on the reference platform: a payload
    of 4001 nested arrays after a blank decodes, cannot be serialized
    again, and is forwarded as its own text, blank included. *)
Example deep_payload_is_forwarded_as_its_text :
  (exists v,
     JSON_parse Reference.platform
       (toString_utf8 Reference.platform
          (32%N :: repeat 91%N 4001 ++ repeat 93%N 4001)) = Some v
     /\ JSON_stringify_throws Reference.platform v = true)
  /\ Trace.sends
       (Broadcast.broadcast Reference.platform Scenario.calm 1
          (js "10.0.0.1") (32%N :: repeat 91%N 4001 ++ repeat 93%N 4001)
          [1; 2]%nat)
     = [(2%nat, 32%N :: repeat 91%N 4001 ++ repeat 93%N 4001)].
Proof.
  split.
  - eexists. split; vm_compute; reflexivity.
  - vm_compute. reflexivity.
Qed.

(* ===================================================================== *)
(** ** Listeners and start-up                                             *)
(* ===================================================================== *)

Lemma needLoopback_spec (host : JSString) :
  Server.needLoopback host = true <-> ~ literal_local host.
Proof.
  unfold Server.needLoopback, literal_local.
  rewrite !andb_true_iff, !negb_true_iff, !str_eqb_neq. tauto.
Qed.

(** The three literals belong to the two classes: an address of neither
    class is none of them. *)
Lemma literal_local_classes (host : JSString) :
  literal_local host ->
  wildcard_address host = true \/ loopback_address host = true.
Proof.
  intros [->|[->| ->]]; [left|right|right]; reflexivity.
Qed.

(** An upgrade reaching a listener of a group lands in that group: the
    socket joins the clients of its server and is registered with its
    heartbeat manager. *)
Lemma upgrade_head (g : Server.Group) rest (l : Server.Listener) now s ip :
  Server.upgradeTo l = Server.label g ->
  fst (Server.upgrade (g :: rest) l now s ip)
  = {| Server.label := Server.label g;
       Server.httpServers := Server.httpServers g;
       Server.clients := Server.Set_add (Server.clients g) s;
       Server.hbMgr := register (Server.hbMgr g) now s ip |} :: rest.
Proof.
  intros H. simpl. rewrite H.
  replace (Server.Proto_eqb (Server.label g) (Server.label g)) with true
    by (destruct (Server.label g); reflexivity).
  reflexivity.
Qed.

(** The same for a group anywhere in [servers]: the groups before it have
    another label and are passed over. *)
Lemma upgrade_at (pre : list Server.Group) (g : Server.Group)
      (post : list Server.Group) (l : Server.Listener) (now : Z)
      (s : Socket) (ip : JSString) :
  Server.upgradeTo l = Server.label g ->
  ~ In (Server.label g) (map Server.label pre) ->
  Server.upgrade (pre ++ g :: post) l now s ip
  = (pre ++ {| Server.label := Server.label g;
               Server.httpServers := Server.httpServers g;
               Server.clients := Server.Set_add (Server.clients g) s;
               Server.hbMgr := register (Server.hbMgr g) now s ip |}
         :: post,
     [LogInfo (ClientConnected
                 (Server.proto_label (Server.label g)) ip
                 (List.length (Server.Set_add (Server.clients g) s)))]).
Proof.
  intros Hl Hpre. induction pre as [|x pre IH]; cbn [app Server.upgrade].
  - rewrite Hl.
    replace (Server.Proto_eqb (Server.label g) (Server.label g)) with true
      by (destruct (Server.label g); reflexivity).
    reflexivity.
  - assert (Server.Proto_eqb (Server.label x) (Server.upgradeTo l) = false)
      as Hx.
    { rewrite Hl.
      destruct (Server.label x) eqn:Ex, (Server.label g) eqn:Eg;
        try reflexivity; exfalso; apply Hpre; left; simpl; exact Ex. }
    rewrite Hx, IH; [reflexivity|].
    intros Hin. apply Hpre. right. exact Hin.
Qed.

(** What an upgrade leaves behind, read off the group: the socket is a
    client, the clients there were are kept, and the socket is registered
    alive, probed at [now], under the address of the request. *)
Lemma upgrade_lands (pre : list Server.Group) (g : Server.Group)
      (post : list Server.Group) (l : Server.Listener) (now : Z)
      (s : Socket) (ip : JSString) :
  Server.upgradeTo l = Server.label g ->
  ~ In (Server.label g) (map Server.label pre) ->
  exists g1,
    fst (Server.upgrade (pre ++ g :: post) l now s ip) = pre ++ g1 :: post
    /\ Server.label g1 = Server.label g
    /\ Server.httpServers g1 = Server.httpServers g
    /\ In s (Server.clients g1)
    /\ (forall k, In k (Server.clients g) -> In k (Server.clients g1))
    /\ Map_get (clientMap (Server.hbMgr g1)) s
       = Some {| isAlive := true; lastPingSentAt := now; ip := ip |}
    /\ timer (Server.hbMgr g1) = timer (Server.hbMgr g).
Proof.
  intros Hl Hpre. eexists.
  rewrite (@upgrade_at pre g post l now s ip Hl Hpre). cbn [fst].
  split; [reflexivity|]. cbn [Server.label Server.httpServers Server.clients
                              Server.hbMgr].
  split; [reflexivity|]. split; [reflexivity|].
  assert (forall k, In k (Server.clients g) ->
                    In k (Server.Set_add (Server.clients g) s)) as Hkeep.
  { intros k Hk. unfold Server.Set_add.
    destruct (existsb (Nat.eqb s) (Server.clients g)); [exact Hk|].
    apply in_or_app. left. exact Hk. }
  split.
  { unfold Server.Set_add.
    destruct (existsb (Nat.eqb s) (Server.clients g)) eqn:E.
    - apply existsb_exists in E. destruct E as (y & Hy & Hxy).
      apply Nat.eqb_eq in Hxy. subst y. exact Hy.
    - apply in_or_app. right. left. reflexivity. }
  split; [exact Hkeep|]. split; [|reflexivity].
  unfold register. cbn [clientMap].
  generalize (clientMap (Server.hbMgr g)). intros m.
  induction m as [|[k e] m IH]; cbn [Map_set Map_get].
  - rewrite Nat.eqb_refl. reflexivity.
  - destruct (Nat.eqb k s) eqn:E; cbn [Map_get].
    + rewrite Nat.eqb_refl. reflexivity.
    + rewrite E. exact IH.
Qed.

(** C7, as stated, fails.  [127.0.0.2] is a loopback address and [::] is
    the wildcard address of IPv6, and for both the second listener is
    bound: the test of the code is on three strings, not on the class of
    the address. *)
Lemma loopback_host_gets_a_second_listener :
  loopback_address (js "127.0.0.2") = true
  /\ bound (Server.startListeners (js "127.0.0.2") 8070 Server.WS)
     = [(js "127.0.0.2", 8070%Z); (js "127.0.0.1", 8070%Z)]
  /\ wildcard_address (js "::") = true
  /\ bound (Server.startListeners (js "::") 8070 Server.WS)
     = [(js "::", 8070%Z); (js "127.0.0.1", 8070%Z)]
  /\ loopback_address (js "localhost") = true
  /\ bound (Server.startListeners (js "localhost") 8070 Server.WS)
     = [(js "localhost", 8070%Z); (js "127.0.0.1", 8070%Z)]
  /\ ~ second_listener_by_address_class.
Proof.
  split; [reflexivity|]. split; [reflexivity|]. split; [reflexivity|].
  split; [reflexivity|]. split; [reflexivity|]. split; [reflexivity|].
  intros H.
  destruct (proj1 (H (js "127.0.0.2") 8070%Z Server.WS)) as [_ Hl].
  - eexists. split; [right; left; reflexivity|reflexivity].
  - discriminate Hl.
Qed.

(** C7, amended.  [startListeners] always creates the primary listener on
    the configured address; it creates a second one, on [127.0.0.1] and
    the same port, exactly when the configured host is none of the three
    strings [0.0.0.0], [127.0.0.1] and [::1].  So every address that is
    neither a wildcard nor a loopback address gets the second listener
    ([192.168.1.10] does, [0.0.0.0] does not), and so does a wildcard or
    loopback address in another spelling.  Every listener forwards
    upgrades to the one [WebSocket.Server] it was given: whichever
    listener a connection comes through, and wherever the group stands in
    [servers], the socket joins the clients of that group and is
    registered alive with its heartbeat manager, and the outcome is the
    same for the two listeners. *)
Theorem loopback_listener_is_added_when_needed :
  forall (host : JSString) (port : Z) (wsServer : Server.Proto),
    ((exists l, In l (Server.startListeners host port wsServer)
                /\ Server.role l = Server.Loopback)
     <-> ~ literal_local host)
    /\ (~ literal_local host ->
        bound (Server.startListeners host port wsServer)
        = [(host, port); (js "127.0.0.1", port)]
        /\ map Server.role (Server.startListeners host port wsServer)
           = [Server.Primary; Server.Loopback])
    /\ (literal_local host ->
        bound (Server.startListeners host port wsServer) = [(host, port)]
        /\ map Server.role (Server.startListeners host port wsServer)
           = [Server.Primary])
    /\ (wildcard_address host = false -> loopback_address host = false ->
        bound (Server.startListeners host port wsServer)
        = [(host, port); (js "127.0.0.1", port)])
    /\ bound (Server.startListeners (js "192.168.1.10") port wsServer)
       = [(js "192.168.1.10", port); (js "127.0.0.1", port)]
    /\ bound (Server.startListeners (js "0.0.0.0") port wsServer)
       = [(js "0.0.0.0", port)]
    /\ Forall (fun l => Server.upgradeTo l = wsServer)
              (Server.startListeners host port wsServer)
    /\ (forall l pre g rest now s ip,
          In l (Server.startListeners host port wsServer) ->
          Server.label g = wsServer ->
          ~ In (Server.label g) (map Server.label pre) ->
          exists g1,
            fst (Server.upgrade (pre ++ g :: rest) l now s ip)
            = pre ++ g1 :: rest
            /\ Server.label g1 = Server.label g
            /\ Server.httpServers g1 = Server.httpServers g
            /\ In s (Server.clients g1)
            /\ (forall k, In k (Server.clients g) ->
                          In k (Server.clients g1))
            /\ Map_get (clientMap (Server.hbMgr g1)) s
               = Some {| isAlive := true; lastPingSentAt := now; ip := ip |}
            /\ timer (Server.hbMgr g1) = timer (Server.hbMgr g))
    /\ (forall l1 l2 gs now s ip,
          In l1 (Server.startListeners host port wsServer) ->
          In l2 (Server.startListeners host port wsServer) ->
          Server.upgrade gs l1 now s ip = Server.upgrade gs l2 now s ip).
Proof.
  intros host port wsServer.
  assert (Forall (fun l => Server.upgradeTo l = wsServer)
                 (Server.startListeners host port wsServer)) as Hall.
  { unfold Server.startListeners.
    destruct (Server.needLoopback host); repeat constructor. }
  pose proof (needLoopback_spec host) as Hspec.
  assert (~ literal_local host ->
          bound (Server.startListeners host port wsServer)
          = [(host, port); (js "127.0.0.1", port)]
          /\ map Server.role (Server.startListeners host port wsServer)
             = [Server.Primary; Server.Loopback]) as Htwo.
  { intros H. apply Hspec in H. unfold Server.startListeners. rewrite H.
    split; reflexivity. }
  split; [split|].
  { intros (l & Hin & Hr). apply Hspec.
    unfold Server.startListeners in Hin.
    destruct (Server.needLoopback host); [reflexivity|].
    simpl in Hin. destruct Hin as [Hin|Hin]; [|contradiction].
    subst l. discriminate Hr. }
  { intros H. apply Hspec in H. unfold Server.startListeners. rewrite H.
    eexists; split; [right; left; reflexivity|reflexivity]. }
  split; [exact Htwo|].
  split.
  { intros H. unfold Server.startListeners.
    destruct (Server.needLoopback host) eqn:E; [|split; reflexivity].
    exfalso. exact (proj1 Hspec eq_refl H). }
  split.
  { intros Hw Hlo. apply Htwo. intros H.
    destruct (literal_local_classes H) as [H'|H']; congruence. }
  split; [reflexivity|]. split; [reflexivity|]. split; [exact Hall|].
  split.
  { intros l pre g rest now s ip Hin Hg Hpre.
    apply upgrade_lands; [|exact Hpre].
    rewrite Hg. rewrite Forall_forall in Hall. apply Hall. exact Hin. }
  intros l1 l2 gs now s ip H1 H2.
  rewrite Forall_forall in Hall.
  pose proof (Hall l1 H1) as E1. pose proof (Hall l2 H2) as E2.
  induction gs as [|g gs IH]; [reflexivity|]. cbn [Server.upgrade].
  rewrite E1, E2, IH. reflexivity.
Qed.

Lemma loopback_listener_is_added_when_needed_witness :
  bound (Server.startListeners (js "10.1.2.3") 8070 Server.WS)
  = [(js "10.1.2.3", 8070%Z); (js "127.0.0.1", 8070%Z)]
  /\ bound (Server.startListeners (js "::1") 8071 Server.WSS)
     = [(js "::1", 8071%Z)]
  /\ map (fun x => (Server.label x, Server.clients x))
         (fst (Server.upgrade
                 (Server.servers (fst (Server.startup Scenario.both None)))
                 {| Server.role := Server.Primary;
                    Server.host := js "0.0.0.0"; Server.port := 8071;
                    Server.upgradeTo := Server.WSS |} 50 9 (js "10.0.0.9")))
     = [(Server.WS, []); (Server.WSS, [9%nat])].
Proof.
  destruct (loopback_listener_is_added_when_needed (js "10.1.2.3") 8070
              Server.WS) as (_ & _ & _ & H1 & _).
  destruct (loopback_listener_is_added_when_needed (js "::1") 8071
              Server.WSS) as (_ & _ & H2 & _).
  destruct (loopback_listener_is_added_when_needed (js "0.0.0.0") 8071
              Server.WSS) as (_ & _ & _ & _ & _ & _ & _ & H3 & _).
  split; [apply H1; reflexivity|].
  split; [apply H2; right; right; reflexivity|].
  change (Server.servers (fst (Server.startup Scenario.both None)))
    with ([nth 0 (Server.servers (fst (Server.startup Scenario.both None)))
               Scenario.room]
          ++ nth 1 (Server.servers (fst (Server.startup Scenario.both None)))
                 Scenario.room :: []).
  destruct (H3 {| Server.role := Server.Primary;
                  Server.host := js "0.0.0.0"; Server.port := 8071;
                  Server.upgradeTo := Server.WSS |}
               [nth 0 (Server.servers (fst (Server.startup Scenario.both
                                                           None)))
                    Scenario.room]
               (nth 1 (Server.servers (fst (Server.startup Scenario.both
                                                           None)))
                    Scenario.room) [] 50%Z 9%nat (js "10.0.0.9"))
    as (g1 & Hg1 & _).
  - left. reflexivity.
  - reflexivity.
  - simpl. intros [H|[]]. discriminate H.
  - reflexivity.
Defined.

(** C3, as stated, fails.  With the plain service alone on a LAN address,
    the primary listener failing to bind is logged and nothing else:
    [process.exit] is not called and the loopback listener of the group
    keeps the process running; a client that connects through it joins
    the group, which was not taken out of [servers]. *)
Lemma bind_failure_is_not_fatal :
  map Server.label (Server.servers (fst (Server.startup Scenario.ws_only None)))
  = [Server.WS]
  /\ Server.exitCode
       (fst (Server.primaryError (fst (Server.startup Scenario.ws_only None))
               Server.WS (js "192.168.1.10") 8070
               (js "listen EADDRINUSE")))
     = None
  /\ ended [PrimaryFailed Reference.platform Server.WS (js "192.168.1.10")
                          8070 (js "listen EADDRINUSE")]
           (fst (server_run Scenario.calm
                   (fst (Server.startup Scenario.ws_only None))
                   [PrimaryFailed Reference.platform Server.WS
                                  (js "192.168.1.10") 8070
                                  (js "listen EADDRINUSE")]))
     = None
  /\ map (fun g => (Server.label g, Server.clients g))
         (Server.servers
            (fst (server_run Scenario.calm
                    (fst (Server.startup Scenario.ws_only None))
                    [PrimaryFailed Reference.platform Server.WS
                                   (js "192.168.1.10") 8070
                                   (js "listen EADDRINUSE");
                     Upgraded Reference.platform
                              {| Server.role := Server.Loopback;
                                 Server.host := js "127.0.0.1";
                                 Server.port := 8070;
                                 Server.upgradeTo := Server.WS |}
                              10 7%nat (js "127.0.0.1")])))
     = [(Server.WS, [7%nat])]
  /\ ~ bind_failure_is_fatal_when_alone Reference.platform.
Proof.
  split; [reflexivity|]. split; [reflexivity|]. split; [reflexivity|].
  split; [reflexivity|].
  intros H.
  apply (H Scenario.calm Scenario.ws_only (js "192.168.1.10") 8070%Z
           (js "listen EADDRINUSE") eq_refl eq_refl).
  reflexivity.
Qed.

(** The handles left by the start-up of one group. *)
Lemma handles_of_fresh (P : Platform) (es : list (ServerEvent P))
      (proto : Server.Proto) (host : JSString) (port : Z)
      (interval timeout : Z) :
  handles_of es
    {| Server.label := proto;
       Server.httpServers := Server.startListeners host port proto;
       Server.clients := [];
       Server.hbMgr := createHeartbeatManager interval timeout |}
  = ((if bind_failed es proto Server.Primary then 0 else 1)
     + (if Server.needLoopback host
        then (if bind_failed es proto Server.Loopback then 0 else 1)
        else 0))%nat.
Proof.
  unfold handles_of, Server.startListeners.
  cbn [Server.label Server.httpServers Server.clients Server.hbMgr
       createHeartbeatManager timer List.length filter Server.role].
  destruct (bind_failed es proto Server.Primary),
    (Server.needLoopback host);
    cbn [negb filter Server.role List.length];
    try destruct (bind_failed es proto Server.Loopback);
    reflexivity.
Qed.

(** C3, amended.  A primary listener that fails to bind is reported with
    one error line and nothing else: [process.exit] is not called and the
    groups are untouched, the group of the failed listener included.  It
    stays in [servers], its heartbeat is not started, and a client that
    connects through its loopback listener joins it.  The process goes on
    as long as a listener is left: the loopback listener of the group, or
    a listener of the other group.  When the failed listener was the only
    one the event loop has nothing left to wait for and the process ends
    by itself, with status 0.  The rule "fatal when alone, skipped
    otherwise" is that of a TLS file that cannot be read when the secure
    service starts: the process exits with status 1 when the plain
    service is disabled; when it is enabled the secure group is left out
    and the plain group is the only one started. *)
Theorem startup_failure_policy :
  forall (P : Platform) (T : Transport) (c : Server.Config)
         (err : JSString),
    (forall p proto host port,
       server_step T p (PrimaryFailed P proto host port err)
       = (p, [LogError (PrimaryListenerFailed (Server.proto_label proto)
                          host port err)]))
    /\ (Server.ws_enabled c = true -> Server.wss_enabled c = false ->
        forall host port,
          ended [PrimaryFailed P Server.WS host port err]
                (fst (server_run T (fst (Server.startup c None))
                        [PrimaryFailed P Server.WS host port err]))
          = (if Server.needLoopback (Server.ws_host c) then None
             else Some 0%Z))
    /\ (Server.ws_enabled c = false -> Server.wss_enabled c = true ->
        forall host port,
          ended [PrimaryFailed P Server.WSS host port err]
                (fst (server_run T (fst (Server.startup c None))
                        [PrimaryFailed P Server.WSS host port err]))
          = (if Server.needLoopback (Server.wss_host c) then None
             else Some 0%Z))
    /\ (Server.ws_enabled c = true -> Server.wss_enabled c = true ->
        forall proto host port,
          ended [PrimaryFailed P proto host port err]
                (fst (server_run T (fst (Server.startup c None))
                        [PrimaryFailed P proto host port err]))
          = None
          /\ map Server.label
               (Server.servers
                  (fst (server_run T (fst (Server.startup c None))
                          [PrimaryFailed P proto host port err])))
             = [Server.WS; Server.WSS])
    /\ (Server.ws_enabled c = true ->
        Server.needLoopback (Server.ws_host c) = true ->
        forall host port now s ip,
        exists g,
          group_of
            (Server.servers
               (fst (server_run T (fst (Server.startup c None))
                       [PrimaryFailed P Server.WS host port err;
                        Upgraded P {| Server.role := Server.Loopback;
                                      Server.host := js "127.0.0.1";
                                      Server.port := Server.ws_port c;
                                      Server.upgradeTo := Server.WS |}
                                 now s ip])))
            Server.WS = Some g
          /\ Server.clients g = [s]
          /\ Map_has (clientMap (Server.hbMgr g)) s = true
          /\ timer (Server.hbMgr g) = None
          /\ In {| Server.role := Server.Loopback;
                   Server.host := js "127.0.0.1";
                   Server.port := Server.ws_port c;
                   Server.upgradeTo := Server.WS |}
                (Server.httpServers g))
    /\ (Server.wss_enabled c = true ->
        Server.needLoopback (Server.wss_host c) = true ->
        forall host port now s ip,
        exists g,
          group_of
            (Server.servers
               (fst (server_run T (fst (Server.startup c None))
                       [PrimaryFailed P Server.WSS host port err;
                        Upgraded P {| Server.role := Server.Loopback;
                                      Server.host := js "127.0.0.1";
                                      Server.port := Server.wss_port c;
                                      Server.upgradeTo := Server.WSS |}
                                 now s ip])))
            Server.WSS = Some g
          /\ Server.clients g = [s]
          /\ Map_has (clientMap (Server.hbMgr g)) s = true
          /\ timer (Server.hbMgr g) = None
          /\ In {| Server.role := Server.Loopback;
                   Server.host := js "127.0.0.1";
                   Server.port := Server.wss_port c;
                   Server.upgradeTo := Server.WSS |}
                (Server.httpServers g))
    /\ (Server.wss_enabled c = true -> Server.ws_enabled c = false ->
        Server.exitCode (fst (Server.startup c (Some err))) = Some 1%Z
        /\ Server.servers (fst (Server.startup c (Some err))) = [])
    /\ (Server.wss_enabled c = true -> Server.ws_enabled c = true ->
        Server.exitCode (fst (Server.startup c (Some err))) = None
        /\ map Server.label (Server.servers (fst (Server.startup c (Some err))))
           = [Server.WS]
        /\ snd (Server.startup c (Some err)) = [LogError (TlsReadFailed err)]).
Proof.
  intros P T c err.
  split; [reflexivity|].
  split.
  { intros Hw Hs host port.
    unfold ended, handles, Server.startup, Server.startWSS, Server.startWS.
    rewrite Hw, Hs.
    cbn [server_run server_step Server.primaryError fst snd app
         Server.servers Server.exitCode map list_sum].
    rewrite handles_of_fresh.
    cbn [bind_failed existsb Server.Proto_eqb orb].
    destruct (Server.needLoopback (Server.ws_host c)); reflexivity. }
  split.
  { intros Hw Hs host port.
    unfold ended, handles, Server.startup, Server.startWSS, Server.startWS.
    rewrite Hw, Hs.
    cbn [server_run server_step Server.primaryError fst snd app
         Server.servers Server.exitCode map list_sum].
    rewrite handles_of_fresh.
    cbn [bind_failed existsb Server.Proto_eqb orb].
    destruct (Server.needLoopback (Server.wss_host c)); reflexivity. }
  split.
  { intros Hw Hs proto host port.
    unfold ended, handles, Server.startup, Server.startWSS, Server.startWS.
    rewrite Hw, Hs.
    cbn [server_run server_step Server.primaryError fst snd app
         Server.servers Server.exitCode map list_sum].
    rewrite !handles_of_fresh.
    cbn [bind_failed existsb orb].
    split; [|reflexivity].
    destruct proto; cbn [Server.Proto_eqb];
      destruct (Server.needLoopback (Server.ws_host c)),
        (Server.needLoopback (Server.wss_host c)); reflexivity. }
  split.
  { intros Hw Hl host port now s ip.
    unfold Server.startup, Server.startWSS, Server.startWS,
      Server.startListeners.
    rewrite Hw, Hl.
    destruct (Server.wss_enabled c);
      (eexists; split; [reflexivity|]);
      (split; [reflexivity|]); (split; [|split; [reflexivity|]]);
      try (right; left; reflexivity);
      unfold Map_has; simpl; rewrite Nat.eqb_refl; reflexivity. }
  split.
  { intros Hs Hl host port now s ip.
    unfold Server.startup, Server.startWSS, Server.startWS,
      Server.startListeners.
    rewrite Hs, Hl.
    destruct (Server.ws_enabled c);
      (eexists; split; [reflexivity|]);
      (split; [reflexivity|]); (split; [|split; [reflexivity|]]);
      try (right; left; reflexivity);
      unfold Map_has; simpl; rewrite Nat.eqb_refl; reflexivity. }
  split.
  - intros Hs Hw. unfold Server.startup, Server.startWSS, Server.startWS.
    rewrite Hs, Hw. split; reflexivity.
  - intros Hs Hw. unfold Server.startup, Server.startWSS, Server.startWS.
    rewrite Hs, Hw. simpl. auto.
Qed.

Lemma startup_failure_policy_witness :
  Server.exitCode
    (fst (Server.startup Scenario.wss_only (Some (js "ENOENT")))) = Some 1%Z
  /\ Server.exitCode
       (fst (Server.startup Scenario.both (Some (js "ENOENT")))) = None
  /\ ended [PrimaryFailed Reference.platform Server.WSS (js "0.0.0.0") 8071
                          (js "listen EADDRINUSE")]
           (fst (server_run Scenario.calm
                   (fst (Server.startup Scenario.wss_only None))
                   [PrimaryFailed Reference.platform Server.WSS
                                  (js "0.0.0.0") 8071
                                  (js "listen EADDRINUSE")]))
     = Some 0%Z
  /\ ended [PrimaryFailed Reference.platform Server.WS (js "192.168.1.10")
                          8070 (js "listen EADDRINUSE")]
           (fst (server_run Scenario.calm
                   (fst (Server.startup Scenario.ws_only None))
                   [PrimaryFailed Reference.platform Server.WS
                                  (js "192.168.1.10") 8070
                                  (js "listen EADDRINUSE")]))
     = None.
Proof.
  destruct (startup_failure_policy Reference.platform Scenario.calm
              Scenario.wss_only (js "ENOENT"))
    as (_ & _ & _ & _ & _ & _ & H1 & _).
  destruct (startup_failure_policy Reference.platform Scenario.calm
              Scenario.both (js "ENOENT"))
    as (_ & _ & _ & _ & _ & _ & _ & H2).
  destruct (startup_failure_policy Reference.platform Scenario.calm
              Scenario.wss_only (js "listen EADDRINUSE"))
    as (_ & _ & H3 & _).
  destruct (startup_failure_policy Reference.platform Scenario.calm
              Scenario.ws_only (js "listen EADDRINUSE"))
    as (_ & H4 & _).
  split; [apply H1; reflexivity|].
  split; [apply H2; reflexivity|].
  split.
  - rewrite (H3 eq_refl eq_refl (js "0.0.0.0") 8071%Z). reflexivity.
  - rewrite (H4 eq_refl eq_refl (js "192.168.1.10") 8070%Z). reflexivity.
Defined.

(* ===================================================================== *)
(** ** Facts about the registry and the client set of a group             *)
(* ===================================================================== *)

Section GroupFacts.

Lemma Map_has_keys (m : ClientMap) (k : Socket) :
  Map_has m k = true <-> In k (keys m).
Proof.
  unfold Map_has. pose proof (Map_get_None_keys m k) as H.
  destruct (Map_get m k); split; intros; try discriminate; try reflexivity.
  - destruct (in_dec Nat.eq_dec k (keys m)) as [Hin|Hin]; [exact Hin|].
    apply H in Hin. discriminate.
  - exfalso. apply (proj1 H); auto.
Qed.

Lemma keys_Map_set (m : ClientMap) (s : Socket) (e : Entry) :
  keys (Map_set m s e) = if Map_has m s then keys m else keys m ++ [s].
Proof.
  unfold Map_has, keys. induction m as [|[k e'] m IH]; [reflexivity|].
  simpl. destruct (Nat.eqb k s) eqn:E; simpl.
  - apply Nat.eqb_eq in E; subst; reflexivity.
  - rewrite IH. destruct (Map_get m s); reflexivity.
Qed.

Lemma keys_Map_delete_subset (m : ClientMap) (s k : Socket) :
  In k (keys (Map_delete m s)) -> In k (keys m).
Proof.
  unfold keys. induction m as [|[k' e] m IH]; simpl; [tauto|].
  destruct (Nat.eqb k' s); simpl; tauto.
Qed.

Lemma keys_Map_delete_wf (m : ClientMap) (s : Socket) :
  NoDup (keys m) ->
  NoDup (keys (Map_delete m s)) /\ ~ In s (keys (Map_delete m s)).
Proof.
  intros Hnd. split.
  - induction m as [|[k e] m IH]; simpl; [constructor|].
    inversion Hnd as [|? ? Hk Hnd']; subst.
    destruct (Nat.eqb k s); simpl; [exact Hnd'|].
    constructor; [|apply IH; exact Hnd'].
    intros Hin; apply Hk. apply keys_Map_delete_subset in Hin; exact Hin.
  - apply Map_get_None_keys, Map_get_delete_same; exact Hnd.
Qed.

Lemma wf_register h now s ip : wf h -> wf (register h now s ip).
Proof.
  unfold wf, register; simpl. intros Hnd. rewrite keys_Map_set.
  destruct (Map_has (clientMap h) s) eqn:E; [exact Hnd|].
  apply NoDup_app; [exact Hnd|repeat constructor; simpl; tauto|].
  intros x Hin [<-|[]]. apply Map_has_keys in Hin. congruence.
Qed.

Lemma wf_unregister h s : wf h -> wf (unregister h s).
Proof. intros H. apply keys_Map_delete_wf; exact H. Qed.

Lemma wf_markAlive h s : wf h -> wf (markAlive h s).
Proof.
  unfold wf, markAlive. destruct (Map_get (clientMap h) s); [|auto].
  simpl. rewrite keys_set_alive. auto.
Qed.

Lemma wf_onTimer T h now : wf h -> wf (fst (onTimer T h now)).
Proof.
  unfold wf, onTimer, tick. destruct (timer h); [|auto].
  intros Hnd. pose proof (sweep_wf T (timeout h) now _ Hnd) as H.
  destruct (sweep T (timeout h) now (clientMap h)); exact H.
Qed.

Lemma In_Set_add (l : list Socket) (x k : Socket) :
  In k (Server.Set_add l x) <-> In k l \/ k = x.
Proof.
  unfold Server.Set_add. destruct (existsb (Nat.eqb x) l) eqn:E.
  - apply existsb_exists in E. destruct E as (y & Hy & Hxy).
    apply Nat.eqb_eq in Hxy; subst y. split; [auto|].
    intros [H| ->]; auto.
  - rewrite in_app_iff. simpl. intuition.
Qed.

Lemma In_Set_delete (l : list Socket) (x k : Socket) :
  In k (Server.Set_delete l x) <-> In k l /\ k <> x.
Proof.
  unfold Server.Set_delete. rewrite filter_In, negb_true_iff, Nat.eqb_neq.
  tauto.
Qed.

Lemma sound_upgrade gs l now s ip :
  Forall sound gs -> Forall sound (fst (Server.upgrade gs l now s ip)).
Proof.
  induction gs as [|g rest IH]; intros Hall; [constructor|].
  inversion Hall as [|? ? [Hwf Htr] Hrest]; subst. simpl.
  destruct (Server.Proto_eqb (Server.label g) (Server.upgradeTo l)).
  - constructor; [|exact Hrest]. split.
    + apply wf_register; exact Hwf.
    + intros k Hk. simpl in *. apply Map_has_keys in Hk.
      rewrite keys_Map_set in Hk. apply In_Set_add.
      destruct (Map_has (clientMap (Server.hbMgr g)) s) eqn:E.
      * left. apply Htr, Map_has_keys; exact Hk.
      * apply in_app_iff in Hk. destruct Hk as [Hk|[<-|[]]]; [|auto].
        left. apply Htr, Map_has_keys; exact Hk.
  - specialize (IH Hrest).
    destruct (Server.upgrade rest l now s ip) as [rest' fx]. simpl in *.
    constructor; [split; assumption|exact IH].
Qed.

Lemma sound_message P T g s ip (rawData : Buffer P) :
  sound g -> sound (fst (Server.messageHandler P T g s ip rawData)).
Proof.
  intros [Hwf Htr]. unfold Server.messageHandler.
  destruct (Server.is_ping _); [|split; assumption]. simpl. split.
  - apply wf_markAlive; exact Hwf.
  - intros k Hk. simpl in *. apply Htr.
    apply Map_has_keys in Hk. apply Map_has_keys.
    unfold markAlive in Hk.
    destruct (Map_get (clientMap (Server.hbMgr g)) s); [|exact Hk].
    simpl in Hk. rewrite keys_set_alive in Hk. exact Hk.
Qed.

Lemma sound_close g s ip :
  sound g -> sound (fst (Server.closeHandler g s ip)).
Proof.
  intros [Hwf Htr]. simpl. split.
  - apply wf_unregister; exact Hwf.
  - intros k Hk. simpl in *. apply Map_has_keys in Hk.
    destruct (@keys_Map_delete_wf _ s Hwf) as [_ Hnot].
    apply In_Set_delete. split.
    + apply Htr, Map_has_keys, (@keys_Map_delete_subset _ _ _ Hk).
    + intros ->. contradiction.
Qed.

Lemma sound_error g s ip err :
  sound g -> sound (fst (Server.errorHandler g s ip err)).
Proof.
  intros [Hwf Htr]. simpl. split.
  - apply wf_unregister; exact Hwf.
  - intros k Hk. simpl in *. apply Map_has_keys in Hk.
    apply Htr, Map_has_keys, (@keys_Map_delete_subset _ _ _ Hk).
Qed.

Lemma sound_onTimer T g now :
  sound g ->
  sound (Server.with_hbMgr g (fst (onTimer T (Server.hbMgr g) now))).
Proof.
  intros [Hwf Htr]. split; simpl.
  - apply wf_onTimer; exact Hwf.
  - intros k Hk. simpl in *. apply Htr. apply Map_has_keys in Hk.
    apply Map_has_keys. unfold onTimer, tick in Hk.
    destruct (timer (Server.hbMgr g)); [|exact Hk].
    pose proof (@keys_sweep_subset T (timeout (Server.hbMgr g)) now
                  (clientMap (Server.hbMgr g)) k) as Hsub.
    destruct (sweep T (timeout (Server.hbMgr g)) now
                    (clientMap (Server.hbMgr g))); auto.
Qed.

Lemma clientMap_start h : clientMap (start h) = clientMap h.
Proof. unfold start. destruct (timer h); reflexivity. Qed.

Lemma sound_listening g host port :
  sound g -> sound (fst (Server.primaryListening g host port)).
Proof.
  intros [Hwf Htr]. unfold sound, wf, tracked in *. simpl.
  rewrite clientMap_start. split; assumption.
Qed.

Lemma startListeners_nonempty host port w :
  Server.startListeners host port w <> [].
Proof. discriminate. Qed.

(** The groups pushed at start-up are sound and have a listener. *)
Lemma startup_sound c tls :
  Forall (fun g => sound g /\ Server.httpServers g <> [])
         (Server.servers (fst (Server.startup c tls))).
Proof.
  unfold Server.startup, Server.startWSS, Server.startWS.
  assert (forall lbl ls,
             sound {| Server.label := lbl; Server.httpServers := ls;
                      Server.clients := [];
                      Server.hbMgr :=
                        createHeartbeatManager (Server.heartbeat_interval c)
                          (Server.heartbeat_timeout c) |}) as Hs.
  { intros lbl ls. split; [constructor|]. intros s Hs. discriminate. }
  destruct (Server.ws_enabled c), (Server.wss_enabled c), tls; simpl;
    repeat constructor; try apply Hs; try discriminate;
    try (intros s' H'; discriminate).
Qed.

End GroupFacts.

(* ===================================================================== *)
(** ** Facts about the shutdown                                           *)
(* ===================================================================== *)

Section ShutdownFacts.

Variable T : Transport.

Lemma terminated_map (cs : list Socket) :
  Trace.terminated
    (map (fun client => Terminate client (terminate_throws T client)) cs)
  = cs.
Proof. induction cs as [|c cs IH]; simpl; [|rewrite IH]; reflexivity. Qed.

Lemma shutdownGroups_spec (gs : list Server.Group) :
  fst (Server.shutdownGroups T gs)
  = map (fun g => Server.with_hbMgr g (stop (Server.hbMgr g))) gs
  /\ Trace.terminated (snd (Server.shutdownGroups T gs))
     = flat_map Server.clients gs.
Proof.
  induction gs as [|g rest [IH1 IH2]]; [simpl; auto|].
  simpl. destruct (Server.shutdownGroups T rest) as [rest' fx'].
  simpl in *. rewrite IH1, terminated_app, terminated_map, IH2. auto.
Qed.

(** The part of [gracefulShutdown] that runs when there is a group. *)
Lemma gracefulShutdown_spec (p : Server.Process) (signal : JSString) :
  Server.servers p <> [] ->
  Server.servers (fst (fst (Server.gracefulShutdown T p signal)))
  = map (fun g => Server.with_hbMgr g (stop (Server.hbMgr g)))
        (Server.servers p)
  /\ Server.exitCode (fst (fst (Server.gracefulShutdown T p signal)))
     = Server.exitCode p
  /\ snd (fst (Server.gracefulShutdown T p signal))
     = {| Server.pendingCount := Z.of_nat (List.length (Server.servers p));
          Server.httpPending := map (fun _ => None) (Server.servers p);
          Server.deadline := Some 5000%Z |}
  /\ Trace.terminated (snd (Server.gracefulShutdown T p signal))
     = flat_map Server.clients (Server.servers p).
Proof.
  intros Hne. unfold Server.gracefulShutdown.
  destruct (Server.servers p) as [|g rest] eqn:E; [congruence|].
  destruct (shutdownGroups_spec (g :: rest)) as [H1 H2].
  destruct (Server.shutdownGroups T (g :: rest)) as [gs fx].
  simpl in *. auto.
Qed.

End ShutdownFacts.

Section CloseFacts.

Lemma length_set_nth {A} (l : list A) i x :
  List.length (Server.set_nth l i x) = List.length l.
Proof.
  revert i. induction l as [|y l IH]; intros [|i]; simpl; auto.
Qed.

Lemma nth_error_set_nth {A} (l : list A) i x old :
  nth_error l i = Some old -> nth_error (Server.set_nth l i x) i = Some x.
Proof.
  revert i. induction l as [|y l IH]; intros [|i]; simpl; try discriminate;
    auto.
Qed.

Lemma count_open_set_nth l i old new :
  nth_error l i = Some old ->
  (count_open (Server.set_nth l i new)
   + (if open_entry old then 1 else 0)
   = count_open l + (if open_entry new then 1 else 0))%nat.
Proof.
  unfold count_open. revert i.
  induction l as [|y l IH]; intros [|i]; simpl; try discriminate.
  - intros H; inversion H; subst.
    destruct (open_entry old), (open_entry new); simpl; lia.
  - intros H. specialize (IH i H).
    destruct (open_entry y); simpl; lia.
Qed.

Lemma count_open_fresh {A} (l : list A) :
  count_open (map (fun _ => None) l) = List.length l.
Proof.
  unfold count_open. induction l as [|x l IH]; simpl; [|rewrite IH];
    reflexivity.
Qed.

Lemma all_closed_count sd :
  all_closed sd = (count_open (Server.httpPending sd) =? 0)%nat.
Proof.
  unfold all_closed, count_open.
  induction (Server.httpPending sd) as [|x l IH]; [reflexivity|].
  simpl. destruct x as [k|]; simpl; [|reflexivity].
  destruct (k =? 0)%Z; simpl; [exact IH|reflexivity].
Qed.

Lemma count_open_pos l i x :
  nth_error l i = Some x -> open_entry x = true -> (0 < count_open l)%nat.
Proof.
  unfold count_open. revert i.
  induction l as [|y l IH]; intros [|i]; simpl; try discriminate.
  - intros H Ho; inversion H; subst. rewrite Ho. simpl. lia.
  - intros H Ho. specialize (IH i H Ho). destruct (open_entry y); simpl; lia.
Qed.

Lemma nth_error_same_length {A B} (l : list A) (l' : list B) i x :
  List.length l = List.length l' -> nth_error l i = Some x ->
  exists y, nth_error l' i = Some y.
Proof.
  intros Hlen Hn.
  destruct (nth_error l' i) as [y|] eqn:E; [eauto|].
  apply nth_error_None in E.
  assert (nth_error l i <> None) as Hs by congruence.
  apply nth_error_Some in Hs. lia.
Qed.

Variable gs : list Server.Group.
Hypothesis listeners : Forall (fun g => Server.httpServers g <> []) gs.

(** Delivering a callback that is due keeps the run consistent. *)
Lemma deliver_consistent d st e :
  consistent gs d st -> enabled st e = true ->
  consistent gs d (Server.deliver st e).
Proof.
  destruct st as [p sd]. unfold consistent. simpl.
  intros (Hgs & Hlen & Hcnt & Hexit & Hd) Hen.
  rewrite all_closed_count in Hexit.
  destruct e as [i|i]; simpl in Hen |- *.
  - destruct (nth_error (Server.httpPending sd) i) as [[k|]|] eqn:En;
      try discriminate.
    destruct (nth_error_same_length _ (Server.servers p) _ (eq_trans Hlen
               (f_equal (@List.length _) (eq_sym Hgs))) En) as [g Hg].
    pose proof (count_open_pos _ _ En eq_refl) as Hpos.
    replace (count_open (Server.httpPending sd) =? 0)%nat with false in Hexit
      by (symmetry; apply Nat.eqb_neq; lia).
    unfold Server.wsClosed. rewrite Hexit, Hg. simpl.
    assert (Server.httpServers g <> []) as Hls.
    { rewrite Forall_forall in listeners. apply listeners.
      rewrite <- Hgs. eapply nth_error_In; exact Hg. }
    assert (open_entry (Some (Z.of_nat (List.length (Server.httpServers g))))
            = true) as Hopen.
    { simpl. apply negb_true_iff, Z.eqb_neq.
      destruct (Server.httpServers g); [congruence|simpl; lia]. }
    pose proof (count_open_set_nth _ _
                  (Some (Z.of_nat (List.length (Server.httpServers g)))) En)
      as Hc.
    rewrite Hopen in Hc. simpl in Hc.
    rewrite all_closed_count. simpl. rewrite length_set_nth.
    repeat split; auto.
    + rewrite Hcnt. f_equal. lia.
    + replace (count_open _ =? 0)%nat with false
        by (symmetry; apply Nat.eqb_neq; lia).
      exact Hexit.
  - destruct (nth_error (Server.httpPending sd) i) as [[k|]|] eqn:En;
      try discriminate.
    apply Z.ltb_lt in Hen.
    destruct (nth_error_same_length _ (Server.servers p) _ (eq_trans Hlen
               (f_equal (@List.length _) (eq_sym Hgs))) En) as [g Hg].
    assert (open_entry (Some k) = true) as Hok
      by (simpl; apply negb_true_iff, Z.eqb_neq; lia).
    pose proof (count_open_pos _ _ En Hok) as Hpos.
    replace (count_open (Server.httpPending sd) =? 0)%nat with false in Hexit
      by (symmetry; apply Nat.eqb_neq; lia).
    unfold Server.httpClosed. rewrite Hexit, Hg, En.
    pose proof (count_open_set_nth _ _ (Some (k - 1)%Z) En) as Hc.
    rewrite Hok in Hc. simpl open_entry in Hc.
    destruct (k - 1 =? 0)%Z eqn:Ek; simpl in Hc.
    + destruct (Server.pendingCount sd - 1 =? 0)%Z eqn:En'; simpl;
        rewrite all_closed_count; simpl; rewrite length_set_nth;
        repeat split; auto; try lia.
      * apply Z.eqb_eq in En'.
        replace (count_open _ =? 0)%nat with true
          by (symmetry; apply Nat.eqb_eq; lia).
        reflexivity.
      * apply Z.eqb_neq in En'.
        replace (count_open _ =? 0)%nat with false
          by (symmetry; apply Nat.eqb_neq; lia).
        exact Hexit.
    + simpl. rewrite all_closed_count; simpl; rewrite length_set_nth.
      repeat split; auto; try lia.
      replace (count_open _ =? 0)%nat with false
        by (symmetry; apply Nat.eqb_neq; lia).
      exact Hexit.
Qed.

Lemma deliverAll_consistent d es st :
  consistent gs d st -> deliverable st es = true ->
  consistent gs d (Server.deliverAll st es).
Proof.
  revert st. induction es as [|e es IH]; intros st Hc Hd; [exact Hc|].
  simpl in Hd. apply andb_true_iff in Hd. destruct Hd as [He Hd].
  unfold Server.deliverAll. simpl. apply IH; [|exact Hd].
  apply deliver_consistent; assumption.
Qed.

End CloseFacts.

(* ===================================================================== *)
(** ** Shutdown: the claims                                               *)
(* ===================================================================== *)

(** C4, as stated, fails on the grace period: the delay of the forced exit
    is the literal 5000 in [gracefulShutdown] and no configuration changes
    it. *)
Lemma grace_period_is_fixed : ~ grace_period_is_configurable.
Proof.
  intros (grace & (c1 & c2 & Hne) & H).
  set (g := {| Server.label := Server.WS; Server.httpServers := [];
               Server.clients := [];
               Server.hbMgr := createHeartbeatManager 0 0 |}).
  pose proof (H Scenario.calm
                {| Server.config := c1; Server.servers := [g];
                   Server.exitCode := None |} (js "SIGINT")) as H1.
  pose proof (H Scenario.calm
                {| Server.config := c2; Server.servers := [g];
                   Server.exitCode := None |} (js "SIGINT")) as H2.
  simpl in H1, H2.
  assert (Some (grace c1) = Some (grace c2)) as Heq.
  { rewrite <- H1, <- H2 by discriminate. reflexivity. }
  inversion Heq. contradiction.
Qed.

(** C4, amended.  When a signal reaches a running process that has at
    least one group: every group's heartbeat timer is cleared and its
    registry emptied; [terminate] is called on every client of every
    group's server, hence on every registered connection; a forced exit
    is scheduled 5000 ms later, a delay that is not configurable.  From
    then on, whatever close callbacks have been delivered and in whatever
    order, the process has exited with status 0 exactly when all of them
    have run, and as long as it has not, the forced exit ends it with
    status 1. *)
Theorem shutdown_terminates_everything_and_exits :
  forall (T : Transport) (p : Server.Process) (signal : JSString),
    Server.exitCode p = None ->
    Server.servers p <> [] ->
    Forall (fun g => Server.httpServers g <> []) (Server.servers p) ->
    Forall (fun g => timer (Server.hbMgr g) = None
                     /\ clientMap (Server.hbMgr g) = [])
           (Server.servers (fst (fst (Server.gracefulShutdown T p signal))))
    /\ (forall g c, In g (Server.servers p) -> In c (Server.clients g) ->
          In c (Trace.terminated (snd (Server.gracefulShutdown T p signal))))
    /\ (forall g s, In g (Server.servers p) -> tracked g ->
          Map_has (clientMap (Server.hbMgr g)) s = true ->
          In s (Trace.terminated (snd (Server.gracefulShutdown T p signal))))
    /\ Server.exitCode (fst (fst (Server.gracefulShutdown T p signal))) = None
    /\ Server.deadline (snd (fst (Server.gracefulShutdown T p signal)))
       = Some 5000%Z
    /\ (forall es,
          deliverable (fst (Server.gracefulShutdown T p signal)) es = true ->
          Server.exitCode
            (fst (Server.deliverAll (fst (Server.gracefulShutdown T p signal))
                    es))
          = (if all_closed
                  (snd (Server.deliverAll
                          (fst (Server.gracefulShutdown T p signal)) es))
             then Some 0%Z else None)
          /\ (all_closed
                (snd (Server.deliverAll
                        (fst (Server.gracefulShutdown T p signal)) es))
              = false ->
              Server.exitCode
                (fst (Server.deadlineFired
                        (fst (Server.deliverAll
                                (fst (Server.gracefulShutdown T p signal))
                                es))
                        (snd (Server.deliverAll
                                (fst (Server.gracefulShutdown T p signal))
                                es))))
              = Some 1%Z)).
Proof.
  intros T p signal Hrun Hne Hls.
  destruct (gracefulShutdown_spec T p signal Hne) as (Hgs & Hexit & Hsd & Hfx).
  assert (forall g c, In g (Server.servers p) -> In c (Server.clients g) ->
            In c (Trace.terminated
                    (snd (Server.gracefulShutdown T p signal)))) as Hall.
  { intros g c Hg Hc. rewrite Hfx. apply in_flat_map. eauto. }
  split; [|split; [exact Hall|split; [|split; [|split]]]].
  - rewrite Hgs. apply Forall_forall. intros g Hg.
    apply in_map_iff in Hg. destruct Hg as (g0 & <- & _). simpl. auto.
  - intros g s Hg Htr Hs. apply (Hall g s Hg). apply Htr; exact Hs.
  - congruence.
  - rewrite Hsd. reflexivity.
  - intros es Hes.
    assert (consistent
              (map (fun g => Server.with_hbMgr g (stop (Server.hbMgr g)))
                   (Server.servers p))
              (Some 5000%Z) (fst (Server.gracefulShutdown T p signal)))
      as Hc.
    { unfold consistent. rewrite Hsd, Hexit, Hrun. simpl.
      rewrite !length_map, count_open_fresh.
      split; [exact Hgs|]. split; [reflexivity|]. split; [reflexivity|].
      split; [|reflexivity].
      unfold all_closed; simpl.
      destruct (Server.servers p); [congruence|reflexivity]. }
    assert (Forall (fun g => Server.httpServers g <> [])
              (map (fun g => Server.with_hbMgr g (stop (Server.hbMgr g)))
                   (Server.servers p))) as Hls'.
    { apply Forall_forall. intros g Hg. apply in_map_iff in Hg.
      destruct Hg as (g0 & <- & Hg0). simpl.
      rewrite Forall_forall in Hls. apply Hls; exact Hg0. }
    pose proof (deliverAll_consistent Hls' es Hc Hes)
      as (_ & _ & _ & Hex & Hd).
    split; [exact Hex|]. intros Hopen. rewrite Hopen in Hex.
    unfold Server.deadlineFired. rewrite Hex, Hd. reflexivity.
Qed.

Lemma shutdown_terminates_everything_and_exits_witness :
  Trace.terminated
    (snd (Server.gracefulShutdown Scenario.calm
            (Scenario.busy Scenario.ws_only) (js "SIGINT")))
  = [1; 2; 3]%nat
  /\ Server.exitCode
       (fst (Server.deliverAll
               (fst (Server.gracefulShutdown Scenario.calm
                       (Scenario.busy Scenario.ws_only) (js "SIGINT")))
               [Server.WsClosed 0; Server.HttpClosed 0; Server.HttpClosed 0]))
     = Some 0%Z
  /\ Server.exitCode
       (fst (Server.deadlineFired
               (fst (Server.deliverAll
                       (fst (Server.gracefulShutdown Scenario.calm
                               (Scenario.busy Scenario.ws_only)
                               (js "SIGINT")))
                       [Server.WsClosed 0; Server.HttpClosed 0]))
               (snd (Server.deliverAll
                       (fst (Server.gracefulShutdown Scenario.calm
                               (Scenario.busy Scenario.ws_only)
                               (js "SIGINT")))
                       [Server.WsClosed 0; Server.HttpClosed 0]))))
     = Some 1%Z.
Proof.
  assert (Forall (fun g => Server.httpServers g <> [])
                 (Server.servers (Scenario.busy Scenario.ws_only))) as Hls.
  { repeat constructor. discriminate. }
  assert (Server.servers (Scenario.busy Scenario.ws_only) <> []) as Hne
    by discriminate.
  destruct (@shutdown_terminates_everything_and_exits Scenario.calm
              (Scenario.busy Scenario.ws_only) (js "SIGINT") eq_refl Hne Hls)
    as (_ & _ & _ & _ & _ & H).
  split; [reflexivity|]. split.
  - destruct (H [Server.WsClosed 0; Server.HttpClosed 0; Server.HttpClosed 0]
                eq_refl) as [H1 _].
    rewrite H1. reflexivity.
  - destruct (H [Server.WsClosed 0; Server.HttpClosed 0] eq_refl) as [_ H2].
    apply H2. reflexivity.
Defined.

(* ===================================================================== *)
(** ** Heartbeat manager: registration, sweeps and acknowledgments        *)
(* ===================================================================== *)

Unset Implicit Arguments.

Section RegistryFacts.

Implicit Types (m : ClientMap) (s k : Socket) (e : Entry) (h : Manager).

Lemma Map_get_set_same m s e : Map_get (Map_set m s e) s = Some e.
Proof.
  induction m as [|[k e'] m IH]; simpl; [rewrite Nat.eqb_refl; reflexivity|].
  destruct (Nat.eqb k s) eqn:E; simpl; [rewrite Nat.eqb_refl|rewrite E];
    auto.
Qed.

Lemma Map_get_set_other m s k e :
  k <> s -> Map_get (Map_set m s e) k = Map_get m k.
Proof.
  intros Hk. induction m as [|[k' e'] m IH]; simpl.
  - destruct (Nat.eqb s k) eqn:E; [|reflexivity].
    apply Nat.eqb_eq in E; congruence.
  - destruct (Nat.eqb k' s) eqn:E; simpl.
    + apply Nat.eqb_eq in E; subst k'.
      destruct (Nat.eqb s k) eqn:E'; [|reflexivity].
      apply Nat.eqb_eq in E'; congruence.
    + rewrite IH; reflexivity.
Qed.

Lemma Map_get_delete_other m s k :
  k <> s -> Map_get (Map_delete m s) k = Map_get m k.
Proof.
  intros Hk. induction m as [|[k' e'] m IH]; simpl; [reflexivity|].
  destruct (Nat.eqb k' s) eqn:E; simpl.
  - apply Nat.eqb_eq in E; subst k'.
    destruct (Nat.eqb s k) eqn:E'; [|reflexivity].
    apply Nat.eqb_eq in E'; congruence.
  - rewrite IH; reflexivity.
Qed.

Lemma Map_delete_absent m s : Map_get m s = None -> Map_delete m s = m.
Proof.
  induction m as [|[k e] m IH]; simpl; [reflexivity|].
  destruct (Nat.eqb k s); [discriminate|].
  intros H; rewrite IH by exact H; reflexivity.
Qed.

Lemma Map_delete_set_absent m s e :
  Map_get m s = None -> Map_delete (Map_set m s e) s = m.
Proof.
  induction m as [|[k e'] m IH]; simpl.
  - rewrite Nat.eqb_refl; reflexivity.
  - destruct (Nat.eqb k s) eqn:E; [discriminate|].
    intros H. simpl. rewrite E, IH by exact H. reflexivity.
Qed.

Lemma with_map_same h : with_map h (clientMap h) = h.
Proof. destruct h; reflexivity. Qed.

(** The ['pong'] listeners of a socket, however many, do what one call of
    [markAlive] does. *)
Lemma onPong_listeners h s :
  onPong h s
  = if existsb (Nat.eqb s) (pongListeners h) then markAlive h s else h.
Proof.
  unfold onPong.
  assert (forall ls acc,
             (acc = h \/ acc = markAlive h s) ->
             fold_left (fun a x => if Nat.eqb x s then pongListener a s else a)
                       ls acc
             = if existsb (Nat.eqb s) ls then markAlive h s else acc) as H.
  { induction ls as [|x ls IH]; intros acc Hacc; [reflexivity|].
    simpl. replace (Nat.eqb s x) with (Nat.eqb x s) by apply Nat.eqb_sym.
    destruct (Nat.eqb x s); simpl; [|apply IH; exact Hacc].
    change (pongListener acc s) with (markAlive acc s).
    assert (markAlive acc s = markAlive h s) as Hm
      by (destruct Hacc as [->| ->]; rewrite ?markAlive_idem; reflexivity).
    rewrite Hm, IH by (right; reflexivity).
    destruct (existsb (Nat.eqb s) ls); reflexivity. }
  apply H. left; reflexivity.
Qed.

Lemma onPong_listened h s :
  listened h -> onPong h s = markAlive h s.
Proof.
  intros Hl. rewrite onPong_listeners.
  destruct (existsb (Nat.eqb s) (pongListeners h)) eqn:E; [reflexivity|].
  symmetry. apply markAlive_absent. apply Map_get_None_keys.
  intros Hin. apply Hl in Hin.
  assert (existsb (Nat.eqb s) (pongListeners h) = true) as Ht.
  { apply existsb_exists. exists s. split; [exact Hin|apply Nat.eqb_refl]. }
  congruence.
Qed.

Lemma markAlive_keys h s : keys (clientMap (markAlive h s)) = keys (clientMap h).
Proof.
  unfold markAlive. destruct (Map_get (clientMap h) s); [|reflexivity].
  simpl. apply keys_set_alive.
Qed.

Lemma markAlive_listeners h s :
  pongListeners (markAlive h s) = pongListeners h.
Proof.
  unfold markAlive. destruct (Map_get (clientMap h) s); reflexivity.
Qed.

Lemma markAlive_other h s k :
  k <> s ->
  Map_get (clientMap (markAlive h s)) k = Map_get (clientMap h) k.
Proof.
  intros Hk. unfold markAlive.
  destruct (Map_get (clientMap h) s); [|reflexivity].
  simpl. apply Map_get_set_alive_other; exact Hk.
Qed.

Lemma onTimer_listeners T h now :
  pongListeners (fst (onTimer T h now)) = pongListeners h.
Proof.
  unfold onTimer, tick. destruct (timer h); [|reflexivity].
  destruct (sweep T (timeout h) now (clientMap h)); reflexivity.
Qed.

Lemma onTimer_keys_subset T h now k :
  In k (keys (clientMap (fst (onTimer T h now)))) -> In k (keys (clientMap h)).
Proof.
  unfold onTimer, tick. destruct (timer h); [|auto].
  pose proof (@keys_sweep_subset T (timeout h) now (clientMap h) k) as H.
  destruct (sweep T (timeout h) now (clientMap h)); exact H.
Qed.

(** One step of a manager keeps its keys distinct and every registered
    socket listened to. *)
Lemma hb_step_invariant T h (ev : HbEvent) :
  wf h -> listened h ->
  wf (fst (hb_step T h ev)) /\ listened (fst (hb_step T h ev)).
Proof.
  intros Hwf Hl. destruct ev as [now s ip|s|s|s|now| |]; simpl.
  - split; [apply wf_register; exact Hwf|].
    intros k Hk. unfold register in *; simpl in *.
    rewrite keys_Map_set in Hk. apply in_app_iff.
    destruct (Map_has (clientMap h) s).
    + left; apply Hl; exact Hk.
    + apply in_app_iff in Hk. destruct Hk as [Hk|Hk]; [left; auto|right; auto].
  - split; [apply wf_unregister; exact Hwf|].
    intros k Hk. simpl in *. apply Hl.
    apply (@keys_Map_delete_subset _ _ _ Hk).
  - split; [apply wf_markAlive; exact Hwf|].
    intros k Hk. rewrite markAlive_keys in Hk. rewrite markAlive_listeners.
    apply Hl; exact Hk.
  - rewrite (onPong_listened h s Hl).
    split; [apply wf_markAlive; exact Hwf|].
    intros k Hk. rewrite markAlive_keys in Hk. rewrite markAlive_listeners.
    apply Hl; exact Hk.
  - split; [apply wf_onTimer; exact Hwf|].
    intros k Hk. rewrite onTimer_listeners. apply Hl.
    apply (@onTimer_keys_subset T h now k Hk).
  - unfold wf, listened in *. rewrite clientMap_start.
    split; [exact Hwf|]. intros k Hk.
    unfold start. destruct (timer h); simpl; apply Hl; exact Hk.
  - split; [constructor|]. intros k [].
Qed.

Lemma hb_run_cons T h (ev : HbEvent) es :
  hb_run T h (ev :: es)
  = (fst (hb_run T (fst (hb_step T h ev)) es),
     snd (hb_step T h ev) ++ snd (hb_run T (fst (hb_step T h ev)) es)).
Proof.
  simpl. destruct (hb_step T h ev) as [h1 fx1]. cbn [fst snd].
  destruct (hb_run T h1 es) as [h2 fx2]. reflexivity.
Qed.

Lemma hb_run_invariant T es :
  forall h, wf h -> listened h ->
    wf (fst (hb_run T h es)) /\ listened (fst (hb_run T h es)).
Proof.
  induction es as [|ev es IH]; intros h Hwf Hl; [simpl; auto|].
  rewrite hb_run_cons. cbn [fst].
  destruct (hb_step_invariant T h ev Hwf Hl) as [Hwf' Hl'].
  apply IH; assumption.
Qed.

(** The sweep, entry by entry. *)
Lemma sweep_spec T timeout now m :
  fst (sweep T timeout now m)
  = map (fun se => (fst se, probed now (snd se)))
        (filter (fun se => negb (zombie timeout now (snd se))) m)
  /\ Trace.terminated (snd (sweep T timeout now m))
     = keys (filter (fun se => zombie timeout now (snd se)) m)
  /\ Observe.pinged (snd (sweep T timeout now m))
     = filter (fun s => is_open (readyState T s))
              (keys (filter (fun se => negb (zombie timeout now (snd se))) m))
  /\ Observe.warnings (snd (sweep T timeout now m))
     = map (fun se => ZombieCleaned (ip (snd se))
                        (round_div_1000 (now - lastPingSentAt (snd se))))
           (filter (fun se => zombie timeout now (snd se)) m).
Proof.
  induction m as [|[s e] m (IH1 & IH2 & IH3 & IH4)]; [simpl; auto|].
  rewrite sweep_cons. cbn [fst snd].
  assert (forall fx fx', Observe.pinged (fx ++ fx')
                         = Observe.pinged fx ++ Observe.pinged fx') as Hpa.
  { induction fx as [|x fx IHf]; intros fx'; simpl; [reflexivity|].
    destruct x; simpl; rewrite ?IHf; reflexivity. }
  assert (forall fx fx', Observe.warnings (fx ++ fx')
                         = Observe.warnings fx ++ Observe.warnings fx') as Hwa.
  { induction fx as [|x fx IHf]; intros fx'; simpl; [reflexivity|].
    destruct x; simpl; rewrite ?IHf; reflexivity. }
  rewrite terminated_app, Hpa, Hwa, IH1, IH2, IH3, IH4.
  unfold sweepEntry, zombie. simpl filter. cbn [snd].
  destruct (negb (isAlive e) && (now - lastPingSentAt e >=? timeout)%Z);
    simpl.
  - auto.
  - destruct (is_open (readyState T s)); simpl;
      [destruct (ping_throws T s)|]; simpl; auto.
Qed.

Lemma Map_get_map_filter (f : Entry -> Entry) (keep : Entry -> bool) m s e :
  NoDup (keys m) -> Map_get m s = Some e ->
  Map_get (map (fun se => (fst se, f (snd se)))
               (filter (fun se => keep (snd se)) m)) s
  = if keep e then Some (f e) else None.
Proof.
  induction m as [|[k e'] m IH]; [discriminate|].
  intros Hnd Hget. inversion Hnd as [|? ? Hk Hnd']; subst.
  simpl in Hget. simpl filter.
  destruct (Nat.eqb k s) eqn:E.
  - inversion Hget; subst e'. apply Nat.eqb_eq in E; subst k.
    destruct (keep e); simpl; [rewrite Nat.eqb_refl; reflexivity|].
    apply Map_get_None_keys. intros Hin. apply Hk.
    unfold keys in *. rewrite map_map in Hin. simpl in Hin.
    apply in_map_iff in Hin. destruct Hin as ([k e0] & <- & Hin).
    apply filter_In in Hin. destruct Hin as [Hin _].
    change k with (fst (k, e0)). apply in_map; exact Hin.
  - destruct (keep e'); simpl; rewrite ?E; apply IH; assumption.
Qed.

Lemma In_keys_filter (keep : Entry -> bool) m s e :
  NoDup (keys m) -> Map_get m s = Some e ->
  (In s (keys (filter (fun se => keep (snd se)) m)) <-> keep e = true).
Proof.
  intros Hnd Hget. unfold keys. rewrite in_map_iff. split.
  - intros ([k e0] & Hk & Hin). simpl in Hk; subst k.
    apply filter_In in Hin. destruct Hin as [Hin Hkeep].
    apply (In_Map_get _ _ _ Hnd) in Hin. simpl in Hkeep. congruence.
  - intros Hkeep. exists (s, e). split; [reflexivity|].
    apply filter_In. split; [apply Map_get_In; exact Hget|exact Hkeep].
Qed.

End RegistryFacts.

(** X1.  [register] sets the entry of the socket to "alive, probed now,
    this address" and touches no other entry.  A socket that is registered
    already keeps its place and is not duplicated, a new one goes last; the
    keys stay distinct and the timer is left as it is. *)
Theorem register_sets_one_entry :
  forall (h : Manager) (now : Z) (s : Socket) (ip : JSString),
    wf h ->
    Map_get (clientMap (register h now s ip)) s
    = Some {| isAlive := true; lastPingSentAt := now; ip := ip |}
    /\ (forall k, k <> s ->
          Map_get (clientMap (register h now s ip)) k
          = Map_get (clientMap h) k)
    /\ keys (clientMap (register h now s ip))
       = (if Map_has (clientMap h) s then keys (clientMap h)
          else keys (clientMap h) ++ [s])
    /\ wf (register h now s ip)
    /\ timer (register h now s ip) = timer h.
Proof.
  intros h now s ip Hwf. unfold register; simpl.
  split; [apply Map_get_set_same|].
  split; [intros k Hk; apply Map_get_set_other; exact Hk|].
  split; [apply keys_Map_set|].
  split; [apply (wf_register now s ip Hwf)|reflexivity].
Qed.

Lemma register_sets_one_entry_witness :
  keys (clientMap (register Scenario.two_clients 77 1 (js "10.9.9.9")))
  = [1; 2]%nat
  /\ Map_get (clientMap (register Scenario.two_clients 77 1 (js "10.9.9.9")))
             1
     = Some {| isAlive := true; lastPingSentAt := 77; ip := js "10.9.9.9" |}.
Proof.
  assert (wf Scenario.two_clients) as Hwf.
  { unfold wf; simpl. repeat constructor; simpl; intuition discriminate. }
  destruct (@register_sets_one_entry Scenario.two_clients 77%Z 1%nat
              (js "10.9.9.9") Hwf) as (H1 & _ & H3 & _).
  split; [rewrite H3; reflexivity|exact H1].
Defined.

(** X2.  [unregister] removes the entry of the socket and no other; doing
    it again, or on a socket that has no entry, changes nothing; and
    registering a new socket then unregistering it gives back the registry
    as it was. *)
Theorem unregister_removes_one_entry :
  forall (h : Manager) (now : Z) (s : Socket) (ip : JSString),
    wf h ->
    Map_get (clientMap (unregister h s)) s = None
    /\ (forall k, k <> s ->
          Map_get (clientMap (unregister h s)) k = Map_get (clientMap h) k)
    /\ unregister (unregister h s) s = unregister h s
    /\ wf (unregister h s)
    /\ (Map_get (clientMap h) s = None ->
        unregister h s = h
        /\ clientMap (unregister (register h now s ip) s) = clientMap h).
Proof.
  intros h now s ip Hwf.
  assert (Map_get (clientMap (unregister h s)) s = None) as Hgone
    by (apply Map_get_delete_same; exact Hwf).
  split; [exact Hgone|].
  split; [intros k Hk; apply Map_get_delete_other; exact Hk|].
  split.
  { unfold unregister at 1. rewrite (Map_delete_absent _ _ Hgone).
    apply with_map_same. }
  split; [apply wf_unregister; exact Hwf|].
  intros Hnone. split.
  - unfold unregister. rewrite (Map_delete_absent _ _ Hnone).
    apply with_map_same.
  - simpl. apply Map_delete_set_absent; exact Hnone.
Qed.

Lemma unregister_removes_one_entry_witness :
  keys (clientMap (unregister Scenario.two_clients 1)) = [2]%nat
  /\ clientMap (unregister (register Scenario.two_clients 5 9 (js "10.0.0.9"))
                           9)
     = clientMap Scenario.two_clients.
Proof.
  assert (wf Scenario.two_clients) as Hwf.
  { unfold wf; simpl. repeat constructor; simpl; intuition discriminate. }
  destruct (@unregister_removes_one_entry Scenario.two_clients 5%Z 9%nat
              (js "10.0.0.9") Hwf) as (_ & _ & _ & _ & H).
  split; [reflexivity|]. destruct (H eq_refl) as [_ H2]. exact H2.
Defined.

(** X3.  One sweep of the timer, whatever the clock reads.  The entries
    deleted are exactly those that are not alive and whose last probe is at
    least [timeout] old; [terminate] is called on their sockets and one
    warning is logged for each, with the age rounded to seconds.  Every
    other entry stays, in order, marked not alive and probed at [now],
    whether its [ping] throws or not; [ping] is called on those that are
    open. *)
Theorem sweep_evicts_exactly_the_zombies :
  forall (T : Transport) (h : Manager) (now : Z),
    clientMap (fst (tick T h now))
    = map (fun se => (fst se, probed now (snd se)))
          (filter (fun se => negb (zombie (timeout h) now (snd se)))
                  (clientMap h))
    /\ Trace.terminated (snd (tick T h now))
       = keys (filter (fun se => zombie (timeout h) now (snd se))
                      (clientMap h))
    /\ Observe.pinged (snd (tick T h now))
       = filter (fun s => is_open (readyState T s))
                (keys (filter (fun se => negb (zombie (timeout h) now (snd se)))
                              (clientMap h)))
    /\ Observe.warnings (snd (tick T h now))
       = map (fun se => ZombieCleaned (ip (snd se))
                          (round_div_1000 (now - lastPingSentAt (snd se))))
             (filter (fun se => zombie (timeout h) now (snd se))
                     (clientMap h)).
Proof.
  intros T h now. unfold tick.
  pose proof (sweep_spec T (timeout h) now (clientMap h)) as H.
  destruct (sweep T (timeout h) now (clientMap h)) as [m fx]. exact H.
Qed.

Lemma responsive_fresh (s : Socket) (b : bool) (es : list HbEvent) :
  responsive s b es -> responsive s true es.
Proof.
  revert b. induction es as [|ev es IH]; intros b Hres; [exact I|].
  destruct ev; simpl in *; try (apply (IH _ Hres)); try tauto.
  destruct Hres as [Hk Hres]. split; [exact Hk|apply (IH _ Hres)].
Qed.

(** X4.  A client that is acknowledged between any two firings of the
    timer (by a native pong, by [markAlive], or by being registered again)
    is never evicted, for every [interval] and [timeout], every reading of
    the clock and whatever happens to the other sockets. *)
Theorem responsive_client_is_never_evicted :
  forall (T : Transport) (es : list HbEvent) (h : Manager) (s : Socket)
         (e : Entry),
    wf h -> listened h ->
    Map_get (clientMap h) s = Some e ->
    responsive s (isAlive e) es ->
    Map_has (clientMap (fst (hb_run T h es))) s = true
    /\ ~ In s (Trace.terminated (snd (hb_run T h es))).
Proof.
  intros T es. induction es as [|ev es IH]; intros h s e Hwf Hl Hget Hres.
  - simpl. unfold Map_has. rewrite Hget. auto.
  - rewrite hb_run_cons. cbn [fst snd]. rewrite terminated_app, in_app_iff.
    destruct (hb_step_invariant T h ev Hwf Hl) as [Hwf' Hl'].
    assert (exists e', Map_get (clientMap (fst (hb_step T h ev))) s = Some e'
                       /\ responsive s (isAlive e') es
                       /\ ~ In s (Trace.terminated (snd (hb_step T h ev))))
      as (e' & Hget' & Hres' & Hnot).
    { destruct ev as [now k ip|k|k|k|now| |]; simpl in Hres |- *.
      - destruct (Nat.eq_dec k s) as [->|Hk].
        + eexists. split; [apply Map_get_set_same|].
          simpl. rewrite Nat.eqb_refl, orb_true_r in Hres. auto.
        + eexists. split; [rewrite Map_get_set_other by auto; exact Hget|].
          apply Nat.eqb_neq in Hk. rewrite Hk, orb_false_r in Hres. auto.
      - destruct Hres as [Hk Hres]. exists e.
        split; [rewrite Map_get_delete_other by auto; exact Hget|auto].
      - destruct (Nat.eq_dec k s) as [->|Hk].
        + exists (revived e). split.
          * unfold markAlive. rewrite Hget. simpl.
            apply Map_get_set_alive_same; exact Hget.
          * simpl. rewrite Nat.eqb_refl, orb_true_r in Hres. auto.
        + exists e. split; [rewrite markAlive_other by auto; exact Hget|].
          apply Nat.eqb_neq in Hk. rewrite Hk, orb_false_r in Hres. auto.
      - rewrite (onPong_listened h k Hl).
        destruct (Nat.eq_dec k s) as [->|Hk].
        + exists (revived e). split.
          * unfold markAlive. rewrite Hget. simpl.
            apply Map_get_set_alive_same; exact Hget.
          * simpl. rewrite Nat.eqb_refl, orb_true_r in Hres. auto.
        + exists e. split; [rewrite markAlive_other by auto; exact Hget|].
          apply Nat.eqb_neq in Hk. rewrite Hk, orb_false_r in Hres. auto.
      - destruct Hres as [Hfresh Hres]. unfold onTimer, tick.
        destruct (timer h).
        + pose proof (Map_get_sweep_alive T (timeout h) now _ _ Hget Hfresh)
            as Hs.
          pose proof (@sweep_terminated T (timeout h) now (clientMap h) s)
            as Ht.
          destruct (sweep T (timeout h) now (clientMap h)) as [m fx].
          simpl in *. exists (probed now e). split; [exact Hs|].
          split; [exact Hres|]. intros Hin.
          destruct (Ht Hin) as (e0 & Hin0 & Ha & _).
          apply (In_Map_get _ _ _ Hwf) in Hin0. congruence.
        + exists e. simpl. split; [exact Hget|]. split; [|tauto].
          rewrite Hfresh. apply (responsive_fresh _ _ _ Hres).
      - exists e. rewrite clientMap_start. auto.
      - contradiction. }
    destruct (IH _ s e' Hwf' Hl' Hget' Hres') as [Hhas Hno].
    split; [exact Hhas|]. tauto.
Qed.

Lemma responsive_client_is_never_evicted_witness :
  Map_has
    (clientMap
       (fst (hb_run Scenario.calm Scenario.two_clients
               [Fired 5000; Ponged 2; Fired 10000; MarkedAlive 2;
                Fired 90000; Unregistered 1; Ponged 2; Fired 200000])))
    2 = true.
Proof.
  assert (wf Scenario.two_clients) as Hwf.
  { unfold wf; simpl. repeat constructor; simpl; intuition discriminate. }
  assert (listened Scenario.two_clients) as Hl.
  { intros s Hs. exact Hs. }
  destruct (@responsive_client_is_never_evicted Scenario.calm
              [Fired 5000; Ponged 2; Fired 10000; MarkedAlive 2;
               Fired 90000; Unregistered 1; Ponged 2; Fired 200000]
              Scenario.two_clients 2%nat
              {| isAlive := true; lastPingSentAt := 40; ip := js "10.0.0.2" |}
              Hwf Hl eq_refl) as [H _].
  - simpl. repeat split; discriminate.
  - exact H.
Defined.

(** What a sweep does to one registered socket. *)
Lemma tick_entry (T : Transport) (h : Manager) (now : Z) (s : Socket)
      (e : Entry) :
  wf h -> Map_get (clientMap h) s = Some e ->
  Map_get (clientMap (fst (tick T h now))) s
  = (if zombie (timeout h) now e then None else Some (probed now e))
  /\ (In s (Trace.terminated (snd (tick T h now)))
      <-> zombie (timeout h) now e = true).
Proof.
  intros Hwf Hget. unfold tick.
  destruct (sweep_spec T (timeout h) now (clientMap h)) as (H1 & H2 & _).
  destruct (sweep T (timeout h) now (clientMap h)) as [m fx].
  simpl in *. subst m. rewrite H2. split.
  - rewrite (@Map_get_map_filter (probed now)
               (fun x => negb (zombie (timeout h) now x)) _ _ _ Hwf Hget).
    destruct (zombie (timeout h) now e); reflexivity.
  - apply (@In_keys_filter (zombie (timeout h) now) _ _ _ Hwf Hget).
Qed.

Lemma sweeps_one (T : Transport) (h : Manager) (now : Z) :
  timer h <> None -> sweeps T h [now] = (fst (tick T h now),
                                         snd (tick T h now) ++ []).
Proof.
  intros Ht. simpl. unfold onTimer.
  destruct (timer h); [|congruence].
  destruct (tick T h now); reflexivity.
Qed.

Lemma tick_timer (T : Transport) (h : Manager) (now : Z) :
  timer (fst (tick T h now)) = timer h
  /\ timeout (fst (tick T h now)) = timeout h.
Proof.
  unfold tick. destruct (sweep T (timeout h) now (clientMap h)); auto.
Qed.

Lemma sweeps_two (T : Transport) (h : Manager) (now1 now2 : Z) :
  timer h <> None ->
  sweeps T h [now1; now2]
  = (fst (tick T (fst (tick T h now1)) now2),
     snd (tick T h now1) ++ snd (tick T (fst (tick T h now1)) now2) ++ []).
Proof.
  intros Ht. cbn [sweeps]. unfold onTimer at 1.
  destruct (timer h) eqn:E; [|congruence].
  destruct (tick_timer T h now1) as [Ht1 _].
  destruct (tick T h now1) as [h1 fx1]. simpl in Ht1. cbn [fst snd].
  unfold onTimer. rewrite Ht1, E.
  destruct (tick T h1 now2); reflexivity.
Qed.

(** X5.  The two phases of the heartbeat.  For a registered client that is
    alive and then stays silent, the first sweep never evicts: it marks the
    entry not alive and records the probe time.  The second sweep evicts
    it, and terminates its socket, exactly when it comes at least
    [timeout] after the first; when it comes earlier the entry is kept and
    probed again. *)
Theorem silent_client_is_evicted_at_second_sweep_iff_late :
  forall (T : Transport) (h : Manager) (now1 now2 : Z) (s : Socket)
         (e : Entry),
    wf h -> timer h <> None ->
    Map_get (clientMap h) s = Some e -> isAlive e = true ->
    Map_get (clientMap (fst (sweeps T h [now1]))) s = Some (probed now1 e)
    /\ ~ In s (Trace.terminated (snd (sweeps T h [now1])))
    /\ ((timeout h <= now2 - now1)%Z ->
        Map_get (clientMap (fst (sweeps T h [now1; now2]))) s = None
        /\ In s (Trace.terminated (snd (sweeps T h [now1; now2]))))
    /\ ((now2 - now1 < timeout h)%Z ->
        Map_get (clientMap (fst (sweeps T h [now1; now2]))) s
        = Some (probed now2 e)
        /\ ~ In s (Trace.terminated (snd (sweeps T h [now1; now2])))).
Proof.
  intros T h now1 now2 s e Hwf Ht Hget Ha.
  rewrite (sweeps_one T h now1 Ht), (sweeps_two T h now1 now2 Ht).
  cbn [fst snd].
  rewrite !terminated_app. simpl Trace.terminated. rewrite !app_nil_r.
  destruct (tick_entry T h now1 s e Hwf Hget) as [H1 H1t].
  assert (zombie (timeout h) now1 e = false) as Hz1
    by (unfold zombie; rewrite Ha; reflexivity).
  rewrite Hz1 in H1, H1t.
  assert (~ In s (Trace.terminated (snd (tick T h now1)))) as Hn1
    by (rewrite H1t; discriminate).
  assert (wf (fst (tick T h now1))) as Hwf1.
  { unfold wf, tick.
    pose proof (sweep_wf T (timeout h) now1 _ Hwf) as Hs.
    destruct (sweep T (timeout h) now1 (clientMap h)); exact Hs. }
  destruct (tick_entry T _ now2 s _ Hwf1 H1) as [H2 H2t].
  destruct (tick_timer T h now1) as [_ Hto]. rewrite Hto in H2, H2t.
  split; [exact H1|]. split; [exact Hn1|]. split.
  - intros Hlate.
    assert (zombie (timeout h) now2 (probed now1 e) = true) as Hz2.
    { unfold zombie; simpl. rewrite Z.geb_leb. apply Z.leb_le. lia. }
    rewrite Hz2 in H2. split; [exact H2|].
    rewrite in_app_iff. right. apply H2t; exact Hz2.
  - intros Hearly.
    assert (zombie (timeout h) now2 (probed now1 e) = false) as Hz2.
    { unfold zombie; simpl. rewrite Z.geb_leb. apply Z.leb_gt. lia. }
    rewrite Hz2 in H2. split; [exact H2|].
    rewrite in_app_iff. intros [Hin|Hin]; [tauto|].
    apply H2t in Hin. congruence.
Qed.

Lemma silent_client_is_evicted_at_second_sweep_iff_late_witness :
  Map_get (clientMap (fst (sweeps Scenario.calm Scenario.two_clients
                             [5000; 20000]%Z))) 2 = None
  /\ Map_has (clientMap (fst (sweeps Scenario.calm Scenario.two_clients
                                [5000; 19999]%Z))) 2 = true.
Proof.
  assert (wf Scenario.two_clients) as Hwf.
  { unfold wf; simpl. repeat constructor; simpl; intuition discriminate. }
  assert (timer Scenario.two_clients <> None) as Ht by discriminate.
  destruct (@silent_client_is_evicted_at_second_sweep_iff_late Scenario.calm
              Scenario.two_clients 5000%Z 20000%Z 2%nat _ Hwf Ht eq_refl
              eq_refl) as (_ & _ & H3 & _).
  destruct (@silent_client_is_evicted_at_second_sweep_iff_late Scenario.calm
              Scenario.two_clients 5000%Z 19999%Z 2%nat _ Hwf Ht eq_refl
              eq_refl) as (_ & _ & _ & H4).
  split.
  - apply H3. simpl. lia.
  - unfold Map_has. destruct H4 as [H4 _]; [simpl; lia|].
    rewrite H4. reflexivity.
Defined.

(** X6.  In every state a manager can reach from its creation, a native
    pong and [markAlive] have the same effect on every socket: the two
    kinds of acknowledgment are interchangeable.  (Every registered socket
    has its listener, and several listeners on one socket do what one
    does.)  The keys of the registry stay distinct. *)
Theorem pong_and_markAlive_are_interchangeable :
  forall (T : Transport) (interval timeout : Z) (es : list HbEvent)
         (s : Socket),
    onPong (fst (hb_run T (createHeartbeatManager interval timeout) es)) s
    = markAlive (fst (hb_run T (createHeartbeatManager interval timeout) es))
                s
    /\ wf (fst (hb_run T (createHeartbeatManager interval timeout) es)).
Proof.
  intros T i t es s.
  destruct (@hb_run_invariant T es (createHeartbeatManager i t))
    as [Hwf Hl].
  - constructor.
  - intros k [].
  - split; [apply onPong_listened; exact Hl|exact Hwf].
Qed.

(* ===================================================================== *)
(** ** Broadcast relay: counts, failures and normalisation                *)
(* ===================================================================== *)

Section RelayCounts.

Variables (P : Platform) (T : Transport).

Lemma counts_app fx fx' :
  Observe.counts (fx ++ fx') = Observe.counts fx ++ Observe.counts fx'.
Proof.
  induction fx as [|x fx IH]; simpl; [reflexivity|].
  destruct x as [| | |r| |]; simpl; rewrite ?IH; try reflexivity.
  destruct r; simpl; rewrite ?IH; reflexivity.
Qed.

Lemma errors_app fx fx' :
  Observe.errors (fx ++ fx') = Observe.errors fx ++ Observe.errors fx'.
Proof.
  induction fx as [|x fx IH]; simpl; [reflexivity|].
  destruct x; simpl; rewrite ?IH; reflexivity.
Qed.

Lemma fanout_counts sender outgoing clients :
  Observe.counts (snd (Broadcast.fanout T sender outgoing clients)) = [].
Proof.
  induction clients as [|c rest IH]; [reflexivity|].
  rewrite fanout_cons.
  destruct (Nat.eqb c sender); [exact IH|].
  destruct (negb (is_open (readyState T c))); [exact IH|].
  destruct (send_throws T c outgoing); simpl; exact IH.
Qed.

(** Every eligible client gets one call; it is counted when it returns and
    logged when it throws. *)
Lemma fanout_balance sender outgoing clients :
  (fst (Broadcast.fanout T sender outgoing clients)
   + List.length
       (Observe.errors (snd (Broadcast.fanout T sender outgoing clients)))
   = List.length (eligible T sender clients))%nat.
Proof.
  induction clients as [|c rest IH]; [reflexivity|].
  rewrite fanout_cons. unfold eligible in *. simpl filter.
  destruct (Nat.eqb c sender); simpl; [exact IH|].
  destruct (is_open (readyState T c)); simpl; [|exact IH].
  destruct (send_throws T c outgoing); simpl; lia.
Qed.

Lemma eligible_online sender clients :
  NoDup clients ->
  (List.length (eligible T sender clients)
   + (if existsb (Nat.eqb sender) clients && is_open (readyState T sender)
      then 1 else 0)
   = Broadcast.totalOnline_of T clients)%nat.
Proof.
  unfold eligible, Broadcast.totalOnline_of.
  induction clients as [|c rest IH]; intros Hnd; [reflexivity|].
  inversion Hnd as [|? ? Hc Hnd']; subst. specialize (IH Hnd').
  simpl. rewrite (Nat.eqb_sym sender c).
  destruct (Nat.eqb c sender) eqn:E; simpl.
  - apply Nat.eqb_eq in E; subst c.
    assert (existsb (Nat.eqb sender) rest = false) as Hex.
    { destruct (existsb (Nat.eqb sender) rest) eqn:Ex; [|reflexivity].
      apply existsb_exists in Ex. destruct Ex as (y & Hy & Hxy).
      apply Nat.eqb_eq in Hxy; subst y. contradiction. }
    rewrite Hex in IH. simpl in IH.
    destruct (is_open (readyState T sender)); simpl; lia.
  - destruct (is_open (readyState T c)); simpl; lia.
Qed.

End RelayCounts.

(** X7.  The numbers of the summary line.  The relay logs one summary; its
    "forwarded" count is the number of [send] calls that returned, its
    "online" count the number of open clients, sender included.  Every
    open client other than the sender is either counted as forwarded or
    has one error line, so the forwarded count never exceeds the online
    count; and when the sender is an open member of a duplicate-free
    client set and no [send] throws, it is the online count minus one. *)
Theorem summary_counts_forwarded_and_online :
  forall (P : Platform) (T : Transport) (sender : Socket)
         (senderIp : JSString) (rawData : Buffer P) (clients : list Socket),
    Observe.counts (Broadcast.broadcast P T sender senderIp rawData clients)
    = [(List.length
          (Trace.delivered
             (Broadcast.broadcast P T sender senderIp rawData clients)),
        List.length (filter (fun c => is_open (readyState T c)) clients))]
    /\ (List.length
          (Trace.delivered
             (Broadcast.broadcast P T sender senderIp rawData clients))
        + List.length
            (Observe.errors
               (Broadcast.broadcast P T sender senderIp rawData clients))
        = List.length (eligible T sender clients))%nat
    /\ (List.length (eligible T sender clients)
        <= List.length (filter (fun c => is_open (readyState T c)) clients))%nat
    /\ (NoDup clients -> In sender clients ->
        readyState T sender = OPEN ->
        (forall c, send_throws T c (Broadcast.outgoing_of P rawData) = None) ->
        S (List.length
             (Trace.delivered
                (Broadcast.broadcast P T sender senderIp rawData clients)))
        = List.length (filter (fun c => is_open (readyState T c)) clients)).
Proof.
  intros P T sender senderIp rawData clients.
  pose proof (fanout_balance T sender (Broadcast.outgoing_of P rawData)
                clients) as Hbal.
  pose proof (fanout_count T sender (Broadcast.outgoing_of P rawData)
                clients) as Hcnt.
  assert (Trace.delivered
            (Broadcast.broadcast P T sender senderIp rawData clients)
          = Trace.delivered
              (snd (Broadcast.fanout T sender
                      (Broadcast.outgoing_of P rawData) clients))) as Hd.
  { rewrite broadcast_unfold, delivered_app. simpl. apply app_nil_r. }
  assert (Observe.errors
            (Broadcast.broadcast P T sender senderIp rawData clients)
          = Observe.errors
              (snd (Broadcast.fanout T sender
                      (Broadcast.outgoing_of P rawData) clients))) as He.
  { rewrite broadcast_unfold, errors_app. simpl. apply app_nil_r. }
  rewrite Hd, He, <- Hcnt.
  split; [|split; [exact Hbal|split]].
  - rewrite broadcast_unfold, counts_app, fanout_counts. reflexivity.
  - unfold eligible. clear. induction clients as [|c rest IH]; simpl; [lia|].
    destruct (Nat.eqb c sender), (is_open (readyState T c)); simpl; lia.
  - intros Hnd Hin Hopen Hsend.
    pose proof (eligible_online T sender clients Hnd) as Hon.
    assert (existsb (Nat.eqb sender) clients = true) as Hex.
    { apply existsb_exists. exists sender.
      split; [exact Hin|apply Nat.eqb_refl]. }
    rewrite Hex, Hopen in Hon. simpl in Hon.
    unfold Broadcast.totalOnline_of in Hon. rewrite <- Hon.
    assert (Observe.errors
              (snd (Broadcast.fanout T sender
                      (Broadcast.outgoing_of P rawData) clients)) = [])
      as Hnoerr.
    { clear - Hsend. induction clients as [|c rest IH]; [reflexivity|].
      rewrite fanout_cons.
      destruct (Nat.eqb c sender); [exact IH|].
      destruct (negb (is_open (readyState T c))); [exact IH|].
      rewrite Hsend. simpl. exact IH. }
    rewrite Hnoerr in Hbal. simpl in Hbal. lia.
Qed.

Lemma summary_counts_forwarded_and_online_witness :
  Observe.counts
    (Broadcast.broadcast Reference.platform Scenario.calm 2 (js "10.0.0.2")
       (Reference.payload "hi") [1; 2; 3; 4]%nat)
  = [(3, 4)]%nat.
Proof.
  destruct (summary_counts_forwarded_and_online Reference.platform
              Scenario.calm 2%nat (js "10.0.0.2") (Reference.payload "hi")
              [1; 2; 3; 4]%nat) as (H1 & _ & _ & H4).
  assert (NoDup [1; 2; 3; 4]%nat) as Hnd
    by (repeat constructor; simpl; intuition discriminate).
  specialize (H4 Hnd (or_intror (or_introl eq_refl)) eq_refl
                 (fun _ => eq_refl)).
  rewrite H1, <- H4. reflexivity.
Defined.

(** X8.  A [send] that throws stops nothing: the calls the relay makes do
    not depend on which of them throw, and every open client other than
    the sender whose own [send] returns receives the outgoing string,
    whatever happens with the others. *)
Theorem failed_send_does_not_stop_the_fanout :
  forall (P : Platform) (T T' : Transport) (sender : Socket)
         (senderIp : JSString) (rawData : Buffer P) (clients : list Socket),
    (forall c, readyState T c = readyState T' c) ->
    Trace.sends (Broadcast.broadcast P T sender senderIp rawData clients)
    = Trace.sends (Broadcast.broadcast P T' sender senderIp rawData clients)
    /\ (forall c,
          In c clients -> c <> sender -> readyState T c = OPEN ->
          send_throws T c (Broadcast.outgoing_of P rawData) = None ->
          In (c, Broadcast.outgoing_of P rawData)
             (Trace.delivered
                (Broadcast.broadcast P T sender senderIp rawData clients))).
Proof.
  intros P T T' sender senderIp rawData clients Hrs. split.
  - rewrite !broadcast_sends. f_equal. unfold eligible.
    apply filter_ext. intros c. rewrite Hrs. reflexivity.
  - intros c Hin Hne Hopen Hok. rewrite broadcast_delivered.
    apply in_map_iff. exists c. split; [reflexivity|].
    apply filter_In. split; [|rewrite Hok; reflexivity].
    apply eligible_spec. auto.
Qed.

Lemma failed_send_does_not_stop_the_fanout_witness :
  Trace.delivered
    (Broadcast.broadcast Reference.platform
       {| readyState := fun _ => OPEN;
          send_throws := fun c _ => if Nat.eqb c 1 then Some (js "EPIPE")
                                   else None;
          ping_throws := fun _ => None;
          terminate_throws := fun _ => None |}
       2 (js "10.0.0.2") (Reference.payload "hi") [1; 2; 3]%nat)
  = [(3%nat, js "hi")].
Proof.
  destruct (failed_send_does_not_stop_the_fanout Reference.platform
              {| readyState := fun _ => OPEN;
                 send_throws := fun c _ => if Nat.eqb c 1
                                          then Some (js "EPIPE") else None;
                 ping_throws := fun _ => None;
                 terminate_throws := fun _ => None |}
              Scenario.calm 2%nat (js "10.0.0.2") (Reference.payload "hi")
              [1; 2; 3]%nat (fun _ => eq_refl)) as [_ H].
  specialize (H 3%nat (or_intror (or_intror (or_introl eq_refl)))).
  assert (3 <> 2)%nat as Hne by discriminate.
  specialize (H Hne eq_refl eq_refl).
  reflexivity.
Defined.

(** X9.  When [JSON.stringify] returns, what the recipients get depends
    on a decodable payload only through the value it decodes to: two
    payloads that decode to the same value, however they are spaced or
    written, are relayed as the same string to the same clients and logged
    with the same preview.  When [JSON.stringify] throws on the value (it
    is nested too deep) the [catch] forwards each payload as its own
    decoded text, so the two are relayed alike only if their texts are the
    same. *)
Theorem equal_values_are_relayed_alike :
  forall (P : Platform) (T : Transport) (sender : Socket)
         (senderIp : JSString) (raw1 raw2 : Buffer P)
         (clients : list Socket) (v : JSValue),
    JSON_parse P (toString_utf8 P raw1) = Some v ->
    JSON_parse P (toString_utf8 P raw2) = Some v ->
    (JSON_stringify_throws P v = false ->
     Broadcast.broadcast P T sender senderIp raw1 clients
     = Broadcast.broadcast P T sender senderIp raw2 clients
     /\ Trace.sends (Broadcast.broadcast P T sender senderIp raw1 clients)
        = map (fun c => (c, JSON_stringify P v))
              (eligible T sender clients))
    /\ (JSON_stringify_throws P v = true ->
        Trace.sends (Broadcast.broadcast P T sender senderIp raw1 clients)
        = map (fun c => (c, toString_utf8 P raw1))
              (eligible T sender clients)
        /\ Trace.sends (Broadcast.broadcast P T sender senderIp raw2 clients)
           = map (fun c => (c, toString_utf8 P raw2))
                 (eligible T sender clients)
        /\ (toString_utf8 P raw1 = toString_utf8 P raw2 ->
            Broadcast.broadcast P T sender senderIp raw1 clients
            = Broadcast.broadcast P T sender senderIp raw2 clients)).
Proof.
  intros P T sender senderIp raw1 raw2 clients v H1 H2. split.
  - intros Hret.
    assert (Broadcast.outgoing_of P raw1 = JSON_stringify P v) as Ho1
      by (unfold Broadcast.outgoing_of; rewrite H1, Hret; reflexivity).
    assert (Broadcast.outgoing_of P raw2 = JSON_stringify P v) as Ho2
      by (unfold Broadcast.outgoing_of; rewrite H2, Hret; reflexivity).
    split.
    + rewrite !broadcast_unfold, Ho1, Ho2. reflexivity.
    + rewrite broadcast_sends, Ho1. reflexivity.
  - intros Hthrows.
    assert (Broadcast.outgoing_of P raw1 = toString_utf8 P raw1) as Ho1
      by (unfold Broadcast.outgoing_of; rewrite H1, Hthrows; reflexivity).
    assert (Broadcast.outgoing_of P raw2 = toString_utf8 P raw2) as Ho2
      by (unfold Broadcast.outgoing_of; rewrite H2, Hthrows; reflexivity).
    split; [rewrite broadcast_sends, Ho1; reflexivity|].
    split; [rewrite broadcast_sends, Ho2; reflexivity|].
    intros Heq. rewrite !broadcast_unfold, Ho1, Ho2, Heq. reflexivity.
Qed.

Lemma equal_values_are_relayed_alike_witness :
  Broadcast.broadcast Reference.platform Scenario.calm 1 (js "10.0.0.1")
    (Reference.payload "{'b':[1,true],'a':'x'}") [1; 2]%nat
  = Broadcast.broadcast Reference.platform Scenario.calm 1 (js "10.0.0.1")
      (Reference.payload " { 'b' : [ 1e0 , true ] , 'a' : '\u0078' } ")
      [1; 2]%nat.
Proof.
  destruct (equal_values_are_relayed_alike Reference.platform Scenario.calm
              1%nat (js "10.0.0.1")
              (Reference.payload "{'b':[1,true],'a':'x'}")
              (Reference.payload
                 " { 'b' : [ 1e0 , true ] , 'a' : '\u0078' } ")
              [1; 2]%nat
              (JObject [(js "b", JArray [JNumber (1 # 1); JBool true]);
                        (js "a", JString (js "x"))]))
    as [H _]; [reflexivity|reflexivity|exact (proj1 (H eq_refl))].
Defined.

(* ===================================================================== *)
(** ** server.js: the address of a client                                 *)
(* ===================================================================== *)

Section TrimFacts.

Import ClientIp.
















End TrimFacts.



(* ===================================================================== *)
(** ** server.js: the life of a connection and of a group                 *)
(* ===================================================================== *)

Section LifecycleFacts.

Lemma Set_delete_add (l : list Socket) (s : Socket) :
  ~ In s l -> Server.Set_delete (Server.Set_add l s) s = l.
Proof.
  intros Hno. unfold Server.Set_add, Server.Set_delete.
  assert (existsb (Nat.eqb s) l = false) as Hex.
  { destruct (existsb (Nat.eqb s) l) eqn:E; [|reflexivity].
    apply existsb_exists in E. destruct E as (y & Hy & Hxy).
    apply Nat.eqb_eq in Hxy; subst y. contradiction. }
  rewrite Hex, filter_app. simpl. rewrite Nat.eqb_refl. simpl.
  rewrite app_nil_r. clear Hex.
  induction l as [|x l IH]; [reflexivity|]. simpl in *.
  destruct (Nat.eqb x s) eqn:E.
  - apply Nat.eqb_eq in E. tauto.
  - simpl. rewrite IH by tauto. reflexivity.
Qed.

Lemma length_Set_add_new (l : list Socket) (s : Socket) :
  ~ In s l -> List.length (Server.Set_add l s) = S (List.length l).
Proof.
  intros Hno. unfold Server.Set_add.
  destruct (existsb (Nat.eqb s) l) eqn:E.
  - apply existsb_exists in E. destruct E as (y & Hy & Hxy).
    apply Nat.eqb_eq in Hxy; subst y. contradiction.
  - rewrite length_app. simpl. lia.
Qed.

Lemma Proto_eqb_refl (a : Server.Proto) : Server.Proto_eqb a a = true.
Proof. destruct a; reflexivity. Qed.

Lemma Proto_eqb_eq (a b : Server.Proto) :
  Server.Proto_eqb a b = true <-> a = b.
Proof. destruct a, b; simpl; split; intros; congruence. Qed.

(** A handler that runs on the group it is closed over, and on no other. *)
Lemma on_group_spec (gs : list Server.Group) (proto : Server.Proto)
      (f : Server.Group -> Server.Group * list Effect)
      (Q : Server.Group -> Prop) :
  (forall g, Q g -> Q (fst (f g))) ->
  (forall g, Server.label (fst (f g)) = Server.label g) ->
  Forall Q gs ->
  Forall Q (fst (on_group gs proto f))
  /\ map Server.label (fst (on_group gs proto f)) = map Server.label gs.
Proof.
  intros HQ Hlab. induction gs as [|g rest IH]; intros Hall; [simpl; auto|].
  inversion Hall as [|? ? Hg Hrest]; subst. simpl.
  destruct (Server.Proto_eqb (Server.label g) proto).
  - specialize (HQ g Hg). specialize (Hlab g).
    destruct (f g) as [g' fx]. simpl in *. split; [constructor; auto|].
    rewrite Hlab. reflexivity.
  - destruct (IH Hrest) as [IH1 IH2].
    destruct (on_group rest proto f) as [rest' fx]. simpl in *.
    split; [constructor; auto|]. rewrite IH2. reflexivity.
Qed.

Lemma upgrade_labels (gs : list Server.Group) (l : Server.Listener)
      (now : Z) (s : Socket) (ip : JSString) :
  map Server.label (fst (Server.upgrade gs l now s ip))
  = map Server.label gs
  /\ map Server.httpServers (fst (Server.upgrade gs l now s ip))
     = map Server.httpServers gs.
Proof.
  induction gs as [|g rest [IH1 IH2]]; [simpl; auto|]. simpl.
  destruct (Server.Proto_eqb (Server.label g) (Server.upgradeTo l)).
  - simpl. auto.
  - destruct (Server.upgrade rest l now s ip) as [rest' fx]. simpl in *.
    rewrite IH1, IH2. auto.
Qed.

End LifecycleFacts.

(** X11.  The life of one connection.  A new socket accepted through a
    listener of a sound group, wherever the group stands in [servers]
    (the groups have distinct labels: the secure group comes second when
    both are started), joins the clients of that group and of no other
    and is registered alive under the address [getClientIp] resolves; the
    line logged counts it among the clients.  When it closes, the clients
    and the registry are what they were before it came.  An ['error']
    followed by the ['close'] unregisters once: the second call finds
    nothing. *)
Theorem connection_then_close_restores_the_group :
  forall (pre : list Server.Group) (g : Server.Group)
         (rest : list Server.Group)
         (l : Server.Listener) (now : Z) (s : Socket)
         (req : ClientIp.Request) (ip err : JSString),
    sound g ->
    Server.upgradeTo l = Server.label g ->
    ~ In (Server.label g) (map Server.label pre) ->
    ~ In s (Server.clients g) ->
    exists g1,
      ClientIp.connection (pre ++ g :: rest) l now s req
      = (pre ++ g1 :: rest,
         [LogInfo (ClientConnected (Server.proto_label (Server.label g))
                     (ClientIp.getClientIp req)
                     (S (List.length (Server.clients g))))])
      /\ Server.label g1 = Server.label g
      /\ Server.httpServers g1 = Server.httpServers g
      /\ Server.clients g1 = Server.clients g ++ [s]
      /\ Map_get (clientMap (Server.hbMgr g1)) s
         = Some {| isAlive := true; lastPingSentAt := now;
                   ip := ClientIp.getClientIp req |}
      /\ sound g1
      /\ Server.clients (fst (Server.closeHandler g1 s ip))
         = Server.clients g
      /\ clientMap (Server.hbMgr (fst (Server.closeHandler g1 s ip)))
         = clientMap (Server.hbMgr g)
      /\ snd (Server.closeHandler g1 s ip)
         = [LogInfo (ClientDisconnected
                       (Server.proto_label (Server.label g)) ip
                       (List.length (Server.clients g)))]
      /\ Server.hbMgr
           (fst (Server.closeHandler
                   (fst (Server.errorHandler g1 s ip err)) s ip))
         = Server.hbMgr (fst (Server.errorHandler g1 s ip err)).
Proof.
  intros pre g rest l now s req ip err [Hwf Htr] Hl Hpre Hnew.
  assert (Map_get (clientMap (Server.hbMgr g)) s = None) as Habs.
  { destruct (Map_get (clientMap (Server.hbMgr g)) s) eqn:E; [|reflexivity].
    exfalso. apply Hnew, Htr. unfold Map_has. rewrite E. reflexivity. }
  assert (Server.Set_add (Server.clients g) s = Server.clients g ++ [s])
    as Hadd.
  { unfold Server.Set_add.
    destruct (existsb (Nat.eqb s) (Server.clients g)) eqn:E; [|reflexivity].
    apply existsb_exists in E. destruct E as (y & Hy & Hxy).
    apply Nat.eqb_eq in Hxy; subst y. contradiction. }
  eexists. split.
  { unfold ClientIp.connection.
    rewrite (@upgrade_at pre g rest l now s (ClientIp.getClientIp req)
                         Hl Hpre).
    rewrite (length_Set_add_new _ _ Hnew). reflexivity. }
  simpl.
  split; [reflexivity|]. split; [reflexivity|].
  split; [exact Hadd|].
  split; [apply Map_get_set_same|].
  split.
  { split.
    - apply (wf_register now s (ClientIp.getClientIp req) Hwf).
    - intros k Hk. simpl in *. apply In_Set_add.
      apply Map_has_keys in Hk. rewrite keys_Map_set in Hk.
      unfold Map_has in Hk. rewrite Habs in Hk.
      apply in_app_iff in Hk. destruct Hk as [Hk|[<-|[]]]; [|auto].
      left. apply Htr, Map_has_keys; exact Hk. }
  split; [apply Set_delete_add; exact Hnew|].
  split; [apply Map_delete_set_absent; exact Habs|].
  split.
  { rewrite (Set_delete_add _ _ Hnew). reflexivity. }
  unfold unregister, with_map. simpl.
  rewrite (Map_delete_set_absent _ _ _ Habs).
  rewrite (Map_delete_absent _ _ Habs). reflexivity.
Qed.

Lemma connection_then_close_restores_the_group_witness :
  Server.clients
    (fst (Server.closeHandler
            (hd Scenario.room
                (fst (ClientIp.connection [Scenario.room]
                        (Scenario.via_primary Scenario.ws_only) 50 9
                        {| ClientIp.x_forwarded_for := None;
                           ClientIp.socket := Some (Some (js "10.0.0.9")) |})))
            9 (js "10.0.0.9")))
  = [1; 2; 3]%nat
  /\ map (fun x => (Server.label x, Server.clients x))
         (fst (ClientIp.connection
                 (Server.servers (fst (Server.startup Scenario.both None)))
                 {| Server.role := Server.Primary;
                    Server.host := js "0.0.0.0"; Server.port := 8071;
                    Server.upgradeTo := Server.WSS |} 50 9
                 {| ClientIp.x_forwarded_for := None;
                    ClientIp.socket := Some (Some (js "10.0.0.9")) |}))
     = [(Server.WS, []); (Server.WSS, [9%nat])].
Proof.
  split.
  2:{ change (Server.servers (fst (Server.startup Scenario.both None)))
        with ([nth 0 (Server.servers (fst (Server.startup Scenario.both
                                                          None)))
                   Scenario.room]
              ++ nth 1 (Server.servers (fst (Server.startup Scenario.both
                                                            None)))
                     Scenario.room :: []).
      assert (sound (nth 1 (Server.servers
                              (fst (Server.startup Scenario.both None)))
                         Scenario.room)) as Hs.
      { split; [constructor|]. intros k Hk. discriminate Hk. }
      destruct (connection_then_close_restores_the_group
                  [nth 0 (Server.servers (fst (Server.startup Scenario.both
                                                              None)))
                       Scenario.room]
                  (nth 1 (Server.servers (fst (Server.startup Scenario.both
                                                              None)))
                       Scenario.room) []
                  {| Server.role := Server.Primary;
                     Server.host := js "0.0.0.0"; Server.port := 8071;
                     Server.upgradeTo := Server.WSS |} 50%Z 9%nat
                  {| ClientIp.x_forwarded_for := None;
                     ClientIp.socket := Some (Some (js "10.0.0.9")) |}
                  (js "10.0.0.9") (js "ECONNRESET") Hs)
        as (g1 & Hc & Hl1 & _ & Hc1 & _).
      - reflexivity.
      - simpl. intros [H|[]]. discriminate H.
      - simpl. intros [].
      - rewrite Hc. cbn [fst map app]. rewrite Hl1, Hc1. reflexivity. }
  assert (sound Scenario.room) as Hs.
  { split.
    - unfold wf; simpl. repeat constructor; simpl; intuition discriminate.
    - intros k Hk. apply Map_has_keys in Hk. exact Hk. }
  assert (~ In 9%nat (Server.clients Scenario.room)) as Hnew
    by (simpl; intuition discriminate).
  destruct (connection_then_close_restores_the_group [] Scenario.room []
              (Scenario.via_primary Scenario.ws_only) 50%Z 9%nat
              {| ClientIp.x_forwarded_for := None;
                 ClientIp.socket := Some (Some (js "10.0.0.9")) |}
              (js "10.0.0.9") (js "ECONNRESET") Hs eq_refl
              (fun H : False => H) Hnew)
    as (g1 & Hc & _ & _ & _ & _ & _ & H5 & _).
  change ([] ++ [Scenario.room]) with [Scenario.room] in Hc.
  rewrite Hc. simpl hd. rewrite H5. reflexivity.
Defined.

(** X12.  The two groups are kept apart.  An upgrade changes only the group
    its listener forwards to: the labels, the listeners and every group
    with another label are as before, and nothing happens when no group
    has that label.  A message handled for a group is sent to clients of
    that group only (and, for the probe, to its sender). *)
Theorem groups_are_kept_apart :
  forall (P : Platform) (T : Transport) (gs : list Server.Group)
         (l : Server.Listener) (now : Z) (s : Socket) (ip : JSString)
         (g : Server.Group) (rawData : Buffer P),
    map Server.label (fst (Server.upgrade gs l now s ip))
    = map Server.label gs
    /\ filter (fun x => negb (Server.Proto_eqb (Server.label x)
                                (Server.upgradeTo l)))
              (fst (Server.upgrade gs l now s ip))
       = filter (fun x => negb (Server.Proto_eqb (Server.label x)
                                  (Server.upgradeTo l))) gs
    /\ (~ In (Server.upgradeTo l) (map Server.label gs) ->
        Server.upgrade gs l now s ip = (gs, []))
    /\ (forall c,
          In c (Trace.recipients
                  (snd (Server.messageHandler P T g s ip rawData))) ->
          c = s \/ In c (Server.clients g)).
Proof.
  intros P T gs l now s ip g rawData.
  split; [apply upgrade_labels|]. split; [|split].
  - induction gs as [|x rest IH]; [reflexivity|]. simpl.
    destruct (Server.Proto_eqb (Server.label x) (Server.upgradeTo l)) eqn:E.
    + simpl. rewrite E. reflexivity.
    + destruct (Server.upgrade rest l now s ip) as [rest' fx]. simpl in *.
      rewrite E. simpl. rewrite IH. reflexivity.
  - induction gs as [|x rest IH]; [reflexivity|]. simpl. intros Hno.
    destruct (Server.Proto_eqb (Server.label x) (Server.upgradeTo l)) eqn:E.
    + apply Proto_eqb_eq in E. exfalso. apply Hno. left. exact E.
    + rewrite IH by tauto. reflexivity.
  - intros c Hc. unfold Server.messageHandler in Hc.
    destruct (Server.is_ping _).
    + simpl in Hc. destruct (send_throws T s (Server.pong P));
        simpl in Hc; left; intuition.
    + simpl in Hc. right.
      rewrite recipients_sends, broadcast_sends, map_map in Hc.
      simpl in Hc. rewrite map_id in Hc.
      apply eligible_spec in Hc. tauto.
Qed.

Section ProcessFacts.

Variables (P : Platform) (T : Transport).

Lemma healthy_upgrade gs l now s ip :
  Forall healthy gs -> Forall healthy (fst (Server.upgrade gs l now s ip)).
Proof.
  intros Hall.
  assert (Forall sound gs) as Hs
    by (eapply Forall_impl; [|exact Hall]; intros g [H _]; exact H).
  pose proof (sound_upgrade l now s ip Hs) as Hs'.
  destruct (upgrade_labels gs l now s ip) as [_ Hls].
  rewrite Forall_forall in *. intros g Hg. split; [apply Hs'; exact Hg|].
  assert (In (Server.httpServers g) (map Server.httpServers gs)) as Hin
    by (rewrite <- Hls; apply in_map; exact Hg).
  apply in_map_iff in Hin. destruct Hin as (g0 & Heq & Hg0).
  rewrite <- Heq. apply (Hall g0 Hg0).
Qed.

(** One event keeps every group sound, with its listeners and its label,
    and does not end the process. *)
Lemma server_step_invariant (p : Server.Process) (e : ServerEvent P) :
  Forall healthy (Server.servers p) ->
  Forall healthy (Server.servers (fst (server_step T p e)))
  /\ map Server.label (Server.servers (fst (server_step T p e)))
     = map Server.label (Server.servers p)
  /\ Server.exitCode (fst (server_step T p e)) = Server.exitCode p
  /\ Server.config (fst (server_step T p e)) = Server.config p.
Proof.
  intros Hall.
  assert (forall proto f,
             (forall g, healthy g -> healthy (fst (f g))) ->
             (forall g, Server.label (fst (f g)) = Server.label g) ->
             Forall healthy
               (Server.servers
                  (fst (let '(gs, fx) := on_group (Server.servers p) proto f
                        in (with_servers p gs, fx))))
             /\ map Server.label
                  (Server.servers
                     (fst (let '(gs, fx) :=
                             on_group (Server.servers p) proto f
                           in (with_servers p gs, fx))))
                = map Server.label (Server.servers p)
             /\ Server.exitCode
                  (fst (let '(gs, fx) :=
                          on_group (Server.servers p) proto f
                        in (with_servers p gs, fx)))
                = Server.exitCode p
             /\ Server.config
                  (fst (let '(gs, fx) :=
                          on_group (Server.servers p) proto f
                        in (with_servers p gs, fx)))
                = Server.config p) as Hon.
  { intros proto f HQ Hlab.
    destruct (on_group_spec (Server.servers p) proto f healthy HQ Hlab Hall)
      as [H1 H2].
    destruct (on_group (Server.servers p) proto f) as [gs fx].
    simpl in *. auto. }
  destruct e as [l now s ip|proto s ip raw|proto s ip|proto s ip err
                 |proto now|proto host port|proto host port err
                 |proto port err]; cbn [server_step].
  - pose proof (healthy_upgrade (Server.servers p) l now s ip Hall) as H1.
    destruct (upgrade_labels (Server.servers p) l now s ip) as [H2 _].
    destruct (Server.upgrade (Server.servers p) l now s ip) as [gs fx].
    simpl in *. auto.
  - apply Hon.
    + intros g [Hs Hl]. split; [apply sound_message; exact Hs|].
      unfold Server.messageHandler. destruct (Server.is_ping _); exact Hl.
    + intros g. unfold Server.messageHandler.
      destruct (Server.is_ping _); reflexivity.
  - apply Hon; [|reflexivity].
    intros g [Hs Hl]. split; [apply sound_close; exact Hs|exact Hl].
  - apply Hon; [|reflexivity].
    intros g [Hs Hl]. split; [apply sound_error; exact Hs|exact Hl].
  - apply Hon; [|reflexivity].
    intros g [Hs Hl]. split; [apply sound_onTimer; exact Hs|exact Hl].
  - apply Hon; [|reflexivity].
    intros g [Hs Hl]. split; [apply sound_listening; exact Hs|exact Hl].
  - simpl. auto.
  - simpl. auto.
Qed.

Lemma server_run_cons (p : Server.Process) (e : ServerEvent P)
      (es : list (ServerEvent P)) :
  server_run T p (e :: es)
  = (fst (server_run T (fst (server_step T p e)) es),
     snd (server_step T p e)
       ++ snd (server_run T (fst (server_step T p e)) es)).
Proof.
  simpl. destruct (server_step T p e) as [p1 fx1]. cbn [fst snd].
  destruct (server_run T p1 es) as [p2 fx2]. reflexivity.
Qed.

Lemma server_run_invariant (es : list (ServerEvent P)) :
  forall p,
    Forall healthy (Server.servers p) ->
    Forall healthy (Server.servers (fst (server_run T p es)))
    /\ map Server.label (Server.servers (fst (server_run T p es)))
       = map Server.label (Server.servers p)
    /\ Server.exitCode (fst (server_run T p es)) = Server.exitCode p
    /\ Server.config (fst (server_run T p es)) = Server.config p.
Proof.
  induction es as [|e es IH]; intros p Hall; [simpl; auto|].
  rewrite server_run_cons. cbn [fst].
  destruct (server_step_invariant p e Hall) as (H1 & H2 & H3 & H4).
  destruct (IH _ H1) as (I1 & I2 & I3 & I4).
  split; [exact I1|]. split; [congruence|]. split; congruence.
Qed.

Lemma startup_healthy c tls :
  Forall healthy (Server.servers (fst (Server.startup c tls))).
Proof. apply startup_sound. Qed.

Lemma startup_labels c tls :
  map Server.label (Server.servers (fst (Server.startup c tls)))
  = (if Server.ws_enabled c then [Server.WS] else [])
    ++ (if Server.wss_enabled c
        then match tls with None => [Server.WSS] | Some _ => [] end
        else [])
  /\ Server.exitCode (fst (Server.startup c tls))
     = (if Server.wss_enabled c
        then match tls with
             | Some _ => if Server.ws_enabled c then None else Some 1%Z
             | None => None
             end
        else None).
Proof.
  unfold Server.startup, Server.startWSS, Server.startWS.
  destruct (Server.ws_enabled c), (Server.wss_enabled c), tls; simpl; auto.
Qed.

(** The listeners of the groups are never touched. *)
Lemma on_group_listeners (gs : list Server.Group) (proto : Server.Proto)
      (f : Server.Group -> Server.Group * list Effect) :
  (forall g, Server.httpServers (fst (f g)) = Server.httpServers g) ->
  map Server.httpServers (fst (on_group gs proto f))
  = map Server.httpServers gs.
Proof.
  intros Hf. induction gs as [|g rest IH]; [reflexivity|].
  cbn [on_group]. destruct (Server.Proto_eqb (Server.label g) proto).
  - specialize (Hf g). destruct (f g) as [g' fx]. cbn [fst map] in *.
    rewrite Hf. reflexivity.
  - destruct (on_group rest proto f) as [rest' fx]. cbn [fst map] in *.
    rewrite IH. reflexivity.
Qed.

Lemma server_step_listeners (p : Server.Process) (e : ServerEvent P) :
  map Server.httpServers (Server.servers (fst (server_step T p e)))
  = map Server.httpServers (Server.servers p).
Proof.
  assert (forall proto f,
             (forall g, Server.httpServers (fst (f g))
                        = Server.httpServers g) ->
             map Server.httpServers
               (Server.servers
                  (fst (let '(gs, fx) := on_group (Server.servers p) proto f
                        in (with_servers p gs, fx))))
             = map Server.httpServers (Server.servers p)) as Hon.
  { intros proto f Hf.
    pose proof (on_group_listeners (Server.servers p) proto f Hf) as H.
    destruct (on_group (Server.servers p) proto f) as [gs fx].
    exact H. }
  destruct e as [l now s ip|proto s ip raw|proto s ip|proto s ip err
                 |proto now|proto host port|proto host port err
                 |proto port err]; cbn [server_step].
  - destruct (upgrade_labels (Server.servers p) l now s ip) as [_ H].
    destruct (Server.upgrade (Server.servers p) l now s ip) as [gs fx].
    exact H.
  - apply Hon. intros g. unfold Server.messageHandler.
    destruct (Server.is_ping _); reflexivity.
  - apply Hon. reflexivity.
  - apply Hon. reflexivity.
  - apply Hon. reflexivity.
  - apply Hon. reflexivity.
  - reflexivity.
  - reflexivity.
Qed.

Lemma server_run_listeners (es : list (ServerEvent P)) :
  forall p,
    map Server.httpServers (Server.servers (fst (server_run T p es)))
    = map Server.httpServers (Server.servers p).
Proof.
  induction es as [|e es IH]; intros p; [reflexivity|].
  rewrite server_run_cons. cbn [fst].
  rewrite IH. apply server_step_listeners.
Qed.

End ProcessFacts.

(** X13.  From start-up on, whatever events the loop delivers (upgrades,
    messages, closes, errors, timer firings, listener reports), every
    group keeps the keys of its registry distinct and among the clients of
    its server, and keeps the listeners [startListeners] gave it; the
    list of groups keeps its labels, which are distinct.  None of the
    handlers of these events calls [process.exit]: the exit status is as
    start-up left it.  (The process can still end by itself, when nothing
    is left for the event loop to wait for.) *)
Theorem groups_stay_sound :
  forall (P : Platform) (T : Transport) (c : Server.Config)
         (tls : option JSString) (es : list (ServerEvent P)),
    Forall (fun g => sound g /\ Server.httpServers g <> [])
           (Server.servers
              (fst (server_run T (fst (Server.startup c tls)) es)))
    /\ map Server.httpServers
         (Server.servers (fst (server_run T (fst (Server.startup c tls)) es)))
       = map Server.httpServers
             (Server.servers (fst (Server.startup c tls)))
    /\ map Server.label
         (Server.servers (fst (server_run T (fst (Server.startup c tls)) es)))
       = map Server.label (Server.servers (fst (Server.startup c tls)))
    /\ NoDup (map Server.label
                (Server.servers
                   (fst (server_run T (fst (Server.startup c tls)) es))))
    /\ Server.exitCode (fst (server_run T (fst (Server.startup c tls)) es))
       = Server.exitCode (fst (Server.startup c tls)).
Proof.
  intros P T c tls es.
  destruct (server_run_invariant P T es (fst (Server.startup c tls))
              (startup_healthy c tls)) as (H1 & H2 & H3 & _).
  split; [exact H1|].
  split; [apply server_run_listeners|].
  split; [exact H2|]. split; [|exact H3].
  rewrite H2. destruct (startup_labels c tls) as [Hl _]. rewrite Hl.
  destruct (Server.ws_enabled c), (Server.wss_enabled c), tls; simpl;
    repeat constructor; simpl; intuition discriminate.
Qed.

(** X14.  The validation of [loadConfig] (one protocol at least is enabled)
    makes the first branch of [gracefulShutdown] unreachable: a process
    that has not exited at start-up has a group, at any later time, so a
    signal never ends it at once; it stops the groups, schedules the forced
    exit and leaves the exit to the callbacks. *)
Theorem signal_never_exits_at_once :
  forall (P : Platform) (T : Transport) (c : Server.Config)
         (tls : option JSString) (es : list (ServerEvent P))
         (signal : JSString),
    Server.ws_enabled c || Server.wss_enabled c = true ->
    Server.exitCode (fst (Server.startup c tls)) = None ->
    Server.servers (fst (server_run T (fst (Server.startup c tls)) es)) <> []
    /\ Server.exitCode
         (fst (fst (Server.gracefulShutdown T
                      (fst (server_run T (fst (Server.startup c tls)) es))
                      signal))) = None
    /\ Server.deadline
         (snd (fst (Server.gracefulShutdown T
                      (fst (server_run T (fst (Server.startup c tls)) es))
                      signal))) = Some 5000%Z.
Proof.
  intros P T c tls es signal Hen Hrun.
  destruct (server_run_invariant P T es (fst (Server.startup c tls))
              (startup_healthy c tls)) as (_ & H2 & H3 & _).
  destruct (startup_labels c tls) as [Hl Hx].
  assert (Server.servers (fst (server_run T (fst (Server.startup c tls)) es))
          <> []) as Hne.
  { intros Hnil. rewrite Hnil in H2. simpl in H2. rewrite Hl in H2.
    rewrite Hx in Hrun.
    destruct (Server.ws_enabled c), (Server.wss_enabled c), tls;
      simpl in *; discriminate. }
  split; [exact Hne|].
  destruct (gracefulShutdown_spec T _ signal Hne) as (_ & He & Hsd & _).
  rewrite He, Hsd, H3. auto.
Qed.

Lemma signal_never_exits_at_once_witness :
  Server.deadline
    (snd (fst (Server.gracefulShutdown Scenario.calm
                 (fst (@server_run Reference.platform Scenario.calm
                         (fst (Server.startup Scenario.both
                                 (Some (js "ENOENT"))))
                         [@Upgraded Reference.platform
                            (Scenario.via_primary Scenario.both) 10 1
                            (js "10.0.0.1");
                          @Closed Reference.platform Server.WS 1
                            (js "10.0.0.1")]))
                 (js "SIGTERM")))) = Some 5000%Z.
Proof.
  destruct (signal_never_exits_at_once Reference.platform Scenario.calm
              Scenario.both (Some (js "ENOENT"))
              [@Upgraded Reference.platform
                 (Scenario.via_primary Scenario.both) 10 1 (js "10.0.0.1");
               @Closed Reference.platform Server.WS 1 (js "10.0.0.1")]
              (js "SIGTERM") eq_refl eq_refl) as (_ & _ & H).
  exact H.
Defined.

Section IdleFacts.

Variables (P : Platform) (T : Transport).

Lemma quiet_fanout sender outgoing clients :
  Forall quiet (snd (Broadcast.fanout T sender outgoing clients)).
Proof.
  induction clients as [|c rest IH]; [constructor|].
  rewrite fanout_cons.
  destruct (Nat.eqb c sender); [exact IH|].
  destruct (negb (is_open (readyState T c))); [exact IH|].
  destruct (send_throws T c outgoing); simpl; repeat constructor; exact IH.
Qed.

Lemma quiet_message g s ip (rawData : Buffer P) :
  Forall quiet (snd (Server.messageHandler P T g s ip rawData)).
Proof.
  unfold Server.messageHandler. destruct (Server.is_ping _); simpl.
  - destruct (send_throws T s (Server.pong P)); repeat constructor.
  - rewrite broadcast_unfold. apply Forall_app. split.
    + apply quiet_fanout.
    + repeat constructor.
Qed.

Lemma quiet_observed fx :
  Forall quiet fx -> Observe.pinged fx = [] /\ Trace.terminated fx = [].
Proof.
  induction fx as [|x fx IH]; intros H; [simpl; auto|].
  inversion H as [|? ? Hx Hfx]; subst. destruct (IH Hfx) as [IH1 IH2].
  destruct x; simpl in *; try contradiction; auto.
Qed.

(** A handler that keeps a property of the groups and whose effects have
    a property keeps both when it runs on its group. *)
Lemma on_group_effects (gs : list Server.Group) (proto : Server.Proto)
      (f : Server.Group -> Server.Group * list Effect)
      (Q : Server.Group -> Prop) :
  (forall g, Q g -> Q (fst (f g)) /\ Forall quiet (snd (f g))) ->
  Forall Q gs ->
  Forall Q (fst (on_group gs proto f))
  /\ Forall quiet (snd (on_group gs proto f)).
Proof.
  intros HQ. induction gs as [|g rest IH]; intros Hall;
    [simpl; auto|].
  inversion Hall as [|? ? Hg Hrest]; subst. simpl.
  destruct (Server.Proto_eqb (Server.label g) proto).
  - destruct (HQ g Hg) as [H1 H2]. destruct (f g) as [g' fx]. simpl in *.
    split; [constructor; auto|exact H2].
  - destruct (IH Hrest) as [IH1 IH2].
    destruct (on_group rest proto f) as [rest' fx]. simpl in *.
    split; [constructor; auto|exact IH2].
Qed.

Lemma idle_upgrade gs l now s ip :
  Forall idle gs ->
  Forall idle (fst (Server.upgrade gs l now s ip))
  /\ Forall quiet (snd (Server.upgrade gs l now s ip)).
Proof.
  induction gs as [|g rest IH]; intros Hall; [simpl; auto|].
  inversion Hall as [|? ? Hg Hrest]; subst. simpl.
  destruct (Server.Proto_eqb (Server.label g) (Server.upgradeTo l)).
  - simpl. split; [constructor; auto|repeat constructor].
  - destruct (IH Hrest) as [IH1 IH2].
    destruct (Server.upgrade rest l now s ip) as [rest' fx]. simpl in *.
    split; [constructor; auto|exact IH2].
Qed.

Lemma server_step_idle (p : Server.Process) (e : ServerEvent P) :
  (forall proto host port, e <> Listening P proto host port) ->
  Forall idle (Server.servers p) ->
  Forall idle (Server.servers (fst (server_step T p e)))
  /\ Forall quiet (snd (server_step T p e)).
Proof.
  intros Hnl Hall.
  assert (forall proto f,
             (forall g, idle g -> idle (fst (f g))
                                  /\ Forall quiet (snd (f g))) ->
             Forall idle
               (Server.servers
                  (fst (let '(gs, fx) := on_group (Server.servers p) proto f
                        in (with_servers p gs, fx))))
             /\ Forall quiet
                  (snd (let '(gs, fx) := on_group (Server.servers p) proto f
                        in (with_servers p gs, fx)))) as Hon.
  { intros proto f HQ.
    destruct (on_group_effects (Server.servers p) proto f idle HQ Hall)
      as [H1 H2].
    destruct (on_group (Server.servers p) proto f) as [gs fx].
    simpl in *. auto. }
  destruct e as [l now s ip|proto s ip raw|proto s ip|proto s ip err
                 |proto now|proto host port|proto host port err
                 |proto port err]; cbn [server_step].
  - destruct (idle_upgrade (Server.servers p) l now s ip Hall) as [H1 H2].
    destruct (Server.upgrade (Server.servers p) l now s ip) as [gs fx].
    simpl in *. auto.
  - apply Hon. intros g Hg. split; [|apply quiet_message].
    unfold idle, Server.messageHandler in *.
    destruct (Server.is_ping _); [|exact Hg]. simpl.
    unfold markAlive. destruct (Map_get _ s); exact Hg.
  - apply Hon. intros g Hg. split; [exact Hg|repeat constructor].
  - apply Hon. intros g Hg. split; [exact Hg|repeat constructor].
  - apply Hon. intros g Hg. unfold idle in *. simpl.
    unfold onTimer. rewrite Hg. simpl. split; [exact Hg|constructor].
  - exfalso. apply (Hnl proto host port). reflexivity.
  - simpl. split; [exact Hall|repeat constructor].
  - simpl. split; [exact Hall|repeat constructor].
Qed.

End IdleFacts.

Section TimerOfGroup.

Variables (P : Platform) (T : Transport).

(** [bindUpgrade] runs the ['connection'] listener on the group its
    listener forwards to. *)
Lemma upgrade_on_group (gs : list Server.Group) (l : Server.Listener)
      (now : Z) (s : Socket) (ip : JSString) :
  Server.upgrade gs l now s ip
  = on_group gs (Server.upgradeTo l)
      (fun g => Server.connectionHandler
                  {| Server.label := Server.label g;
                     Server.httpServers := Server.httpServers g;
                     Server.clients := Server.Set_add (Server.clients g) s;
                     Server.hbMgr := Server.hbMgr g |} now s ip).
Proof.
  induction gs as [|g rest IH]; [reflexivity|]. cbn [Server.upgrade on_group].
  destruct (Server.Proto_eqb (Server.label g) (Server.upgradeTo l));
    [reflexivity|].
  rewrite IH. reflexivity.
Qed.

Lemma Proto_eqb_sym (a b : Server.Proto) :
  Server.Proto_eqb a b = Server.Proto_eqb b a.
Proof. destruct a, b; reflexivity. Qed.

(** The group a handler runs on is the group that carries the label. *)
Lemma group_of_on_group (gs : list Server.Group) (proto : Server.Proto)
      (f : Server.Group -> Server.Group * list Effect) (L : Server.Proto) :
  (forall g, Server.label (fst (f g)) = Server.label g) ->
  group_of (fst (on_group gs proto f)) L
  = if Server.Proto_eqb proto L
    then option_map (fun g => fst (f g)) (group_of gs L)
    else group_of gs L.
Proof.
  intros Hlab. induction gs as [|g rest IH]; cbn [on_group].
  - destruct (Server.Proto_eqb proto L); reflexivity.
  - destruct (Server.Proto_eqb (Server.label g) proto) eqn:E.
    + apply Proto_eqb_eq in E. pose proof (Hlab g) as Hg.
      destruct (f g) as [g' fx] eqn:Ef. cbn [fst] in *.
      unfold group_of. cbn [find]. rewrite Hg, E.
      destruct (Server.Proto_eqb proto L); cbn [option_map];
        [rewrite Ef|]; reflexivity.
    + destruct (on_group rest proto f) as [rest' fx]. cbn [fst] in *.
      unfold group_of in *. cbn [find].
      destruct (Server.Proto_eqb (Server.label g) L) eqn:EL.
      * apply Proto_eqb_eq in EL. subst L.
        rewrite Proto_eqb_sym, E. reflexivity.
      * exact IH.
Qed.

Lemma on_group_snd (gs : list Server.Group) (proto : Server.Proto)
      (f : Server.Group -> Server.Group * list Effect) :
  snd (on_group gs proto f)
  = match group_of gs proto with
    | Some g => snd (f g)
    | None => []
    end.
Proof.
  induction gs as [|g rest IH]; [reflexivity|].
  cbn [on_group]. unfold group_of in *. cbn [find].
  destruct (Server.Proto_eqb (Server.label g) proto).
  - destruct (f g) as [g' fx]. reflexivity.
  - destruct (on_group rest proto f) as [rest' fx]. exact IH.
Qed.

Lemma group_of_In (gs : list Server.Group) (g : Server.Group) :
  NoDup (map Server.label gs) -> In g gs ->
  group_of gs (Server.label g) = Some g.
Proof.
  induction gs as [|x rest IH]; intros Hnd Hin; [contradiction Hin|].
  inversion Hnd as [|? ? Hx Hrest]; subst.
  unfold group_of in *. cbn [find].
  destruct Hin as [->|Hin].
  - rewrite Proto_eqb_refl. reflexivity.
  - destruct (Server.Proto_eqb (Server.label x) (Server.label g)) eqn:E.
    + apply Proto_eqb_eq in E. exfalso. apply Hx. rewrite E.
      apply in_map. exact Hin.
    + apply IH; assumption.
Qed.

Lemma onTimer_timer (h : Manager) (now : Z) :
  timer (fst (onTimer T h now)) = timer h.
Proof.
  unfold onTimer, tick. destruct (timer h) eqn:E; [|exact E].
  destruct (sweep T (timeout h) now (clientMap h)). exact E.
Qed.

Lemma onTimer_interval (h : Manager) (now : Z) :
  interval (fst (onTimer T h now)) = interval h.
Proof.
  unfold onTimer, tick. destruct (timer h); [|reflexivity].
  destruct (sweep T (timeout h) now (clientMap h)). reflexivity.
Qed.

(** The interval and the timer of the group that carries [L], across one
    event: only the report of its own primary listener changes the timer,
    by [start]. *)
Lemma server_step_timer (p : Server.Process) (e : ServerEvent P)
      (L : Server.Proto) :
  match group_of (Server.servers (fst (server_step T p e))) L,
        group_of (Server.servers p) L with
  | Some g', Some g =>
      interval (Server.hbMgr g') = interval (Server.hbMgr g)
      /\ timer (Server.hbMgr g')
         = (if reported [e] L then timer (start (Server.hbMgr g))
            else timer (Server.hbMgr g))
  | None, None => True
  | _, _ => False
  end.
Proof.
  assert (forall proto f,
             (forall g, Server.label (fst (f g)) = Server.label g) ->
             group_of
               (Server.servers
                  (fst (let '(gs, fx) := on_group (Server.servers p) proto f
                        in (with_servers p gs, fx)))) L
             = if Server.Proto_eqb proto L
               then option_map (fun g => fst (f g))
                               (group_of (Server.servers p) L)
               else group_of (Server.servers p) L) as Hon.
  { intros proto f Hf.
    pose proof (group_of_on_group (Server.servers p) proto f L Hf) as H.
    destruct (on_group (Server.servers p) proto f) as [gs fx]. exact H. }
  destruct e as [l now s ip|proto s ip raw|proto s ip|proto s ip err
                 |proto now|proto host port|proto host port err
                 |proto port err]; cbn [server_step reported existsb orb].
  - rewrite upgrade_on_group, Hon by reflexivity.
    destruct (Server.Proto_eqb (Server.upgradeTo l) L),
      (group_of (Server.servers p) L) as [g|]; cbn [option_map];
      auto.
  - rewrite Hon
      by (intros g; unfold Server.messageHandler;
          destruct (Server.is_ping _); reflexivity).
    destruct (Server.Proto_eqb proto L),
      (group_of (Server.servers p) L) as [g|]; cbn [option_map]; auto.
    unfold Server.messageHandler. destruct (Server.is_ping _); cbn [fst];
      [|auto].
    cbn [Server.with_hbMgr Server.hbMgr]. unfold markAlive.
    destruct (Map_get _ s); auto.
  - rewrite Hon by reflexivity.
    destruct (Server.Proto_eqb proto L),
      (group_of (Server.servers p) L) as [g|]; cbn [option_map]; auto.
  - rewrite Hon by reflexivity.
    destruct (Server.Proto_eqb proto L),
      (group_of (Server.servers p) L) as [g|]; cbn [option_map]; auto.
  - rewrite Hon by reflexivity.
    destruct (Server.Proto_eqb proto L),
      (group_of (Server.servers p) L) as [g|]; cbn [option_map]; auto.
    cbn [fst Server.with_hbMgr Server.hbMgr]. rewrite onTimer_timer.
    split; [apply onTimer_interval|reflexivity].
  - rewrite Hon by reflexivity.
    destruct (Server.Proto_eqb proto L),
      (group_of (Server.servers p) L) as [g|]; cbn [option_map]; auto.
    cbn [Server.primaryListening fst Server.with_hbMgr Server.hbMgr].
    split; [|reflexivity]. unfold start.
    destruct (timer (Server.hbMgr g)); reflexivity.
  - cbn [Server.primaryError fst].
    destruct (group_of (Server.servers p) L); auto.
  - cbn [Server.loopbackError fst].
    destruct (group_of (Server.servers p) L); auto.
Qed.

(** The same across a run of events: the timer of a group runs, with the
    interval of its manager, from the first report of its own primary
    listener on. *)
Lemma server_run_timer (es : list (ServerEvent P)) :
  forall (p : Server.Process) (L : Server.Proto),
    match group_of (Server.servers (fst (server_run T p es))) L,
          group_of (Server.servers p) L with
    | Some g', Some g =>
        interval (Server.hbMgr g') = interval (Server.hbMgr g)
        /\ timer (Server.hbMgr g')
           = match timer (Server.hbMgr g) with
             | Some t => Some t
             | None => if reported es L
                       then Some (interval (Server.hbMgr g)) else None
             end
    | None, None => True
    | _, _ => False
    end.
Proof.
  induction es as [|e es IH]; intros p L.
  - cbn [server_run fst reported existsb].
    destruct (group_of (Server.servers p) L) as [g|]; [|exact I].
    split; [reflexivity|]. destruct (timer (Server.hbMgr g)); reflexivity.
  - rewrite server_run_cons. cbn [fst].
    specialize (IH (fst (server_step T p e)) L).
    pose proof (server_step_timer p e L) as Hs.
    destruct (group_of
                (Server.servers
                   (fst (server_run T (fst (server_step T p e)) es))) L)
      as [g2|];
      destruct (group_of (Server.servers (fst (server_step T p e))) L)
        as [g1|];
      destruct (group_of (Server.servers p) L) as [g|];
      try contradiction; try exact I.
    destruct IH as [I1 I2]. destruct Hs as [S1 S2].
    split; [congruence|].
    unfold reported in *. cbn [existsb] in S2 |- *.
    rewrite orb_false_r in S2. rewrite I2, S2, S1.
    unfold start.
    destruct (match e with
              | Listening _ p0 _ _ => Server.Proto_eqb p0 L
              | _ => false
              end);
      destruct (timer (Server.hbMgr g)) eqn:Et; cbn [timer orb];
      rewrite ?Et; reflexivity.
Qed.

Lemma startup_group (c : Server.Config) (tls : option JSString)
      (L : Server.Proto) (g : Server.Group) :
  group_of (Server.servers (fst (Server.startup c tls))) L = Some g ->
  interval (Server.hbMgr g) = Server.heartbeat_interval c
  /\ timer (Server.hbMgr g) = None.
Proof.
  unfold Server.startup, Server.startWSS, Server.startWS, group_of.
  destruct (Server.ws_enabled c), (Server.wss_enabled c), tls, L;
    cbn [fst Server.servers app find Server.label Server.Proto_eqb];
    intros H; try discriminate H; injection H as <-; split; reflexivity.
Qed.

(** An event that reaches a socket with a probe or a forced close is the
    firing of the timer of a group whose timer runs. *)
Lemma server_step_quiet (p : Server.Process) (e : ServerEvent P) :
  Forall quiet (snd (server_step T p e))
  \/ exists L now g,
       e = TimerFired P L now
       /\ group_of (Server.servers p) L = Some g
       /\ timer (Server.hbMgr g) <> None.
Proof.
  assert (forall proto f,
             (forall g, Forall quiet (snd (f g))) ->
             Forall quiet
               (snd (let '(gs, fx) := on_group (Server.servers p) proto f
                     in (with_servers p gs, fx)))) as Hon.
  { intros proto f Hf.
    pose proof (on_group_snd (Server.servers p) proto f) as H.
    destruct (on_group (Server.servers p) proto f) as [gs fx].
    cbn [snd] in *. rewrite H.
    destruct (group_of (Server.servers p) proto); [apply Hf|constructor]. }
  destruct e as [l now s ip|proto s ip raw|proto s ip|proto s ip err
                 |proto now|proto host port|proto host port err
                 |proto port err]; cbn [server_step].
  - left. rewrite upgrade_on_group. apply Hon.
    intros g. repeat constructor.
  - left. apply Hon. intros g. apply quiet_message.
  - left. apply Hon. intros g. repeat constructor.
  - left. apply Hon. intros g. repeat constructor.
  - pose proof (on_group_snd (Server.servers p) proto
                  (fun g => (Server.with_hbMgr g
                               (fst (onTimer T (Server.hbMgr g) now)),
                             snd (onTimer T (Server.hbMgr g) now)))) as H.
    destruct (on_group (Server.servers p) proto _) as [gs fx].
    cbn [snd] in *. rewrite H.
    destruct (group_of (Server.servers p) proto) as [g|] eqn:Eg;
      [|left; constructor].
    destruct (timer (Server.hbMgr g)) as [t|] eqn:Et.
    + right. exists proto, now, g. split; [reflexivity|].
      split; [exact Eg|]. rewrite Et. discriminate.
    + left. unfold onTimer. rewrite Et. constructor.
  - left. apply Hon. intros g. cbn [Server.primaryListening snd].
    destruct (Server.needLoopback host); repeat constructor.
  - left. repeat constructor.
  - left. repeat constructor.
Qed.

Lemma reported_nowhere (es : list (ServerEvent P)) :
  (forall proto, reported es proto = false) ->
  Forall (fun e => forall proto host port, e <> Listening P proto host port)
         es.
Proof.
  induction es as [|e es IH]; intros H; constructor.
  - intros proto host port ->. specialize (H proto).
    cbn [reported existsb] in H. rewrite Proto_eqb_refl in H.
    discriminate H.
  - apply IH. intros proto. specialize (H proto).
    cbn [reported existsb] in H. apply orb_false_iff in H. apply H.
Qed.

End TimerOfGroup.

(** X15.  The heartbeat of a group starts in the callback of its own
    primary listener and nowhere else.  At any time after start-up, and
    for each group, plain or secure: its timer runs, with the configured
    interval, exactly when its primary listener has reported that it
    listens; what the other group's listeners report does not matter.
    Until then (or for ever, when the bind failed) clients may connect to
    the group, through its loopback listener for one, and send messages,
    but an event probes or terminates a socket only if it is the firing
    of the timer of a group whose primary listener has reported.  While
    no primary listener has reported nothing is probed or terminated at
    all. *)
Theorem heartbeat_waits_for_the_primary_listener :
  forall (P : Platform) (T : Transport) (c : Server.Config)
         (tls : option JSString) (es : list (ServerEvent P)),
    (forall proto g,
       group_of (Server.servers
                   (fst (server_run T (fst (Server.startup c tls)) es)))
                proto = Some g ->
       timer (Server.hbMgr g)
       = if reported es proto then Some (Server.heartbeat_interval c)
         else None)
    /\ (forall g,
          In g (Server.servers
                  (fst (server_run T (fst (Server.startup c tls)) es))) ->
          group_of (Server.servers
                      (fst (server_run T (fst (Server.startup c tls)) es)))
                   (Server.label g) = Some g)
    /\ (forall e,
          Observe.pinged
            (snd (server_step T
                    (fst (server_run T (fst (Server.startup c tls)) es)) e))
          <> []
          \/ Trace.terminated
               (snd (server_step T
                       (fst (server_run T (fst (Server.startup c tls)) es))
                       e)) <> [] ->
          exists proto now,
            e = TimerFired P proto now /\ reported es proto = true)
    /\ ((forall proto, reported es proto = false) ->
        Observe.pinged (snd (server_run T (fst (Server.startup c tls)) es))
        = []
        /\ Trace.terminated
             (snd (server_run T (fst (Server.startup c tls)) es)) = []).
Proof.
  intros P T c tls es.
  assert (forall proto g,
            group_of (Server.servers
                        (fst (server_run T (fst (Server.startup c tls)) es)))
                     proto = Some g ->
            timer (Server.hbMgr g)
            = if reported es proto then Some (Server.heartbeat_interval c)
              else None) as Htimer.
  { intros proto g Hg.
    pose proof (server_run_timer P T es (fst (Server.startup c tls)) proto)
      as H.
    rewrite Hg in H.
    destruct (group_of (Server.servers (fst (Server.startup c tls))) proto)
      as [g0|] eqn:E0; [|contradiction].
    destruct (startup_group c tls proto g0 E0) as [Hi Ht].
    destruct H as [_ H]. rewrite H, Ht, Hi. reflexivity. }
  split; [exact Htimer|]. split; [|split].
  - intros g Hin. apply group_of_In; [|exact Hin].
    destruct (server_run_invariant P T es (fst (Server.startup c tls))
                (startup_healthy c tls)) as (_ & H2 & _).
    rewrite H2. destruct (startup_labels c tls) as [Hl _]. rewrite Hl.
    destruct (Server.ws_enabled c), (Server.wss_enabled c), tls; simpl;
      repeat constructor; simpl; intuition discriminate.
  - intros e Hfx.
    destruct (server_step_quiet P T
                (fst (server_run T (fst (Server.startup c tls)) es)) e)
      as [Hq|(L & now & g & -> & Hg & Ht)].
    + destruct (quiet_observed _ Hq) as [H1 H2].
      destruct Hfx as [Hfx|Hfx]; contradiction.
    + exists L, now. split; [reflexivity|].
      rewrite (Htimer L g Hg) in Ht.
      destruct (reported es L); [reflexivity|]. contradiction Ht.
      reflexivity.
  - intros Hno. pose proof (reported_nowhere P es Hno) as Hes.
    assert (Forall idle (Server.servers (fst (Server.startup c tls))))
      as H0.
    { unfold Server.startup, Server.startWSS, Server.startWS.
      destruct (Server.ws_enabled c), (Server.wss_enabled c), tls; simpl;
        repeat constructor. }
    assert (forall p, Forall idle (Server.servers p) ->
              Forall idle (Server.servers (fst (server_run T p es)))
              /\ Forall quiet (snd (server_run T p es))) as Hrun.
    { clear Htimer Hno. induction es as [|e es IH]; intros p Hp;
        [simpl; auto|].
      inversion Hes as [|? ? He Hes']; subst.
      rewrite server_run_cons. cbn [fst snd].
      destruct (server_step_idle P T p e He Hp) as [H1 H2].
      destruct (IH Hes' _ H1) as [I1 I2].
      split; [exact I1|]. apply Forall_app; auto. }
    destruct (Hrun _ H0) as [_ H2].
    apply quiet_observed. exact H2.
Qed.

Lemma heartbeat_waits_for_the_primary_listener_witness :
  map (fun g => (Server.label g, timer (Server.hbMgr g)))
      (Server.servers
         (fst (@server_run Reference.platform Scenario.calm
                 (fst (Server.startup Scenario.both None))
                 [@Listening Reference.platform Server.WS (js "0.0.0.0")
                    8070;
                  @Upgraded Reference.platform
                    {| Server.role := Server.Primary;
                       Server.host := js "0.0.0.0"; Server.port := 8071;
                       Server.upgradeTo := Server.WSS |}
                    10 1 (js "10.0.0.1");
                  @TimerFired Reference.platform Server.WSS 5010])))
  = [(Server.WS, Some 5000%Z); (Server.WSS, None)]
  /\ Observe.pinged
       (snd (@server_run Reference.platform Scenario.calm
               (fst (Server.startup Scenario.ws_only None))
               [@PrimaryFailed Reference.platform Server.WS
                  (js "192.168.1.10") 8070 (js "EADDRNOTAVAIL");
                @Upgraded Reference.platform
                  {| Server.role := Server.Loopback;
                     Server.host := js "127.0.0.1"; Server.port := 8070;
                     Server.upgradeTo := Server.WS |} 10 1 (js "127.0.0.1");
                @TimerFired Reference.platform Server.WS 5010;
                @TimerFired Reference.platform Server.WS 90000])) = [].
Proof.
  split.
  - reflexivity.
  - destruct (heartbeat_waits_for_the_primary_listener Reference.platform
                Scenario.calm Scenario.ws_only None
                [@PrimaryFailed Reference.platform Server.WS
                   (js "192.168.1.10") 8070 (js "EADDRNOTAVAIL");
                 @Upgraded Reference.platform
                   {| Server.role := Server.Loopback;
                      Server.host := js "127.0.0.1"; Server.port := 8070;
                      Server.upgradeTo := Server.WS |} 10 1 (js "127.0.0.1");
                 @TimerFired Reference.platform Server.WS 5010;
                 @TimerFired Reference.platform Server.WS 90000])
      as (_ & _ & _ & H).
    apply H. intros proto. reflexivity.
Defined.

(* ===================================================================== *)
(** ** server.js: counting the close callbacks of a shutdown              *)
(* ===================================================================== *)

Section CountingFacts.

Lemma remaining_set_nth gs pending i g x y :
  nth_error gs i = Some g -> nth_error pending i = Some x ->
  remaining gs (Server.set_nth pending i y)
  = (remaining gs pending - contribution g x + contribution g y)%Z.
Proof.
  revert pending i. induction gs as [|g0 gs IH];
    intros [|x0 pending] [|i];
    cbn [remaining nth_error Server.set_nth]; try discriminate.
  - intros Hg Hx. inversion Hg; inversion Hx; subst.
    unfold contribution. destruct x, y; lia.
  - intros Hg Hx. rewrite (IH _ _ Hg Hx). lia.
Qed.

Lemma counted_set_nth gs pending i g y :
  Forall2 counted gs pending -> nth_error gs i = Some g -> counted g y ->
  Forall2 counted gs (Server.set_nth pending i y).
Proof.
  intros H. revert i. induction H as [|g0 x0 gs pending H0 H IH];
    intros [|i]; simpl; try discriminate.
  - intros Hg Hy. inversion Hg; subst. constructor; assumption.
  - intros Hg Hy. constructor; [assumption|]. apply IH; assumption.
Qed.

Lemma remaining_closed gs pending :
  Forall (fun g => Server.httpServers g <> []) gs ->
  Forall2 counted gs pending ->
  (0 <= remaining gs pending)%Z
  /\ (forallb (fun x => match x with
                        | Some k => (k =? 0)%Z
                        | None => false
                        end) pending = true
      <-> remaining gs pending = 0%Z).
Proof.
  intros Hls H. induction H as [|g x gs pending Hc H IH];
    cbn [remaining forallb].
  - split; [lia|tauto].
  - inversion Hls as [|? ? Hg Hls']; subst.
    destruct (IH Hls') as [Hpos Hiff].
    destruct x as [k|]; cbn [counted] in Hc.
    + split; [lia|]. rewrite andb_true_iff, Z.eqb_eq, Hiff. lia.
    + split; [lia|]. split; [discriminate|lia].
Qed.

Lemma open_entry_found gs pending :
  Forall2 counted gs pending ->
  forallb (fun x => match x with
                    | Some k => (k =? 0)%Z
                    | None => false
                    end) pending = false ->
  exists i, nth_error pending i = Some None
            \/ exists k, nth_error pending i = Some (Some k) /\ (0 < k)%Z.
Proof.
  intros H. induction H as [|g x gs pending Hc H IH]; simpl;
    [discriminate|].
  destruct x as [k|].
  - destruct (k =? 0)%Z eqn:E; simpl.
    + intros Hf. destruct (IH Hf) as [i Hi]. exists (S i). exact Hi.
    + intros _. exists O. right. exists k. apply Z.eqb_neq in E.
      simpl in Hc. split; [reflexivity|lia].
  - intros _. exists O. left. reflexivity.
Qed.

Lemma remaining_fresh gs :
  callbacks gs
  = Z.of_nat (List.length gs
              + List.length (flat_map Server.httpServers gs)).
Proof.
  unfold callbacks. induction gs as [|g gs IH]; [reflexivity|].
  cbn [remaining map flat_map List.length]. rewrite IH, length_app. lia.
Qed.

Lemma remaining_stopped gs pending :
  remaining (map (fun g => Server.with_hbMgr g (stop (Server.hbMgr g))) gs)
            pending
  = remaining gs pending.
Proof.
  revert pending. induction gs as [|g gs IH]; intros [|x pending];
    simpl; try reflexivity.
  rewrite IH. reflexivity.
Qed.

Lemma deliverable_app st es e :
  deliverable st (es ++ [e])
  = deliverable st es && enabled (Server.deliverAll st es) e.
Proof.
  revert st. induction es as [|x es IH]; intros st; simpl.
  - rewrite andb_true_r. reflexivity.
  - unfold Server.deliverAll in *. simpl. rewrite IH, andb_assoc.
    reflexivity.
Qed.

Variable gs : list Server.Group.
Hypothesis listeners : Forall (fun g => Server.httpServers g <> []) gs.

(** One callback that is due leaves one callback less to wait for. *)
Lemma deliver_counts d st e :
  consistent gs d st -> Forall2 counted gs (Server.httpPending (snd st)) ->
  enabled st e = true ->
  Forall2 counted gs (Server.httpPending (snd (Server.deliver st e)))
  /\ remaining gs (Server.httpPending (snd (Server.deliver st e)))
     = (remaining gs (Server.httpPending (snd st)) - 1)%Z.
Proof.
  destruct st as [p sd]. intros Hc Hk Hen.
  destruct Hc as (Hgs & Hlen & Hcnt & Hexit & Hd). simpl in *.
  rewrite all_closed_count in Hexit.
  assert (forall i x, nth_error (Server.httpPending sd) i = Some x ->
             open_entry x = true ->
             Server.exitCode p = None
             /\ exists g, nth_error gs i = Some g
                          /\ nth_error (Server.servers p) i = Some g) as Hopen.
  { intros i x Hx Ho. pose proof (count_open_pos _ _ Hx Ho) as Hpos.
    split.
    - rewrite Hexit.
      replace (count_open (Server.httpPending sd) =? 0)%nat with false
        by (symmetry; apply Nat.eqb_neq; lia). reflexivity.
    - destruct (nth_error_same_length _ gs _ Hlen Hx) as [g Hg].
      exists g. rewrite Hgs. auto. }
  destruct e as [i|i]; simpl in Hen |- *.
  - destruct (nth_error (Server.httpPending sd) i) as [[k|]|] eqn:En;
      try discriminate.
    destruct (Hopen i None En eq_refl) as (Hx & g & Hg & Hg').
    unfold Server.wsClosed. rewrite Hx, Hg'. simpl. split.
    + apply (counted_set_nth _ _ _ g); auto. simpl. lia.
    + rewrite (remaining_set_nth _ _ _ g None _ Hg En).
      unfold contribution. lia.
  - destruct (nth_error (Server.httpPending sd) i) as [[k|]|] eqn:En;
      try discriminate.
    apply Z.ltb_lt in Hen.
    assert (open_entry (Some k) = true) as Hok
      by (simpl; apply negb_true_iff, Z.eqb_neq; lia).
    destruct (Hopen i (Some k) En Hok) as (Hx & g & Hg & Hg').
    assert (counted g (Some k)) as Hck.
    { clear - Hk Hg En. revert i Hg En.
      induction Hk as [|g0 x0 gs pending H0 H IH]; intros [|i]; simpl;
        try discriminate.
      - intros Hg Hx; inversion Hg; inversion Hx; subst. exact H0.
      - apply IH. }
    simpl in Hck.
    assert (Server.httpPending
              (snd (fst (Server.httpClosed p sd i)))
            = Server.set_nth (Server.httpPending sd) i (Some (k - 1)%Z))
      as Hp.
    { unfold Server.httpClosed. rewrite Hx, Hg', En.
      destruct (k - 1 =? 0)%Z; [|reflexivity].
      destruct (Server.pendingCount sd - 1 =? 0)%Z; reflexivity. }
    rewrite Hp. split.
    + apply (counted_set_nth _ _ _ g); auto. simpl. lia.
    + rewrite (remaining_set_nth _ _ _ g (Some k) _ Hg En).
      unfold contribution. lia.
Qed.

Lemma deliverAll_counts d es st :
  consistent gs d st -> Forall2 counted gs (Server.httpPending (snd st)) ->
  deliverable st es = true ->
  consistent gs d (Server.deliverAll st es)
  /\ Forall2 counted gs
       (Server.httpPending (snd (Server.deliverAll st es)))
  /\ (remaining gs (Server.httpPending (snd (Server.deliverAll st es)))
      + Z.of_nat (List.length es)
      = remaining gs (Server.httpPending (snd st)))%Z.
Proof.
  revert st. induction es as [|e es IH]; intros st Hc Hk Hd.
  - unfold Server.deliverAll. simpl.
    split; [exact Hc|]. split; [exact Hk|lia].
  - simpl in Hd. apply andb_true_iff in Hd. destruct Hd as [He Hd].
    pose proof (@deliver_consistent gs listeners d st e Hc He) as Hc'.
    destruct (deliver_counts d st e Hc Hk He) as [Hk' Hr].
    destruct (IH _ Hc' Hk' Hd) as (I1 & I2 & I3).
    unfold Server.deliverAll in *. cbn [fold_left List.length].
    split; [exact I1|]. split; [exact I2|].
    rewrite Nat2Z.inj_succ. lia.
Qed.

End CountingFacts.

Lemma gracefulShutdown_consistent (T : Transport) (p : Server.Process)
      (signal : JSString) :
  Server.exitCode p = None -> Server.servers p <> [] ->
  consistent
    (map (fun g => Server.with_hbMgr g (stop (Server.hbMgr g)))
         (Server.servers p))
    (Some 5000%Z) (fst (Server.gracefulShutdown T p signal))
  /\ Server.httpPending (snd (fst (Server.gracefulShutdown T p signal)))
     = map (fun _ => None) (Server.servers p).
Proof.
  intros Hrun Hne.
  destruct (gracefulShutdown_spec T p signal Hne) as (Hgs & Hexit & Hsd & _).
  unfold consistent. rewrite Hsd, Hexit, Hrun. simpl.
  rewrite !length_map, count_open_fresh.
  split; [|reflexivity].
  split; [exact Hgs|]. split; [reflexivity|]. split; [reflexivity|].
  split; [|reflexivity].
  unfold all_closed; simpl.
  destruct (Server.servers p); [congruence|reflexivity].
Qed.

(** X16.  A shutdown waits for one callback per WebSocket server and one
    per HTTP server, and for nothing else.  In whatever order the
    callbacks that are due arrive, the process has exited with status 0
    exactly when that many have been delivered, never before; and as long
    as fewer have, one more is due, so a run that is not cut short by the
    forced exit cannot stall for want of a callback to wait for. *)
Theorem exit_comes_with_the_last_callback :
  forall (T : Transport) (p : Server.Process) (signal : JSString)
         (es : list Server.CloseEvent),
    Server.exitCode p = None ->
    Server.servers p <> [] ->
    Forall (fun g => Server.httpServers g <> []) (Server.servers p) ->
    deliverable (fst (Server.gracefulShutdown T p signal)) es = true ->
    callbacks (Server.servers p)
    = Z.of_nat (List.length (Server.servers p)
                + List.length (flat_map Server.httpServers (Server.servers p)))
    /\ (Z.of_nat (List.length es) <= callbacks (Server.servers p))%Z
    /\ (Server.exitCode
          (fst (Server.deliverAll (fst (Server.gracefulShutdown T p signal))
                  es)) = Some 0%Z
        <-> Z.of_nat (List.length es) = callbacks (Server.servers p))
    /\ (Server.exitCode
          (fst (Server.deliverAll (fst (Server.gracefulShutdown T p signal))
                  es)) = None
        <-> (Z.of_nat (List.length es) < callbacks (Server.servers p))%Z)
    /\ ((Z.of_nat (List.length es) < callbacks (Server.servers p))%Z ->
        exists e,
          deliverable (fst (Server.gracefulShutdown T p signal)) (es ++ [e])
          = true).
Proof.
  intros T p signal es Hrun Hne Hls Hes.
  set (gs := map (fun g => Server.with_hbMgr g (stop (Server.hbMgr g)))
                 (Server.servers p)).
  assert (Forall (fun g => Server.httpServers g <> []) gs) as Hls'.
  { apply Forall_forall. intros g Hg. apply in_map_iff in Hg.
    destruct Hg as (g0 & <- & Hg0). simpl.
    rewrite Forall_forall in Hls. apply Hls; exact Hg0. }
  destruct (gracefulShutdown_consistent T p signal Hrun Hne) as [Hc Hp0].
  fold gs in Hc.
  assert (Forall2 counted gs
            (Server.httpPending
               (snd (fst (Server.gracefulShutdown T p signal))))) as Hk.
  { rewrite Hp0. unfold gs. clear.
    induction (Server.servers p); simpl; constructor; simpl; auto. }
  destruct (deliverAll_counts gs Hls' (Some 5000%Z) es _ Hc Hk Hes)
    as (Hc' & Hk' & Hr).
  rewrite Hp0 in Hr. unfold gs in Hr at 2. rewrite remaining_stopped in Hr.
  fold (callbacks (Server.servers p)) in Hr.
  destruct (remaining_closed gs _ Hls' Hk') as [Hpos Hiff].
  destruct Hc' as (_ & _ & _ & Hexit & _).
  unfold all_closed in Hexit.
  set (st := Server.deliverAll (fst (Server.gracefulShutdown T p signal)) es)
    in *.
  split; [apply remaining_fresh|]. split; [lia|].
  destruct (forallb _ (Server.httpPending (snd st))) eqn:Eall.
  - assert (remaining gs (Server.httpPending (snd st)) = 0%Z) as Hz
      by (apply Hiff; reflexivity).
    rewrite Hexit. split; [split; [intros _; lia|reflexivity]|].
    split; [split; [discriminate|lia]|]. lia.
  - assert (remaining gs (Server.httpPending (snd st)) <> 0%Z) as Hnz.
    { intros Hz. apply Hiff in Hz. discriminate. }
    rewrite Hexit. split; [split; [discriminate|lia]|].
    split; [split; [intros _; lia|reflexivity]|].
    intros _. destruct (open_entry_found gs _ Hk' Eall) as [i Hi].
    destruct Hi as [Hi|(k & Hi & Hpos')].
    + exists (Server.WsClosed i). rewrite deliverable_app, Hes.
      fold st. simpl. rewrite Hi. reflexivity.
    + exists (Server.HttpClosed i). rewrite deliverable_app, Hes.
      fold st. simpl. rewrite Hi. apply Z.ltb_lt; exact Hpos'.
Qed.

Lemma exit_comes_with_the_last_callback_witness :
  callbacks (Server.servers (Scenario.busy Scenario.ws_only)) = 3%Z
  /\ Server.exitCode
       (fst (Server.deliverAll
               (fst (Server.gracefulShutdown Scenario.calm
                       (Scenario.busy Scenario.ws_only) (js "SIGINT")))
               [Server.WsClosed 0; Server.HttpClosed 0])) = None.
Proof.
  assert (Forall (fun g => Server.httpServers g <> [])
                 (Server.servers (Scenario.busy Scenario.ws_only))) as Hls.
  { repeat constructor. discriminate. }
  assert (Server.servers (Scenario.busy Scenario.ws_only) <> []) as Hne
    by discriminate.
  destruct (exit_comes_with_the_last_callback Scenario.calm
              (Scenario.busy Scenario.ws_only) (js "SIGINT")
              [Server.WsClosed 0; Server.HttpClosed 0] eq_refl Hne Hls
              eq_refl) as (H1 & _ & _ & H4 & _).
  split; [rewrite H1; reflexivity|].
  apply H4. rewrite H1. simpl. lia.
Defined.

(* ===================================================================== *)
(** ** src/logger.js: timestamps and lines                                *)
(* ===================================================================== *)

Section TimestampFacts.

Import Logger.
Local Open Scope N_scope.

(** A check on every number of a range, run once. *)
Lemma checked_on_range (f : N -> bool) (lo len : nat) :
  forallb f (map N.of_nat (seq lo len)) = true ->
  forall n : N, (N.of_nat lo <= n < N.of_nat (lo + len))%N -> f n = true.
Proof.
  intros Hall n Hn. rewrite forallb_forall in Hall. apply Hall.
  apply in_map_iff. exists (N.to_nat n). split; [apply N2Nat.id|].
  apply in_seq. lia.
Qed.

(** [pad] writes a number below 100 with two digits. *)
Lemma pad_two (n : N) :
  (n < 100)%N -> pad n = [48 + n / 10; 48 + n mod 10]%N.
Proof.
  intros Hn.
  assert (str_eqb (pad n) [48 + n / 10; 48 + n mod 10]%N = true) as H.
  { apply (checked_on_range
             (fun n => str_eqb (pad n) [48 + n / 10; 48 + n mod 10]%N)
             0 100); [vm_compute; reflexivity|]. simpl. lia. }
  apply str_eqb_eq in H. exact H.
Qed.

(** [String] writes a year between 1000 and 9999 with four digits. *)
Lemma year_four (y : N) :
  (1000 <= y <= 9999)%N ->
  String_Z (Z.of_N y)
  = [48 + y / 100 / 10; 48 + (y / 100) mod 10; 48 + (y mod 100) / 10;
     48 + (y mod 100) mod 10]%N.
Proof.
  intros Hy.
  assert (str_eqb (String_Z (Z.of_N y))
            [48 + y / 100 / 10; 48 + (y / 100) mod 10; 48 + (y mod 100) / 10;
             48 + (y mod 100) mod 10]%N = true) as H.
  { apply (checked_on_range
             (fun y => str_eqb (String_Z (Z.of_N y))
                         [48 + y / 100 / 10; 48 + (y / 100) mod 10;
                          48 + (y mod 100) / 10; 48 + (y mod 100) mod 10]%N)
             (N.to_nat 1000) (N.to_nat 9000)); [vm_compute; reflexivity|].
    lia. }
  apply str_eqb_eq in H. exact H.
Qed.

(** The nineteen code units of a timestamp. *)
Lemma formatTimestamp_shape (d : Date) :
  in_range d ->
  formatTimestamp d
  = [48 + Z.to_N (fullYear d) / 100 / 10;
     48 + (Z.to_N (fullYear d) / 100) mod 10;
     48 + (Z.to_N (fullYear d) mod 100) / 10;
     48 + (Z.to_N (fullYear d) mod 100) mod 10;
     45; 48 + (month d + 1) / 10; 48 + (month d + 1) mod 10;
     45; 48 + date d / 10; 48 + date d mod 10;
     95; 48 + hours d / 10; 48 + hours d mod 10;
     45; 48 + minutes d / 10; 48 + minutes d mod 10;
     45; 48 + seconds d / 10; 48 + seconds d mod 10]%N.
Proof.
  intros (Hy & Hm & Hd & Hh & Hi & Hs). unfold formatTimestamp.
  replace (fullYear d) with (Z.of_N (Z.to_N (fullYear d))) at 1
    by (apply Z2N.id; lia).
  rewrite year_four by lia.
  rewrite !pad_two by lia. reflexivity.
Qed.

Lemma number2_digits (n : N) :
  (n < 100)%N -> number2 (48 + n / 10) (48 + n mod 10) = n.
Proof.
  intros _. unfold number2, digit.
  rewrite !(N.add_comm 48), !N.add_sub.
  rewrite (N.div_mod n 10) at 3 by discriminate.
  rewrite (N.mul_comm 10). reflexivity.
Qed.

(** Two strings that start with two digits compare like the numbers the
    digits write, then like what follows. *)
Lemma str_ltb_two (n m : N) (a b : JSString) :
  (n < 100)%N -> (m < 100)%N ->
  str_ltb ((48 + n / 10) :: (48 + n mod 10) :: a)%N
          ((48 + m / 10) :: (48 + m mod 10) :: b)%N
  = (n <? m)%N || ((n =? m)%N && str_ltb a b).
Proof.
  intros Hn Hm. cbn [str_ltb].
  assert (n = 10 * (n / 10) + n mod 10) as En
    by (apply N.div_mod; discriminate).
  assert (m = 10 * (m / 10) + m mod 10) as Em
    by (apply N.div_mod; discriminate).
  assert (n mod 10 < 10) as Ln by (apply N.mod_lt; discriminate).
  assert (m mod 10 < 10) as Lm by (apply N.mod_lt; discriminate).
  revert En Em Ln Lm.
  generalize (n / 10) (n mod 10) (m / 10) (m mod 10).
  intros qn rn qm rm En Em Ln Lm.
  destruct (N.ltb_spec (48 + qn) (48 + qm));
  destruct (N.eqb_spec (48 + qn) (48 + qm));
  destruct (N.ltb_spec (48 + rn) (48 + rm));
  destruct (N.eqb_spec (48 + rn) (48 + rm));
  destruct (N.ltb_spec n m); destruct (N.eqb_spec n m);
    simpl; try reflexivity; try lia.
Qed.

Lemma str_ltb_sep (c : CodeUnit) (a b : JSString) :
  str_ltb (c :: a) (c :: b) = str_ltb a b.
Proof. cbn [str_ltb]. rewrite N.ltb_irrefl, N.eqb_refl. reflexivity. Qed.

(** Reading a timestamp back gives the date it was made from. *)
Lemma parseTimestamp_formatTimestamp (d : Date) :
  in_range d -> parseTimestamp (formatTimestamp d) = Some d.
Proof.
  intros Hd. rewrite (formatTimestamp_shape d Hd).
  destruct Hd as (Hy & Hm & Hd & Hh & Hi & Hs).
  assert (Z.to_N (fullYear d) / 100 < 100) as Hhi
    by (apply N.Div0.div_lt_upper_bound; lia).
  assert (Z.to_N (fullYear d) mod 100 < 100) as Hlo
    by (apply N.mod_lt; discriminate).
  cbn [parseTimestamp]. rewrite !number2_digits by lia.
  destruct d as [y mo da ho mi se]; cbn [fullYear month date hours minutes
    seconds] in *.
  f_equal. f_equal; [|lia].
  rewrite (N.mul_comm _ 100), <- N.div_mod by discriminate. lia.
Qed.

(** The order of two timestamps is the order of the two dates. *)
Lemma str_ltb_formatTimestamp (d d' : Date) :
  in_range d -> in_range d' ->
  (str_ltb (formatTimestamp d) (formatTimestamp d') = true
   <-> (stamp d < stamp d')%Z).
Proof.
  intros Hd Hd'.
  rewrite (formatTimestamp_shape d Hd), (formatTimestamp_shape d' Hd').
  destruct Hd as (Hy & Hm & Hda & Hh & Hi & Hs).
  destruct Hd' as (Hy' & Hm' & Hda' & Hh' & Hi' & Hs').
  assert (Z.to_N (fullYear d) / 100 < 100) as Hhi
    by (apply N.Div0.div_lt_upper_bound; lia).
  assert (Z.to_N (fullYear d) mod 100 < 100) as Hlo
    by (apply N.mod_lt; discriminate).
  assert (Z.to_N (fullYear d') / 100 < 100) as Hhi'
    by (apply N.Div0.div_lt_upper_bound; lia).
  assert (Z.to_N (fullYear d') mod 100 < 100) as Hlo'
    by (apply N.mod_lt; discriminate).
  assert (fullYear d
          = Z.of_N (100 * (Z.to_N (fullYear d) / 100)
                    + Z.to_N (fullYear d) mod 100)) as Ey
    by (rewrite <- N.div_mod by discriminate; lia).
  assert (fullYear d'
          = Z.of_N (100 * (Z.to_N (fullYear d') / 100)
                    + Z.to_N (fullYear d') mod 100)) as Ey'
    by (rewrite <- N.div_mod by discriminate; lia).
  revert Hhi Hlo Hhi' Hlo' Ey Ey'.
  generalize (Z.to_N (fullYear d) / 100) (Z.to_N (fullYear d) mod 100)
             (Z.to_N (fullYear d') / 100) (Z.to_N (fullYear d') mod 100).
  intros h l h' l' Hhi Hlo Hhi' Hlo' Ey Ey'.
  unfold stamp. rewrite Ey, Ey'.
  rewrite !str_ltb_two by lia.
  rewrite str_ltb_sep, str_ltb_two by lia.
  rewrite str_ltb_sep, str_ltb_two by lia.
  rewrite str_ltb_sep, str_ltb_two by lia.
  rewrite str_ltb_sep, str_ltb_two by lia.
  rewrite str_ltb_sep, str_ltb_two by lia.
  cbn [str_ltb]. rewrite andb_false_r, orb_false_r.
  repeat (rewrite orb_true_iff || rewrite andb_true_iff).
  rewrite !N.ltb_lt, !N.eqb_eq.
  lia.
Qed.

End TimestampFacts.

(** X17.  A timestamp of [formatTimestamp] has nineteen code units and
    holds the whole date: reading it back gives the six fields it was made
    from.  So two dates with the same timestamp, or two loggers with the
    same file name, were taken in the same second. *)
Theorem timestamp_reads_back :
  forall d : Logger.Date,
    Logger.in_range d ->
    List.length (Logger.formatTimestamp d) = 19%nat
    /\ Logger.parseTimestamp (Logger.formatTimestamp d) = Some d
    /\ (forall d', Logger.in_range d' ->
          Logger.fileName d = Logger.fileName d' -> d = d').
Proof.
  intros d Hd. split; [|split].
  - rewrite (formatTimestamp_shape d Hd). reflexivity.
  - apply parseTimestamp_formatTimestamp. exact Hd.
  - intros d' Hd' Heq. unfold Logger.fileName in Heq.
    apply app_inv_tail in Heq.
    pose proof (parseTimestamp_formatTimestamp d Hd) as H1.
    pose proof (parseTimestamp_formatTimestamp d' Hd') as H2.
    rewrite Heq, H2 in H1. injection H1 as H1. symmetry. exact H1.
Qed.

Lemma timestamp_reads_back_witness :
  let d := {| Logger.fullYear := 2024%Z; Logger.month := 0%N;
              Logger.date := 5%N; Logger.hours := 9%N;
              Logger.minutes := 3%N; Logger.seconds := 7%N |} in
  Logger.formatTimestamp d = js "2024-01-05_09-03-07"
  /\ List.length (Logger.formatTimestamp d) = 19%nat
  /\ Logger.parseTimestamp (Logger.formatTimestamp d) = Some d.
Proof.
  intros d.
  assert (Logger.in_range d) as Hd by (unfold Logger.in_range; simpl; lia).
  split; [reflexivity|].
  split; [exact (proj1 (timestamp_reads_back d Hd))
         |exact (proj1 (proj2 (timestamp_reads_back d Hd)))].
Defined.

(** X18.  Timestamps sort as time goes: one timestamp comes before another
    in the order of strings (the order of a directory listing) exactly
    when its date comes first, field by field from the year to the
    second.  The zero padding of [pad] is what makes it so. *)
Theorem timestamps_sort_by_time :
  forall d d' : Logger.Date,
    Logger.in_range d -> Logger.in_range d' ->
    (Logger.str_ltb (Logger.formatTimestamp d) (Logger.formatTimestamp d')
     = true
     <-> (Logger.stamp d < Logger.stamp d')%Z).
Proof.
  intros d d' Hd Hd'. apply str_ltb_formatTimestamp; assumption.
Qed.

Lemma timestamps_sort_by_time_witness :
  let d := {| Logger.fullYear := 2024%Z; Logger.month := 8%N;
              Logger.date := 30%N; Logger.hours := 23%N;
              Logger.minutes := 59%N; Logger.seconds := 59%N |} in
  let d' := {| Logger.fullYear := 2024%Z; Logger.month := 9%N;
               Logger.date := 1%N; Logger.hours := 0%N;
               Logger.minutes := 0%N; Logger.seconds := 0%N |} in
  Logger.str_ltb (Logger.formatTimestamp d) (Logger.formatTimestamp d')
  = true.
Proof.
  intros d d'.
  assert (Logger.in_range d) as Hd by (unfold Logger.in_range; simpl; lia).
  assert (Logger.in_range d') as Hd' by (unfold Logger.in_range; simpl; lia).
  apply (proj2 (timestamps_sort_by_time d d' Hd Hd')).
  vm_compute. reflexivity.
Defined.

Section LineFacts.

Import Logger.
Local Open Scope N_scope.

(** Replacing every occurrence of a character by itself changes nothing:
    [.replace(/-/g, '-')]. *)
Lemma replace_all_same (c : CodeUnit) (s : JSString) :
  replace_all c [c] s = s.
Proof.
  unfold replace_all. induction s as [|x s IH]; [reflexivity|].
  cbn [flat_map]. rewrite IH.
  destruct (N.eqb_spec x c) as [->|_]; reflexivity.
Qed.

Lemma replace_first_app (pat rep : CodeUnit) (a b : JSString) :
  ~ In pat a ->
  replace_first pat rep (a ++ pat :: b) = a ++ rep :: b.
Proof.
  induction a as [|x a IH]; intros Hn; cbn [replace_first app].
  - rewrite N.eqb_refl. reflexivity.
  - destruct (N.eqb_spec x pat) as [->|_].
    + exfalso. apply Hn. left. reflexivity.
    + rewrite IH; [reflexivity|]. intros Hin. apply Hn. right. exact Hin.
Qed.

Lemma digit_is_not_underscore (q : N) : q < 10 -> 48 + q <> 95.
Proof. lia. Qed.

(** The time shown in a line: the timestamp with a blank at index 10. *)
Lemma timeStr_shape (d : Date) :
  in_range d ->
  timeStr d
  = firstn 10 (formatTimestamp d) ++ 32 :: skipn 11 (formatTimestamp d).
Proof.
  intros Hd. unfold timeStr. rewrite replace_all_same.
  rewrite (formatTimestamp_shape d Hd).
  destruct Hd as (Hy & Hm & Hda & Hh & Hi & Hs).
  assert (Z.to_N (fullYear d) / 100 < 100) as Hhi
    by (apply N.Div0.div_lt_upper_bound; lia).
  assert (forall n, n < 100 -> n / 10 < 10) as Hdiv
    by (intros n Hn; apply N.Div0.div_lt_upper_bound; lia).
  assert (forall n, n mod 10 < 10) as Hmod
    by (intros n; apply N.mod_lt; discriminate).
  assert (Z.to_N (fullYear d) mod 100 < 100) as Hlo
    by (apply N.mod_lt; discriminate).
  cbn [firstn skipn].
  match goal with
  | |- replace_first _ _ (?a :: ?b :: ?c :: ?e :: ?f :: ?g :: ?h :: ?i
                          :: ?j :: ?k :: 95 :: ?rest) = _ =>
      change (replace_first 95 32
                ([a; b; c; e; f; g; h; i; j; k] ++ 95 :: rest)
              = [a; b; c; e; f; g; h; i; j; k] ++ 32 :: rest)
  end.
  apply replace_first_app. cbn [In].
  intros [H|[H|[H|[H|[H|[H|[H|[H|[H|[H|[]]]]]]]]]]];
    try discriminate H;
    revert H; apply digit_is_not_underscore;
    solve [apply Hmod | apply Hdiv; lia].
Qed.

End LineFacts.

(** X19.  The layout of a log line.  The time between the brackets is the
    timestamp of [formatTimestamp] with a blank in place of the
    underscore, and nothing else changed: the second [replace] puts a
    hyphen for every hyphen, so hours, minutes and seconds stay separated
    by hyphens.  The line is "[", these nineteen units, "] ", the level,
    a blank, the message and a line feed, in this order; it goes to the
    standard output first and to the file next, and a third output, on
    the standard error, exists exactly when the append threw. *)
Theorem log_line_layout :
  forall (filePath : JSString) (appendThrows : option JSString)
         (now : Logger.Date) (level message : JSString),
    Logger.in_range now ->
    Logger.timeStr now
    = firstn 10 (Logger.formatTimestamp now)
      ++ 32%N :: skipn 11 (Logger.formatTimestamp now)
    /\ nth 13 (Logger.timeStr now) 0%N = 45%N
    /\ nth 16 (Logger.timeStr now) 0%N = 45%N
    /\ Logger.line now level message
       = 91%N :: firstn 10 (Logger.formatTimestamp now)
         ++ 32%N :: skipn 11 (Logger.formatTimestamp now)
         ++ 93%N :: 32%N :: level ++ 32%N :: message ++ [10%N]
    /\ List.length (Logger.line now level message)
       = (24 + List.length level + List.length message)%nat
    /\ firstn 2 (Logger.write filePath appendThrows now level message)
       = [Logger.Stdout (Logger.line now level message);
          Logger.Append filePath (Logger.line now level message)
                        appendThrows]
    /\ (List.length (Logger.write filePath appendThrows now level message)
        = 2%nat <-> appendThrows = None)
    /\ (forall err, appendThrows = Some err ->
        skipn 2 (Logger.write filePath appendThrows now level message)
        = [Logger.Stderr (Logger.write_failed ++ err ++ [10%N])]).
Proof.
  intros filePath appendThrows now level message Hd.
  pose proof (timeStr_shape now Hd) as Ht.
  pose proof (formatTimestamp_shape now Hd) as Hs.
  split; [exact Ht|].
  assert (List.length (Logger.timeStr now) = 19%nat) as Hlen
    by (rewrite Ht, Hs; reflexivity).
  split; [rewrite Ht, Hs; reflexivity|].
  split; [rewrite Ht, Hs; reflexivity|].
  split.
  { unfold Logger.line. rewrite Ht. cbn [app].
    rewrite <- !app_assoc. reflexivity. }
  split.
  - unfold Logger.line. rewrite !length_app, Hlen. cbn [List.length]. lia.
  - split; [reflexivity|]. split.
    + unfold Logger.write. destruct appendThrows; cbn [List.length]; split;
        intros H; try reflexivity; discriminate H.
    + intros err ->. reflexivity.
Qed.

Lemma log_line_layout_witness :
  let now := {| Logger.fullYear := 2024%Z; Logger.month := 0%N;
                Logger.date := 5%N; Logger.hours := 9%N;
                Logger.minutes := 3%N; Logger.seconds := 7%N |} in
  Logger.timeStr now = js "2024-01-05 09-03-07"
  /\ Logger.line now (js "INFO") (js "started")
     = js "[2024-01-05 09-03-07] INFO started" ++ [10%N]
  /\ Logger.line now (js "INFO") (js "started")
     = 91%N :: firstn 10 (Logger.formatTimestamp now)
       ++ 32%N :: skipn 11 (Logger.formatTimestamp now)
       ++ 93%N :: 32%N :: js "INFO" ++ 32%N :: js "started" ++ [10%N].
Proof.
  intros now.
  assert (Logger.in_range now) as Hd by (unfold Logger.in_range; simpl; lia).
  split; [reflexivity|]. split; [reflexivity|].
  exact (proj1 (proj2 (proj2 (proj2
           (log_line_layout [] None now (js "INFO") (js "started") Hd))))).
Defined.

(* ===================================================================== *)
(** ** src/config.js: what a loaded configuration is                      *)
(* ===================================================================== *)

Section LoaderFacts.

Import Loader.

Lemma bind_inr (A B : Type) (m : Result A) (f : A -> Result B) (b : B) :
  bind m f = inr b -> exists a, m = inr a /\ f a = inr b.
Proof.
  destruct m as [e|a]; cbn [bind]; intros H; [discriminate H|].
  exists a. split; [reflexivity|exact H].
Qed.

Lemma number_or_truthy (E : Env) (sec : option JSValue) (k : JSString)
      (dflt : Q) (n : Num) :
  rounds_to_zero dflt = false ->
  number_or E sec k dflt = inr n -> num_truthy n = true.
Proof.
  intros Hd. unfold number_or.
  assert (num_truthy (Finite dflt) = true) as Hdt
    by (cbn [num_truthy]; rewrite Hd; reflexivity).
  destruct sec as [o|]; [destruct (truthy o)|].
  - intros H. apply bind_inr in H. destruct H as (m & _ & H).
    injection H as <-. destruct (num_truthy m) eqn:Hm; assumption.
  - intros H. injection H as <-. exact Hdt.
  - intros H. injection H as <-. exact Hdt.
Qed.

Lemma or_default_truthy (sec : option JSValue) (k : JSString)
      (dflt : JSValue) :
  truthy dflt = true -> truthy (or_default sec k dflt) = true.
Proof.
  intros Hd. unfold or_default.
  destruct sec as [o|]; [|exact Hd].
  destruct (truthy o); [|exact Hd].
  destruct (get o k) as [v|]; [|exact Hd].
  destruct (truthy v) eqn:Hv; [exact Hv|exact Hd].
Qed.

(** A section that is left out, or falsy, gives the defaults. *)
Lemma or_default_absent (sec : option JSValue) (k : JSString)
      (dflt : JSValue) :
  opt_truthy sec = false -> or_default sec k dflt = dflt.
Proof.
  unfold or_default, opt_truthy. destruct sec as [o|]; [|reflexivity].
  intros ->. reflexivity.
Qed.

Lemma number_or_absent (E : Env) (sec : option JSValue) (k : JSString)
      (dflt : Q) :
  opt_truthy sec = false -> number_or E sec k dflt = inr (Finite dflt).
Proof.
  unfold number_or, opt_truthy. destruct sec as [o|]; [|reflexivity].
  intros ->. reflexivity.
Qed.

Lemma enabled_of_absent (sec : option JSValue) :
  opt_truthy sec = false -> enabled_of sec = true.
Proof.
  unfold enabled_of, opt_truthy. destruct sec as [o|]; [|reflexivity].
  intros ->. reflexivity.
Qed.

Lemma endpoint_absent (E : Env) (sec : option JSValue) (dflt : Q) :
  opt_truthy sec = false ->
  endpoint E sec dflt
  = inr {| enabled := true; host := JString (js "0.0.0.0");
           port := Finite dflt |}.
Proof.
  intros H. unfold endpoint.
  rewrite (number_or_absent E sec _ dflt H). cbn [bind].
  rewrite (enabled_of_absent sec H), (or_default_absent sec _ _ H).
  reflexivity.
Qed.

Lemma endpoint_checked (E : Env) (sec : option JSValue) (dflt : Q)
      (e : Endpoint) :
  rounds_to_zero dflt = false ->
  endpoint E sec dflt = inr e ->
  enabled e = enabled_of sec
  /\ truthy (host e) = true
  /\ num_truthy (port e) = true.
Proof.
  intros Hd H. unfold endpoint in H. apply bind_inr in H.
  destruct H as (n & Hn & H). injection H as <-. cbn [enabled host port].
  split; [reflexivity|].
  split; [apply or_default_truthy; reflexivity|].
  exact (number_or_truthy E sec _ dflt n Hd Hn).
Qed.

Lemma member_not_null (raw : JSValue) (k : JSString) :
  raw <> JNull -> member raw k = inr (get raw k).
Proof. destruct raw; intros H; [contradiction H|..]; reflexivity. Qed.

Lemma member_inr (raw : JSValue) (k : JSString) (x : option JSValue) :
  member raw k = inr x -> raw <> JNull /\ x = get raw k.
Proof.
  destruct raw; cbn [member]; intros H; try discriminate H;
    injection H as <-; (split; [discriminate|reflexivity]).
Qed.

Lemma enabled_of_false (sec : option JSValue) :
  enabled_of sec = false <-> switched_off sec.
Proof.
  unfold enabled_of, switched_off. split.
  - destruct sec as [o|]; [|discriminate].
    destruct (truthy o) eqn:Ho; [|discriminate].
    destruct (get o (js "enabled")) as [e|] eqn:He; [|discriminate].
    intros Hf. exists o, e. repeat split; assumption.
  - intros (o & e & -> & Ho & He & Hf). rewrite Ho, He. exact Hf.
Qed.

(** Everything a returned configuration went through. *)
Lemma loadConfig_inr (P : Platform) (E : Env) (c : Loaded) :
  loadConfig P E = inr c ->
  exists configPath text raw,
    resolveFromRoot E (JString (js "config.json")) = inr configPath
    /\ existsSync E configPath = true
    /\ readFileSync E configPath = inr text
    /\ JSON_parse P text = Some raw
    /\ raw <> JNull
    /\ endpoint E (get raw (js "ws")) (8070 # 1)%Q = inr (ws c)
    /\ endpoint E (get raw (js "wss")) (8071 # 1)%Q = inr (wss c)
    /\ enabled (ws c) || enabled (wss c) = true
    /\ resolveFromRoot E (or_default (get raw (js "tls")) (js "cert")
                             (JString (js "cacerts/cacert.pem")))
       = inr (tls_cert c)
    /\ resolveFromRoot E (or_default (get raw (js "tls")) (js "key")
                             (JString (js "cacerts/privkey.pem")))
       = inr (tls_key c)
    /\ match get raw (js "maxPayload") with
       | Some _ => Number E (get raw (js "maxPayload"))
       | None => inr (Finite (10485760 # 1)%Q)
       end = inr (maxPayload c)
    /\ le_zero (maxPayload c) = false
    /\ number_or E (get raw (js "heartbeat")) (js "interval") (15000 # 1)%Q
       = inr (heartbeat_interval c)
    /\ number_or E (get raw (js "heartbeat")) (js "timeout") (30000 # 1)%Q
       = inr (heartbeat_timeout c)
    /\ resolveFromRoot E (or_default (get raw (js "log")) (js "dir")
                             (JString (js "logs")))
       = inr (log_dir c)
    /\ (enabled (wss c) = true ->
        existsSync E (tls_cert c) = true /\ existsSync E (tls_key c) = true).
Proof.
  unfold loadConfig. intros H.
  apply bind_inr in H. destruct H as (configPath & Hpath & H).
  destruct (existsSync E configPath) eqn:Hex; cbn [negb] in H;
    [|discriminate H].
  apply bind_inr in H. destruct H as (raw & Hraw & H).
  destruct (readFileSync E configPath) as [m|text] eqn:Hread;
    [discriminate Hraw|].
  destruct (JSON_parse P text) as [v|] eqn:Hparse; [|discriminate Hraw].
  injection Hraw as ->.
  apply bind_inr in H. destruct H as (raw_ws & Hws & H).
  apply member_inr in Hws. destruct Hws as (Hnull & ->).
  apply bind_inr in H. destruct H as (e1 & He1 & H).
  rewrite (member_not_null raw _ Hnull) in H. cbn [bind] in H.
  apply bind_inr in H. destruct H as (e2 & He2 & H).
  destruct (negb (enabled e1) && negb (enabled e2)) eqn:Hen;
    [discriminate H|].
  rewrite (member_not_null raw _ Hnull) in H. cbn [bind] in H.
  apply bind_inr in H. destruct H as (cert & Hcert & H).
  apply bind_inr in H. destruct H as (key & Hkey & H).
  rewrite (member_not_null raw _ Hnull) in H. cbn [bind] in H.
  apply bind_inr in H. destruct H as (mp & Hmp & H).
  destruct (le_zero mp) eqn:Hle; [discriminate H|].
  rewrite (member_not_null raw _ Hnull) in H. cbn [bind] in H.
  apply bind_inr in H. destruct H as (iv & Hiv & H).
  apply bind_inr in H. destruct H as (tm & Htm & H).
  rewrite (member_not_null raw _ Hnull) in H. cbn [bind] in H.
  apply bind_inr in H. destruct H as (dir & Hdir & H).
  cbv zeta in H.
  assert (enabled e1 || enabled e2 = true) as Hone
    by (destruct (enabled e1), (enabled e2); try reflexivity;
        discriminate Hen).
  exists configPath, text, raw.
  cbn [enabled] in H.
  destruct (enabled e2) eqn:Hwss.
  - destruct (existsSync E cert) eqn:Hc; cbn [negb] in H; [|discriminate H].
    destruct (existsSync E key) eqn:Hk; cbn [negb] in H; [|discriminate H].
    injection H as <-.
    cbn [ws wss tls_cert tls_key maxPayload heartbeat_interval
         heartbeat_timeout log_dir].
    rewrite !Hwss.
    repeat (split; [assumption|]). assumption.
  - injection H as <-.
    cbn [ws wss tls_cert tls_key maxPayload heartbeat_interval
         heartbeat_timeout log_dir].
    rewrite !Hwss.
    repeat (split; [assumption|]). intros Hf. discriminate Hf.
Qed.

End LoaderFacts.

Section LoaderFailures.

Import Loader.

Lemma bind_inl (A B : Type) (m : Result A) (f : A -> Result B)
      (e : Failure) :
  bind m f = inl e -> m = inl e \/ exists a, m = inr a /\ f a = inl e.
Proof.
  destruct m as [e'|a]; cbn [bind]; intros H.
  - left. injection H as ->. reflexivity.
  - right. exists a. split; [reflexivity|exact H].
Qed.

Lemma resolveFromRoot_inl (E : Env) (v : JSValue) (f : Failure) :
  resolveFromRoot E v = inl f -> f <> NoProtocol.
Proof.
  unfold resolveFromRoot. destruct v; intros H; try discriminate H;
    injection H as <-; discriminate.
Qed.

Lemma Number_inl (E : Env) (x : option JSValue) (f : Failure) :
  Number E x = inl f -> f <> NoProtocol.
Proof.
  unfold Number. destruct x as [[| | | |xs|props]|]; intros H;
    try discriminate H.
  - destruct (ObjectToNumber E (JArray xs)); [|discriminate H].
    injection H as <-. discriminate.
  - destruct (ObjectToNumber E (JObject props)); [|discriminate H].
    injection H as <-. discriminate.
Qed.

Lemma number_or_inl (E : Env) (sec : option JSValue) (k : JSString)
      (dflt : Q) (f : Failure) :
  number_or E sec k dflt = inl f -> f <> NoProtocol.
Proof.
  unfold number_or. destruct sec as [o|]; [|discriminate].
  destruct (truthy o); [|discriminate].
  intros H. apply bind_inl in H. destruct H as [H|(n & _ & H)].
  - exact (Number_inl E _ f H).
  - discriminate H.
Qed.

Lemma endpoint_inl (E : Env) (sec : option JSValue) (dflt : Q)
      (f : Failure) :
  endpoint E sec dflt = inl f -> f <> NoProtocol.
Proof.
  unfold endpoint. intros H. apply bind_inl in H.
  destruct H as [H|(n & _ & H)].
  - exact (number_or_inl E sec _ dflt f H).
  - discriminate H.
Qed.

Lemma endpoint_enabled (E : Env) (sec : option JSValue) (dflt : Q)
      (e : Endpoint) :
  endpoint E sec dflt = inr e -> enabled e = enabled_of sec.
Proof.
  unfold endpoint. intros H. apply bind_inr in H.
  destruct H as (n & _ & H). injection H as <-. reflexivity.
Qed.

(** The only way to the "no protocol" error. *)
Lemma loadConfig_NoProtocol (P : Platform) (E : Env) :
  loadConfig P E = inl NoProtocol ->
  exists configPath text raw,
    resolveFromRoot E (JString (js "config.json")) = inr configPath
    /\ readFileSync E configPath = inr text
    /\ JSON_parse P text = Some raw
    /\ enabled_of (get raw (js "ws")) = false
    /\ enabled_of (get raw (js "wss")) = false.
Proof.
  unfold loadConfig. intros H.
  apply bind_inl in H. destruct H as [H|(configPath & Hpath & H)];
    [discriminate H|].
  destruct (existsSync E configPath); cbn [negb] in H; [|discriminate H].
  apply bind_inl in H. destruct H as [H|(raw & Hraw & H)].
  { destruct (readFileSync E configPath); [discriminate H|].
    destruct (JSON_parse P _); discriminate H. }
  destruct (readFileSync E configPath) as [m|text] eqn:Hread;
    [discriminate Hraw|].
  destruct (JSON_parse P text) as [v|] eqn:Hparse; [|discriminate Hraw].
  injection Hraw as ->.
  apply bind_inl in H. destruct H as [H|(raw_ws & Hws & H)].
  { destruct raw; discriminate H. }
  apply member_inr in Hws. destruct Hws as (Hnull & ->).
  apply bind_inl in H. destruct H as [H|(e1 & He1 & H)].
  { exfalso. exact (endpoint_inl E _ _ _ H eq_refl). }
  rewrite (member_not_null raw _ Hnull) in H. cbn [bind] in H.
  apply bind_inl in H. destruct H as [H|(e2 & He2 & H)].
  { exfalso. exact (endpoint_inl E _ _ _ H eq_refl). }
  destruct (negb (enabled e1) && negb (enabled e2)) eqn:Hen.
  { exists configPath, text, raw.
    apply andb_true_iff in Hen. destruct Hen as (H1 & H2).
    apply negb_true_iff in H1. apply negb_true_iff in H2.
    rewrite (endpoint_enabled E _ _ e1 He1) in H1.
    rewrite (endpoint_enabled E _ _ e2 He2) in H2.
    repeat (split; [assumption|]). assumption. }
  exfalso.
  rewrite (member_not_null raw _ Hnull) in H. cbn [bind] in H.
  apply bind_inl in H. destruct H as [H|(cert & _ & H)].
  { exact (resolveFromRoot_inl E _ _ H eq_refl). }
  apply bind_inl in H. destruct H as [H|(key & _ & H)].
  { exact (resolveFromRoot_inl E _ _ H eq_refl). }
  rewrite (member_not_null raw _ Hnull) in H. cbn [bind] in H.
  apply bind_inl in H. destruct H as [H|(mp & _ & H)].
  { destruct (get raw (js "maxPayload")); [|discriminate H].
    exact (Number_inl E _ _ H eq_refl). }
  destruct (le_zero mp); [discriminate H|].
  rewrite (member_not_null raw _ Hnull) in H. cbn [bind] in H.
  apply bind_inl in H. destruct H as [H|(iv & _ & H)].
  { exact (number_or_inl E _ _ _ _ H eq_refl). }
  apply bind_inl in H. destruct H as [H|(tm & _ & H)].
  { exact (number_or_inl E _ _ _ _ H eq_refl). }
  rewrite (member_not_null raw _ Hnull) in H. cbn [bind] in H.
  apply bind_inl in H. destruct H as [H|(dir & _ & H)].
  { exact (resolveFromRoot_inl E _ _ H eq_refl). }
  cbv zeta in H.
  destruct (enabled e2); [|discriminate H].
  destruct (existsSync E cert); cbn [negb] in H; [|discriminate H].
  destruct (existsSync E key); cbn [negb] in H; discriminate H.
Qed.

End LoaderFailures.

(** X21.  What [loadConfig] has checked when it returns.  One protocol at
    least is enabled; the two hosts are truthy values; the two ports, the
    heartbeat interval and the heartbeat timeout are numbers other than
    [NaN] and zero (a zero, like anything [Number] cannot read, gives way
    to the default); the payload limit is not [<= 0]; the file
    [config.json] exists; and when WSS is enabled the certificate and the
    key exist at the paths returned. *)
Theorem loaded_configuration_is_checked :
  forall (P : Platform) (E : Loader.Env) (c : Loader.Loaded),
    Loader.loadConfig P E = inr c ->
    Loader.enabled (Loader.ws c) || Loader.enabled (Loader.wss c) = true
    /\ truthy (Loader.host (Loader.ws c)) = true
    /\ truthy (Loader.host (Loader.wss c)) = true
    /\ Loader.num_truthy (Loader.port (Loader.ws c)) = true
    /\ Loader.num_truthy (Loader.port (Loader.wss c)) = true
    /\ Loader.num_truthy (Loader.heartbeat_interval c) = true
    /\ Loader.num_truthy (Loader.heartbeat_timeout c) = true
    /\ Loader.le_zero (Loader.maxPayload c) = false
    /\ (exists configPath,
          Loader.resolveFromRoot E (JString (js "config.json"))
          = inr configPath
          /\ Loader.existsSync E configPath = true)
    /\ (Loader.enabled (Loader.wss c) = true ->
        Loader.existsSync E (Loader.tls_cert c) = true
        /\ Loader.existsSync E (Loader.tls_key c) = true).
Proof.
  intros P E c H.
  destruct (loadConfig_inr P E c H)
    as (configPath & text & raw & Hpath & Hex & _ & _ & _ & Hws & Hwss
        & Hone & _ & _ & _ & Hle & Hiv & Htm & _ & Hfiles).
  destruct (endpoint_checked E _ (8070 # 1)%Q (Loader.ws c) eq_refl Hws)
    as (_ & Hh1 & Hp1).
  destruct (endpoint_checked E _ (8071 # 1)%Q (Loader.wss c) eq_refl Hwss)
    as (_ & Hh2 & Hp2).
  split; [exact Hone|]. split; [exact Hh1|]. split; [exact Hh2|].
  split; [exact Hp1|]. split; [exact Hp2|].
  split; [exact (number_or_truthy E _ _ (15000 # 1)%Q _ eq_refl Hiv)|].
  split; [exact (number_or_truthy E _ _ (30000 # 1)%Q _ eq_refl Htm)|].
  split; [exact Hle|].
  split; [exists configPath; split; assumption|exact Hfiles].
Qed.

Lemma loaded_configuration_is_checked_witness :
  exists c,
    Loader.loadConfig
      Reference.platform
      (posix (Reference.text
                "{'ws': {'port': 0}, 'wss': {'enabled': false}}")
             [js "/srv/app/config.json"]) = inr c
    /\ Loader.port (Loader.ws c) = Loader.Finite (8070 # 1)%Q
    /\ Loader.enabled (Loader.wss c) = false
    /\ Loader.enabled (Loader.ws c) || Loader.enabled (Loader.wss c) = true.
Proof.
  eexists. split; [vm_compute; reflexivity|].
  split; [reflexivity|]. split; [reflexivity|].
  refine (proj1 (loaded_configuration_is_checked
                   Reference.platform
                   (posix (Reference.text
                             "{'ws': {'port': 0}, 'wss': {'enabled': false}}")
                          [js "/srv/app/config.json"]) _ _)).
  vm_compute. reflexivity.
Defined.

(** X22.  Every section is optional.  When the file holds a value other
    than [null] in which the members [ws], [wss], [tls], [heartbeat] and
    [log] are left out or falsy and [maxPayload] is left out (the empty
    object, but also a number, a string or an array), and the default
    certificate and key exist, [loadConfig] returns the defaults: both
    protocols enabled on [0.0.0.0], ports 8070 and 8071, a limit of
    10485760 bytes, a heartbeat of 15000 and 30000 ms, and the three
    default paths resolved from the root. *)
Theorem absent_sections_get_the_defaults :
  forall (P : Platform) (E : Loader.Env)
         (configPath text cert key dir : JSString) (raw : JSValue),
    Loader.resolveFromRoot E (JString (js "config.json")) = inr configPath ->
    Loader.existsSync E configPath = true ->
    Loader.readFileSync E configPath = inr text ->
    JSON_parse P text = Some raw ->
    raw <> JNull ->
    Forall (fun k => Loader.opt_truthy (Loader.get raw k) = false)
           [js "ws"; js "wss"; js "tls"; js "heartbeat"; js "log"] ->
    Loader.get raw (js "maxPayload") = None ->
    Loader.resolveFromRoot E (JString (js "cacerts/cacert.pem")) = inr cert ->
    Loader.resolveFromRoot E (JString (js "cacerts/privkey.pem")) = inr key ->
    Loader.resolveFromRoot E (JString (js "logs")) = inr dir ->
    Loader.existsSync E cert = true ->
    Loader.existsSync E key = true ->
    Loader.loadConfig P E = inr (defaults cert key dir).
Proof.
  intros P E configPath text cert key dir raw Hpath Hex Hread Hparse Hnull
         Hsec Hmp Hcert Hkey Hdir Hc Hk.
  inversion Hsec as [|? ? Hws Hsec1]; subst.
  inversion Hsec1 as [|? ? Hwss Hsec2]; subst.
  inversion Hsec2 as [|? ? Htls Hsec3]; subst.
  inversion Hsec3 as [|? ? Hhb Hsec4]; subst.
  inversion Hsec4 as [|? ? Hlog _]; subst.
  unfold Loader.loadConfig.
  rewrite Hpath. cbn [Loader.bind]. rewrite Hex. cbn [negb].
  rewrite Hread, Hparse. cbn [Loader.bind].
  rewrite !(member_not_null raw _ Hnull). cbn [Loader.bind].
  rewrite !(endpoint_absent E _ _ Hws), !(endpoint_absent E _ _ Hwss).
  cbn [Loader.bind Loader.enabled negb andb].
  rewrite !(or_default_absent _ _ _ Htls), Hcert, Hkey.
  cbn [Loader.bind]. rewrite Hmp. cbn [Loader.bind Loader.le_zero].
  change (Qle_bool (10 * 1024 * 1024 # 1) 0
          || rounds_to_zero (10 * 1024 * 1024 # 1)) with false.
  rewrite !(number_or_absent E _ _ _ Hhb). cbn [Loader.bind].
  rewrite (or_default_absent _ _ _ Hlog), Hdir. cbn [Loader.bind].
  rewrite Hc, Hk. reflexivity.
Qed.

Lemma absent_sections_get_the_defaults_witness :
  Loader.loadConfig
    Reference.platform
    (posix (Reference.text "{'ws': null, 'heartbeat': 0, 'name': 'x'}")
           [js "/srv/app/config.json"; js "/srv/app/cacerts/cacert.pem";
            js "/srv/app/cacerts/privkey.pem"])
  = inr (defaults (js "/srv/app/cacerts/cacert.pem")
                  (js "/srv/app/cacerts/privkey.pem")
                  (js "/srv/app/logs")).
Proof.
  apply (absent_sections_get_the_defaults
           Reference.platform
           (posix (Reference.text "{'ws': null, 'heartbeat': 0, 'name': 'x'}")
                  [js "/srv/app/config.json";
                   js "/srv/app/cacerts/cacert.pem";
                   js "/srv/app/cacerts/privkey.pem"])
           (js "/srv/app/config.json")
           (Reference.text "{'ws': null, 'heartbeat': 0, 'name': 'x'}")
           (js "/srv/app/cacerts/cacert.pem")
           (js "/srv/app/cacerts/privkey.pem")
           (js "/srv/app/logs")
           (JObject [(js "ws", JNull); (js "heartbeat", JNumber (0 # 1)%Q);
                     (js "name", JString (js "x"))]));
    try (vm_compute; reflexivity).
  - discriminate.
  - repeat constructor.
Defined.

(** X23.  The error "no protocol" has one cause: the file holds a value in
    which the sections [ws] and [wss] both say [enabled] with a falsy
    value ([false], [0], the empty string or [null]).  A section that is
    left out, or has no [enabled] member, counts as enabled.  With both
    sections switched off [loadConfig] never returns a configuration,
    whatever else the file and the disk hold. *)
Theorem disabling_both_protocols_is_rejected :
  forall (P : Platform) (E : Loader.Env),
    (Loader.loadConfig P E = inl Loader.NoProtocol ->
     exists configPath text raw,
       Loader.resolveFromRoot E (JString (js "config.json"))
       = inr configPath
       /\ Loader.readFileSync E configPath = inr text
       /\ JSON_parse P text = Some raw
       /\ switched_off (Loader.get raw (js "ws"))
       /\ switched_off (Loader.get raw (js "wss")))
    /\ (forall configPath text raw,
          Loader.resolveFromRoot E (JString (js "config.json"))
          = inr configPath ->
          Loader.readFileSync E configPath = inr text ->
          JSON_parse P text = Some raw ->
          switched_off (Loader.get raw (js "ws")) ->
          switched_off (Loader.get raw (js "wss")) ->
          forall c, Loader.loadConfig P E <> inr c).
Proof.
  intros P E. split.
  - intros H.
    destruct (loadConfig_NoProtocol P E H)
      as (configPath & text & raw & Hpath & Hread & Hparse & H1 & H2).
    exists configPath, text, raw.
    split; [exact Hpath|]. split; [exact Hread|]. split; [exact Hparse|].
    split; [apply (proj1 (enabled_of_false _)); exact H1
           |apply (proj1 (enabled_of_false _)); exact H2].
  - intros configPath text raw Hpath Hread Hparse H1 H2 c Hc.
    destruct (loadConfig_inr P E c Hc)
      as (configPath' & text' & raw' & Hpath' & _ & Hread' & Hparse' & _
          & Hws & Hwss & Hone & _).
    rewrite Hpath in Hpath'. injection Hpath' as <-.
    rewrite Hread in Hread'. injection Hread' as <-.
    rewrite Hparse in Hparse'. injection Hparse' as <-.
    rewrite (endpoint_enabled E _ _ _ Hws) in Hone.
    rewrite (endpoint_enabled E _ _ _ Hwss) in Hone.
    rewrite (proj2 (enabled_of_false _) H1) in Hone.
    rewrite (proj2 (enabled_of_false _) H2) in Hone.
    discriminate Hone.
Qed.

Lemma disabling_both_protocols_is_rejected_witness :
  Loader.loadConfig
    Reference.platform
    (posix (Reference.text
              "{'ws': {'enabled': 0}, 'wss': {'enabled': null}}")
           [js "/srv/app/config.json"]) = inl Loader.NoProtocol
  /\ exists configPath text raw,
       Loader.resolveFromRoot
         (posix (Reference.text
                   "{'ws': {'enabled': 0}, 'wss': {'enabled': null}}")
                [js "/srv/app/config.json"])
         (JString (js "config.json")) = inr configPath
       /\ Loader.readFileSync
            (posix (Reference.text
                      "{'ws': {'enabled': 0}, 'wss': {'enabled': null}}")
                   [js "/srv/app/config.json"]) configPath = inr text
       /\ JSON_parse Reference.platform text = Some raw
       /\ switched_off (Loader.get raw (js "ws"))
       /\ switched_off (Loader.get raw (js "wss")).
Proof.
  split; [vm_compute; reflexivity|].
  apply (proj1 (disabling_both_protocols_is_rejected
                  Reference.platform
                  (posix (Reference.text
                            "{'ws': {'enabled': 0}, 'wss': {'enabled': null}}")
                         [js "/srv/app/config.json"]))).
  vm_compute. reflexivity.
Defined.

(* ===================================================================== *)
(** ** src/heartbeat.js: [start] and [stop]                               *)
(* ===================================================================== *)

Section TimerFacts.

Lemma markAlive_timer (h : Manager) (s : Socket) :
  timer (markAlive h s) = timer h.
Proof. unfold markAlive. destruct (Map_get (clientMap h) s); reflexivity. Qed.

Lemma onPong_timer (h : Manager) (s : Socket) :
  timer (onPong h s) = timer h.
Proof.
  unfold onPong. generalize (pongListeners h) at 1. intros ls.
  revert h. induction ls as [|k ls IH]; intros h; [reflexivity|].
  cbn [fold_left]. rewrite IH. destruct (Nat.eqb k s); [|reflexivity].
  change (pongListener h s) with (markAlive h s). apply markAlive_timer.
Qed.

(** Without a timer, and as long as [start] is not called, an event does
    nothing to the outside and leaves the manager without a timer. *)
Lemma hb_step_stopped (T : Transport) (h : Manager) (ev : HbEvent) :
  timer h = None -> ev <> Started ->
  snd (hb_step T h ev) = [] /\ timer (fst (hb_step T h ev)) = None.
Proof.
  intros Ht Hev. destruct ev; cbn [hb_step fst snd].
  - split; [reflexivity|exact Ht].
  - split; [reflexivity|exact Ht].
  - split; [reflexivity|]. rewrite markAlive_timer. exact Ht.
  - split; [reflexivity|]. rewrite onPong_timer. exact Ht.
  - unfold onTimer. rewrite Ht. split; [reflexivity|exact Ht].
  - contradiction Hev. reflexivity.
  - split; reflexivity.
Qed.

Lemma hb_run_stopped (T : Transport) (es : list HbEvent) (h : Manager) :
  timer h = None -> Forall (fun ev => ev <> Started) es ->
  snd (hb_run T h es) = [] /\ timer (fst (hb_run T h es)) = None.
Proof.
  revert h. induction es as [|ev es IH]; intros h Ht Hes.
  - split; [reflexivity|exact Ht].
  - inversion Hes as [|? ? Hev Hes']; subst.
    rewrite hb_run_cons.
    destruct (hb_step_stopped T h ev Ht Hev) as (Hfx & Ht1).
    destruct (IH (fst (hb_step T h ev)) Ht1 Hes') as (Hfx2 & Ht2).
    cbn [fst snd]. rewrite Hfx, Hfx2. split; [reflexivity|exact Ht2].
Qed.

End TimerFacts.

(** X20.  [stop] silences a manager.  After it the registry is empty and,
    until [start] is called again, nothing the manager is asked to do
    reaches a socket or the log: the timer was cleared, so even clients
    registered afterwards are never probed and never terminated.  [start]
    on a running manager changes nothing (the timer is not set twice),
    and [stop] may be repeated. *)
Theorem stopped_manager_is_silent :
  forall (T : Transport) (h : Manager) (es : list HbEvent),
    Forall (fun ev => ev <> Started) es ->
    clientMap (stop h) = []
    /\ snd (hb_run T (stop h) es) = []
    /\ timer (fst (hb_run T (stop h) es)) = None
    /\ start (start h) = start h
    /\ stop (stop h) = stop h
    /\ clientMap (start h) = clientMap h.
Proof.
  intros T h es Hes.
  destruct (hb_run_stopped T es (stop h) eq_refl Hes) as (Hfx & Ht).
  split; [reflexivity|]. split; [exact Hfx|]. split; [exact Ht|].
  split; [|split; [reflexivity|]].
  - unfold start. destruct (timer h) eqn:Hth.
    + rewrite Hth. reflexivity.
    + reflexivity.
  - unfold start. destruct (timer h); reflexivity.
Qed.

Lemma stopped_manager_is_silent_witness :
  snd (hb_run Scenario.calm
              (stop (start (createHeartbeatManager 5000 15000)))
              [Registered 0 1%nat (js "10.0.0.1"); Fired 5000;
               Fired 100000]) = [].
Proof.
  refine (proj1 (proj2 (stopped_manager_is_silent
                          Scenario.calm
                          (start (createHeartbeatManager 5000 15000))
                          [Registered 0 1%nat (js "10.0.0.1"); Fired 5000;
                           Fired 100000] _))).
  repeat constructor; discriminate.
Defined.
